(** * mint: the page-access layer (package [diskview])

    A shallow embedding of [internal/diskview]: the LRU [Cache] with its
    hand-built doubly linked list, the [Pager] over the backing file and the
    [DiskViewer] facade, followed by the properties of the specification
    that concern them.

    Go pointers to [CacheNode] are locations of an explicit heap, [nil] is
    [None], and a nil dereference is the outcome [Panic].  The operating
    system (file writes, stat, mmap, munmap, close) is an oracle [Env] whose
    answers may depend on the whole history of system calls; every system
    call is recorded in the [trace] of the state. *)

From Stdlib Require Import ZArith Lia List.
From stdpp Require Import gmap list fin_maps.

Local Open Scope Z_scope.

(** ** Machine integers *)

(** Go's [int64] (and [int] on the 64-bit hosts the store targets):
    arithmetic wraps around modulo 2^64. *)
Definition max_int64 : Z := 2 ^ 63 - 1.
Definition wrap64 (z : Z) : Z := (z + 2 ^ 63) mod 2 ^ 64 - 2 ^ 63.

(** ** Errors *)

(** [ErrCacheMiss] is the sentinel of cache.go; [OsError] stands for an error
    of the operating system; the other constructors are the [fmt.Errorf]
    wrappers of diskview.go and cache.go with their arguments. *)
Inductive error : Type :=
  | ErrCacheMiss
  | OsError (code : nat)
  | ErrWritePage (offset : Z) (e : error)
  | ErrRefreshInfo (e : error)
  | ErrUnmapPage (id : Z) (e : error).

(** ** Data *)

Definition loc := nat.
(** A Go pointer [*CacheNode]. *)
Definition ptr := option loc.

(** [mmap.MMap] is a byte slice over a mapping: [Some r] is the mapping with
    handle [r], [None] the nil slice. *)
Definition MMap := option nat.

Record CacheNode : Type := mkNode {
  n_id : Z;
  n_data : MMap;
  n_next : ptr;
  n_prev : ptr
}.

Record Config : Type := mkConfig { MaxCapacity : Z }.

Definition DefaultConfig : Config := {| MaxCapacity := 10 |}.

Record Cache : Type := mkCache {
  c_lookup : gmap Z loc;
  c_head : ptr;
  c_tail : ptr;
  c_config : Config
}.

Record FileInfo : Type := mkInfo { Size : Z }.

Record Pager : Type := mkPager {
  p_info : FileInfo;
  p_pageSize : Z
}.

(** System calls, newest first in the trace. *)
Inductive event : Type :=
  | EvOpen
  | EvStat
  | EvWrite (count offset n : Z)
  | EvMap (offset : Z) (r : nat)
  | EvUnmap (m : MMap)
  | EvCloseFile.

(** The program state: the heap of cache nodes, the [DiskViewer]'s two
    components, the size of the backing file, the trace of system calls and
    the next fresh mapping handle. *)
Record St : Type := mkSt {
  heap : gmap loc CacheNode;
  nalloc : loc;
  cache : Cache;
  pager : Pager;
  fsize : Z;
  trace : list event;
  nregion : nat
}.

(** The operating system as an oracle over the history. *)
Record Env : Type := mkEnv {
  env_pagesize : Z;
  env_open : list event -> option error;
  env_stat : list event -> option error;
  env_write : list event -> Z -> Z -> Z * option error;
  env_mmap : list event -> Z -> option error;
  env_unmap : list event -> MMap -> option error;
  env_close : list event -> option error;
  env_range : gmap Z loc -> list (Z * loc)
}.

(** ** The monad of the embedding: state, panic, fuel *)

Inductive outcome (A : Type) : Type :=
  | Ret (a : A) (s : St)
  | Panic
  | OutOfFuel.
Arguments Ret {A} a s.
Arguments Panic {A}.
Arguments OutOfFuel {A}.

Definition M (A : Type) : Type := St -> outcome A.

Definition ret {A} (a : A) : M A := fun s => Ret a s.
Definition bind {A B} (m : M A) (k : A -> M B) : M B :=
  fun s => match m s with
           | Ret a s' => k a s'
           | Panic => Panic
           | OutOfFuel => OutOfFuel
           end.
Definition panic {A} : M A := fun _ => Panic.

Notation "x <- c1 ;; c2" := (bind c1 (fun x => c2))
  (at level 62, c1 at next level, right associativity).
Notation "c1 ;;; c2" := (bind c1 (fun _ => c2))
  (at level 62, right associativity).

Definition gets {A} (f : St -> A) : M A := fun s => Ret (f s) s.

Definition set_heap (h : gmap loc CacheNode) (s : St) : St :=
  mkSt h (nalloc s) (cache s) (pager s) (fsize s) (trace s) (nregion s).
Definition set_nalloc (n : loc) (s : St) : St :=
  mkSt (heap s) n (cache s) (pager s) (fsize s) (trace s) (nregion s).
Definition set_cache (c : Cache) (s : St) : St :=
  mkSt (heap s) (nalloc s) c (pager s) (fsize s) (trace s) (nregion s).
Definition set_pager (p : Pager) (s : St) : St :=
  mkSt (heap s) (nalloc s) (cache s) p (fsize s) (trace s) (nregion s).
Definition set_fsize (z : Z) (s : St) : St :=
  mkSt (heap s) (nalloc s) (cache s) (pager s) z (trace s) (nregion s).
Definition set_trace (t : list event) (s : St) : St :=
  mkSt (heap s) (nalloc s) (cache s) (pager s) (fsize s) t (nregion s).
Definition set_nregion (n : nat) (s : St) : St :=
  mkSt (heap s) (nalloc s) (cache s) (pager s) (fsize s) (trace s) n.

Definition modify (f : St -> St) : M unit := fun s => Ret tt (f s).

(** *** Heap access *)

Definition load (p : ptr) : M CacheNode := fun s =>
  match p with
  | None => Panic
  | Some l => match heap s !! l with
              | Some n => Ret n s
              | None => Panic
              end
  end.

Definition store (p : ptr) (f : CacheNode -> CacheNode) : M unit :=
  n <- load p ;;
  match p with
  | None => panic
  | Some l => modify (fun s => set_heap (<[l := f n]> (heap s)) s)
  end.

(** [&CacheNode{...}] *)
Definition alloc (n : CacheNode) : M ptr := fun s =>
  Ret (Some (nalloc s))
      (set_nalloc (S (nalloc s)) (set_heap (<[nalloc s := n]> (heap s)) s)).

Definition get_next (p : ptr) : M ptr := n <- load p ;; ret (n_next n).
Definition get_prev (p : ptr) : M ptr := n <- load p ;; ret (n_prev n).
Definition set_next (p v : ptr) : M unit :=
  store p (fun n => mkNode (n_id n) (n_data n) v (n_prev n)).
Definition set_prev (p v : ptr) : M unit :=
  store p (fun n => mkNode (n_id n) (n_data n) (n_next n) v).
Definition set_data (p : ptr) (d : MMap) : M unit :=
  store p (fun n => mkNode (n_id n) d (n_next n) (n_prev n)).

Definition ptr_eqb (p q : ptr) : bool :=
  match p, q with
  | Some a, Some b => Nat.eqb a b
  | None, None => true
  | _, _ => false
  end.

Definition set_lookup (f : gmap Z loc -> gmap Z loc) : M unit :=
  modify (fun s =>
    let c := cache s in
    set_cache (mkCache (f (c_lookup c)) (c_head c) (c_tail c) (c_config c)) s).

Section Program.

Variable E : Env.

(** ** The mmap library *)

(** The munmap system call behind [MMap.Unmap]. *)
Definition munmap (m : MMap) : M (option error) := fun s =>
  Ret (env_unmap E (trace s) m) (set_trace (EvUnmap m :: trace s) s).

(** [node.data.Unmap()]: [Unmap] has a pointer receiver; it unmaps the
    region and then sets the slice it was called on to nil. *)
Definition Unmap_data (p : ptr) : M (option error) :=
  n <- load p ;;
  e <- munmap (n_data n) ;;
  set_data p None ;;;
  ret e.

(** [mmap.MapRegion(file, length, RDWR, 0, offset)]: a fresh mapping. *)
Definition MapRegion (offset : Z) : M (MMap * option error) := fun s =>
  match env_mmap E (trace s) offset with
  | Some e => Ret (None, Some e) s
  | None =>
      Ret (Some (nregion s), None)
          (set_nregion (S (nregion s))
             (set_trace (EvMap offset (nregion s) :: trace s) s))
  end.

(** ** cache.go *)

Definition zero_node : CacheNode := mkNode 0 None None None.

(** [make(map[int64]*CacheNode, config.MaxCapacity)] is the empty map
    whatever the size hint, a negative one included. *)
Definition NewCache (config : Config) : M unit :=
  let config := if MaxCapacity config =? 0 then mkConfig 10 else config in
  head <- alloc zero_node ;;
  tail <- alloc zero_node ;;
  set_next head tail ;;;
  set_prev tail head ;;;
  modify (set_cache (mkCache ∅ head tail config)).

Definition insertAtFront (node : ptr) : M unit :=
  h <- gets (fun s => c_head (cache s)) ;;
  hn <- get_next h ;;
  set_next node hn ;;;
  set_prev node h ;;;
  hn <- get_next h ;;
  set_prev hn node ;;;
  set_next h node.

Definition removeFromBack : M ptr :=
  t <- gets (fun s => c_tail (cache s)) ;;
  last <- get_prev t ;;
  lp <- get_prev last ;;
  set_next lp t ;;;
  lp <- get_prev last ;;
  set_prev t lp ;;;
  set_prev last None ;;;
  set_next last None ;;;
  ret last.

Definition moveToFront (node : ptr) : M unit :=
  h <- gets (fun s => c_head (cache s)) ;;
  hn <- get_next h ;;
  if ptr_eqb node hn then ret tt
  else
    nn <- get_next node ;;
    np <- get_prev node ;;
    set_next np nn ;;;
    np <- get_prev node ;;
    nn <- get_next node ;;
    set_prev nn np ;;;
    insertAtFront node.

Definition Cache_Get (id : Z) : M (MMap * option error) :=
  lk <- gets (fun s => c_lookup (cache s)) ;;
  match lk !! id with
  | Some l =>
      moveToFront (Some l) ;;;
      n <- load (Some l) ;;
      ret (n_data n, None)
  | None => ret (None, Some ErrCacheMiss)
  end.

Definition Cache_Set (id : Z) (data : MMap) : M (option error) :=
  c <- gets cache ;;
  match c_lookup c !! id with
  | Some l =>
      set_data (Some l) data ;;;
      moveToFront (Some l) ;;;
      ret None
  | None =>
      err <- (if MaxCapacity (c_config c) <=? Z.of_nat (size (c_lookup c))
              then
                node <- removeFromBack ;;
                err <- Unmap_data node ;;
                n <- load node ;;
                set_lookup (delete (n_id n)) ;;;
                ret err
              else ret None) ;;
      node <- alloc (mkNode id data None None) ;;
      insertAtFront node ;;;
      set_lookup (fun lk => match node with
                            | Some l => <[id := l]> lk
                            | None => lk
                            end) ;;;
      ret err
  end.

(** The body of the [range] loop of [Cache.Close] over the values of the
    lookup map. *)
Fixpoint close_loop (values : list loc) (firstErr : option error)
  : M (option error) :=
  match values with
  | [] => ret firstErr
  | v :: rest =>
      err <- Unmap_data (Some v) ;;
      n <- load (Some v) ;;
      let firstErr' :=
        match err, firstErr with
        | Some e, None => Some (ErrUnmapPage (n_id n) e)
        | _, _ => firstErr
        end in
      set_next (Some v) None ;;;
      set_prev (Some v) None ;;;
      close_loop rest firstErr'
  end.

(** Go leaves the iteration order of a map unspecified: [env_range] picks
    it. *)
Definition Cache_Close : M (option error) :=
  c <- gets cache ;;
  firstErr <- close_loop (snd <$> env_range E (c_lookup c)) None ;;
  modify (set_cache (mkCache ∅ None None (c_config c))) ;;;
  ret firstErr.

(** ** pager.go, the variant diskview.go is written against: the file
    information is cached in the Pager and refreshed on demand *)

(** [file.Stat()]: on success the size of the file now. *)
Definition Stat : M (FileInfo * option error) := fun s =>
  match env_stat E (trace s) with
  | Some e => Ret (mkInfo 0, Some e) s
  | None => Ret (mkInfo (fsize s), None) (set_trace (EvStat :: trace s) s)
  end.

Definition file_Close : M (option error) := fun s =>
  Ret (env_close E (trace s)) (set_trace (EvCloseFile :: trace s) s).

(** [file.WriteAt(make([]byte, count), offset)]: the system writes [n]
    bytes, [0 <= n <= count], none of them past the largest offset, and the
    file grows to hold them.  A negative offset is refused. *)
Definition WriteAt (count offset : Z) : M (Z * option error) := fun s =>
  if offset <? 0 then Ret (0, Some (OsError 22)) s
  else
    let '(k, err) := env_write E (trace s) count offset in
    let n := Z.max 0 (Z.min k (Z.min count (max_int64 - offset))) in
    Ret (n, err)
        (set_fsize (if 0 <? n then Z.max (fsize s) (offset + n) else fsize s)
           (set_trace (EvWrite count offset n :: trace s) s)).

Definition NewPager : M (option error) := fun s =>
  match env_open E (trace s) with
  | Some e => Ret (Some e) s
  | None =>
      (r <- Stat ;;
       match r with
       | (_, Some e) => file_Close ;;; ret (Some e)
       | (info, None) =>
           modify (set_pager (mkPager info (env_pagesize E))) ;;; ret None
       end) (set_trace (EvOpen :: trace s) s)
  end.

Definition Pager_GetPage (id : Z) : M (MMap * option error) :=
  p <- gets pager ;;
  let offset := wrap64 (id * p_pageSize p) in
  MapRegion offset.

(** Integer division by zero panics in Go. *)
Definition Pager_PageCount : M Z :=
  p <- gets pager ;;
  let size := Size (p_info p) in
  if p_pageSize p =? 0 then panic else ret (Z.quot size (p_pageSize p)).

Definition Pager_RefreshInfo : M (option error) :=
  r <- Stat ;;
  match r with
  | (_, Some e) => ret (Some e)
  | (info, None) =>
      p <- gets pager ;;
      modify (set_pager (mkPager info (p_pageSize p))) ;;;
      ret None
  end.

Definition Pager_Close : M (option error) := file_Close.

(** ** pager.go, the other variant: the file is stat'ed on every call *)

Definition Pager2_PageCount : M (Z * option error) :=
  r <- Stat ;;
  match r with
  | (_, Some e) => ret (0, Some e)
  | (info, None) =>
      p <- gets pager ;;
      if p_pageSize p =? 0 then panic
      else ret (Z.quot (Size info) (p_pageSize p), None)
  end.

(** ** diskview.go *)

Definition DiskViewer_New (config : Config) : M (option error) :=
  NewCache config ;;;
  NewPager.

Definition DiskViewer_Read (id : Z) : M (MMap * option error) :=
  r <- Cache_Get id ;;
  match r with
  | (data, None) => ret (data, None)
  | (_, Some _) =>
      r <- Pager_GetPage id ;;
      match r with
      | (_, Some err) => ret (None, Some err)
      | (data, None) =>
          err <- Cache_Set id data ;;
          match err with
          | Some e => munmap data ;;; ret (None, Some e)
          | None => ret (data, None)
          end
      end
  end.

Definition fill (count offset : Z) : M (Z * option error) :=
  WriteAt count offset.

(** The [for remaining > 0] loop of [Create]; it yields the wrapped error of
    the failing write, if any.  The loop need not end when the system keeps
    writing nothing without reporting an error, hence the fuel. *)
Fixpoint create_loop (fuel : nat) (remaining offset : Z) : M (option error) :=
  if 0 <? remaining then
    match fuel with
    | O => fun _ => OutOfFuel
    | S fuel' =>
        r <- fill remaining offset ;;
        match r with
        | (_, Some err) => ret (Some (ErrWritePage offset err))
        | (n, None) =>
            create_loop fuel' (wrap64 (remaining - n)) (wrap64 (offset + n))
        end
    end
  else ret None.

Definition DiskViewer_Create (fuel : nat) : M (Z * option error) :=
  p <- gets pager ;;
  let remaining := p_pageSize p in
  pc <- Pager_PageCount ;;
  let offset := wrap64 (pc * p_pageSize p) in
  werr <- create_loop fuel remaining offset ;;
  match werr with
  | Some e => ret (0, Some e)
  | None =>
      rerr <- Pager_RefreshInfo ;;
      match rerr with
      | Some e => ret (0, Some (ErrRefreshInfo e))
      | None =>
          pc <- Pager_PageCount ;;
          let id := wrap64 (pc - 1) in
          Cache_Get id ;;;
          pc <- Pager_PageCount ;;
          ret (wrap64 (pc - 1), None)
      end
  end.

Definition DiskViewer_Close : M (option error) :=
  err <- Cache_Close ;;
  match err with
  | Some e => ret (Some e)
  | None => Pager_Close
  end.

End Program.

(** What a cache operation leaves alone: [evolved s s' t] says that [s']
    has the pager, file size, mapping counter and cache configuration of [s]
    and the trace [t]. *)
Definition evolved (s s' : St) (t : list event) : Prop :=
  pager s' = pager s /\ fsize s' = fsize s /\ nregion s' = nregion s /\
  c_config (cache s') = c_config (cache s) /\ trace s' = t.

(** Sequences of cache operations. *)
Inductive cache_op : Type :=
  | OpGet (id : Z)
  | OpSet (id : Z) (data : MMap).

Definition run_op (E : Env) (op : cache_op) : M unit :=
  match op with
  | OpGet id => Cache_Get id ;;; ret tt
  | OpSet id data => Cache_Set E id data ;;; ret tt
  end.

Fixpoint run_ops (E : Env) (ops : list cache_op) : M unit :=
  match ops with
  | [] => ret tt
  | op :: rest => run_op E op ;;; run_ops E rest
  end.

(** Sequences of [Create] calls, each with the fuel of its write loop; a
    call that does not return ends the run. *)
Fixpoint run_creates (E : Env) (fuels : list nat)
  : M (list (Z * option error)) :=
  match fuels with
  | [] => ret []
  | fuel :: rest =>
      r <- DiskViewer_Create E fuel ;;
      rs <- run_creates E rest ;;
      ret (r :: rs)
  end.

(** The ids returned by the successful calls, in call order. *)
Definition ok_ids (rs : list (Z * option error)) : list Z :=
  omap (fun r => match r.2 with None => Some r.1 | Some _ => None end) rs.

(** Sequences of [Read] and [Create] calls on a [DiskViewer]. *)
Inductive dv_op : Type :=
  | DvRead (id : Z)
  | DvCreate (fuel : nat).

Definition run_dv_op (E : Env) (op : dv_op) : M unit :=
  match op with
  | DvRead id => DiskViewer_Read E id ;;; ret tt
  | DvCreate fuel => DiskViewer_Create E fuel ;;; ret tt
  end.

Fixpoint run_dv (E : Env) (ops : list dv_op) : M unit :=
  match ops with
  | [] => ret tt
  | op :: rest => run_dv_op E op ;;; run_dv E rest
  end.

(** A system that never fails a stat and completes every write. *)
Definition faultless (E : Env) : Prop :=
  (forall t, env_stat E t = None) /\
  (forall t count offset, env_write E t count offset = (count, None)).

(** What [Create] relies on: the cached file information records [k] whole
    pages, and the file holds these and at most one page more. *)
Definition pager_inv (ps k : Z) (s : St) : Prop :=
  p_pageSize (pager s) = ps /\ 0 <= k /\
  Size (p_info (pager s)) = k * ps /\
  k * ps <= fsize s <= k * ps + ps /\
  fsize s <= max_int64.

(** The capacity [NewCache] configures. *)
Definition capacity_of (config : Config) : Z :=
  if MaxCapacity config =? 0 then 10 else MaxCapacity config.

(** ** Initial state and observations *)

(** The state before [New]: nothing allocated, a backing file of [size]
    bytes on disk. *)
Definition boot (size : Z) : St :=
  mkSt ∅ 0%nat (mkCache ∅ None None (mkConfig 0)) (mkPager (mkInfo 0) 0)
       size [] 0%nat.

(** An environment in which no system call fails and every write is
    complete. *)
Definition quiet_env (pagesize : Z) : Env :=
  mkEnv pagesize (fun _ => None) (fun _ => None)
        (fun _ count _ => (count, None)) (fun _ _ => None) (fun _ _ => None)
        (fun _ => None) map_to_list.

(** An environment in which every munmap fails with EINVAL and nothing
    else does. *)
Definition unmap_fails_env (pagesize : Z) : Env :=
  mkEnv pagesize (fun _ => None) (fun _ => None)
        (fun _ count _ => (count, None)) (fun _ _ => None)
        (fun _ _ => Some (OsError 22))
        (fun _ => None) map_to_list.

(** The recency list as the code sees it: the nodes reached from
    [head.next] by [next] pointers up to the tail sentinel, most recently
    used first. *)
Fixpoint walk (fuel : nat) (h : gmap loc CacheNode) (p stop : ptr)
  : list (Z * MMap) :=
  match fuel with
  | O => []
  | S fuel' =>
      if ptr_eqb p stop then []
      else match p with
           | None => []
           | Some l =>
               match h !! l with
               | None => []
               | Some n => (n_id n, n_data n) :: walk fuel' h (n_next n) stop
               end
           end
  end.

Definition recency (s : St) : list (Z * MMap) :=
  match c_head (cache s) with
  | None => []
  | Some hl =>
      match heap s !! hl with
      | None => []
      | Some hn => walk (nalloc s) (heap s) (n_next hn) (c_tail (cache s))
      end
  end.

(** The number of entries the cache holds: [len(l.lookup)]. *)
Definition cache_len (s : St) : Z := Z.of_nat (size (c_lookup (cache s))).

(** ** The representation of the recency list *)

(** An entry of the cache as the abstract list sees it: the location of its
    node, its page id and its region. *)
Record entry : Type := mkE { eloc : loc; eid : Z; edata : MMap }.

Definition first_ptr (es : list entry) (q : ptr) : ptr :=
  match es with
  | [] => q
  | e :: _ => Some (eloc e)
  end.

Fixpoint last_ptr (p : ptr) (es : list entry) : ptr :=
  match es with
  | [] => p
  | e :: es' => last_ptr (Some (eloc e)) es'
  end.

(** [dl h p es q]: in the heap [h] the nodes of [es] are doubly linked in
    this order, the first with [prev = p], the last with [next = q]. *)
Fixpoint dl (h : gmap loc CacheNode) (p : ptr) (es : list entry) (q : ptr)
  : Prop :=
  match es with
  | [] => True
  | e :: es' =>
      h !! eloc e = Some (mkNode (eid e) (edata e) (first_ptr es' q) p)
      /\ dl h (Some (eloc e)) es' q
  end.

Definition kv (e : entry) : Z * loc := (eid e, eloc e).
Definition item (e : entry) : Z * MMap := (eid e, edata e).

(** [cache_rep s es]: the cache of [s] holds exactly the entries [es], most
    recently used first, between its two sentinels. *)
Definition cache_rep (s : St) (es : list entry) : Prop :=
  exists H T,
    c_head (cache s) = Some (eloc H) /\
    c_tail (cache s) = Some (eloc T) /\
    dl (heap s) None (H :: es ++ [T]) None /\
    NoDup (eloc <$> (H :: es ++ [T])) /\
    Forall (fun l => (l < nalloc s)%nat) (eloc <$> (H :: es ++ [T])) /\
    c_lookup (cache s) = list_to_map (kv <$> es) /\
    NoDup (eid <$> es).

(** The well-formed cache states: the cache holds some entry list, its
    capacity is positive and not exceeded. *)
Definition cache_ok (s : St) : Prop :=
  exists es,
    cache_rep s es /\
    1 <= MaxCapacity (c_config (cache s)) /\
    Z.of_nat (length es) <= MaxCapacity (c_config (cache s)).

(** ** Fragments of the operations and frame properties *)

(** The second half of [Set]: allocate the node, link it at the front,
    record it in the lookup map. *)
Definition link_new (id : Z) (data : MMap) (err : option error)
  : M (option error) :=
  node <- alloc (mkNode id data None None) ;;
  insertAtFront node ;;;
  set_lookup (fun lk => match node with
                        | Some l => <[id := l]> lk
                        | None => lk
                        end) ;;;
  ret err.

(** The eviction branch of [Set]. *)
Definition evict_back (E : Env) : M (option error) :=
  node <- removeFromBack ;;
  err <- Unmap_data E node ;;
  n <- load node ;;
  set_lookup (delete (n_id n)) ;;;
  ret err.

(** A run of insertions. *)
Definition set_ops (l : list (Z * MMap)) : list cache_op :=
  (fun p => OpSet p.1 p.2) <$> l.

(** [heap_only m]: a run of [m] that returns changes nothing but the nodes
    of the heap. *)
Definition heap_only {A} (m : M A) : Prop :=
  forall s a s', m s = Ret a s' -> exists h, s' = set_heap h s.

(** [keeps_cache m]: a run of [m] that returns leaves the heap, the
    allocator and the cache structure alone. *)
Definition keeps_cache {A} (m : M A) : Prop :=
  forall s a s', m s = Ret a s' ->
    heap s' = heap s /\ nalloc s' = nalloc s /\ cache s' = cache s.

(** [steps R m]: every run of [m] that returns relates the state before to
    the state after by [R].  For a reflexive and transitive [R] this is
    closed under the monad's combinators. *)
Definition steps (R : St -> St -> Prop) {A} (m : M A) : Prop :=
  forall s a s', m s = Ret a s' -> R s s'.

(** The relations used below. *)
Definition same_cache (s s' : St) : Prop :=
  cache s' = cache s /\ nregion s' = nregion s.
Definition trace_ext (s s' : St) : Prop :=
  exists t, trace s' = t ++ trace s.
Definition ok_to_ok (s s' : St) : Prop := cache_ok s -> cache_ok s'.

(** ** An abstract LRU list, to compare the cache with *)

(** The cache as a plain list of (id, region) pairs, most recently used
    first.  [lru_get] and [lru_set] say what [Cache.Get] and [Cache.Set] are
    meant to do to that list. *)
Fixpoint lru_assoc (id : Z) (l : list (Z * MMap)) : option MMap :=
  match l with
  | [] => None
  | (k, d) :: l' => if Z.eqb k id then Some d else lru_assoc id l'
  end.

Fixpoint lru_remove (id : Z) (l : list (Z * MMap)) : list (Z * MMap) :=
  match l with
  | [] => []
  | (k, d) :: l' => if Z.eqb k id then lru_remove id l'
                    else (k, d) :: lru_remove id l'
  end.

Definition lru_get (id : Z) (l : list (Z * MMap)) : list (Z * MMap) :=
  match lru_assoc id l with
  | Some d => (id, d) :: lru_remove id l
  | None => l
  end.

Definition lru_set (cap : Z) (id : Z) (d : MMap) (l : list (Z * MMap))
  : list (Z * MMap) :=
  match lru_assoc id l with
  | Some _ => (id, d) :: lru_remove id l
  | None =>
      if cap <=? Z.of_nat (length l) then (id, d) :: removelast l
      else (id, d) :: l
  end.

Definition lru_step (cap : Z) (l : list (Z * MMap)) (op : cache_op)
  : list (Z * MMap) :=
  match op with
  | OpGet id => lru_get id l
  | OpSet id d => lru_set cap id d l
  end.

Definition lru_run (cap : Z) (ops : list cache_op) : list (Z * MMap) :=
  fold_left (lru_step cap) ops [].

(** The region [lru_set] pushes out of the list, if any. *)
Definition lru_evicted (cap : Z) (id : Z) (l : list (Z * MMap)) : option MMap :=
  match lru_assoc id l with
  | Some _ => None
  | None => if cap <=? Z.of_nat (length l) then snd <$> last l else None
  end.

(** What [Get] answers for a list. *)
Definition lru_answer (id : Z) (l : list (Z * MMap)) : MMap * option error :=
  match lru_assoc id l with
  | Some d => (d, None)
  | None => (None, Some ErrCacheMiss)
  end.

(** ** More observations *)

(** The recency list read backwards: the nodes reached from [tail.prev] by
    [prev] pointers up to the head sentinel, least recently used first. *)
Fixpoint walk_back (fuel : nat) (h : gmap loc CacheNode) (p stop : ptr)
  : list (Z * MMap) :=
  match fuel with
  | O => []
  | S fuel' =>
      if ptr_eqb p stop then []
      else match p with
           | None => []
           | Some l =>
               match h !! l with
               | None => []
               | Some n => (n_id n, n_data n) :: walk_back fuel' h (n_prev n) stop
               end
           end
  end.

Definition recency_back (s : St) : list (Z * MMap) :=
  match c_tail (cache s) with
  | None => []
  | Some tl =>
      match heap s !! tl with
      | None => []
      | Some tn => walk_back (nalloc s) (heap s) (n_prev tn) (c_head (cache s))
      end
  end.

(** The regions the trace has mapped and the regions it has unmapped, newest
    first. *)
Definition mapped (t : list event) : list MMap :=
  omap (fun ev => match ev with EvMap _ r => Some (Some r) | _ => None end) t.
Definition unmapped (t : list event) : list MMap :=
  omap (fun ev => match ev with EvUnmap m => Some m | _ => None end) t.

(** A system whose munmap never fails. *)
Definition unmap_ok (E : Env) : Prop := forall t m, env_unmap E t m = None.

(** The page ids a run reads. *)
Definition read_ids (ops : list dv_op) : list Z :=
  omap (fun op => match op with DvRead id => Some id | DvCreate _ => None end) ops.

(** A system whose writes make progress: a write that reports no error
    writes at least one byte when asked for at least one. *)
Definition write_progress (E : Env) : Prop :=
  forall t count offset,
    0 < count -> snd (env_write E t count offset) = None ->
    1 <= fst (env_write E t count offset).

(** The region held by the node at a location, nil when there is none. *)
Definition node_data (h : gmap loc CacheNode) (v : loc) : MMap :=
  match h !! v with Some n => n_data n | None => None end.

(** More relations between the state before and after a run. *)
Definition ok_perm (s s' : St) : Prop :=
  cache_ok s -> cache_ok s' /\ recency s' ≡ₚ recency s.
Definition same_sys (s s' : St) : Prop :=
  mapped (trace s') = mapped (trace s) /\
  unmapped (trace s') = unmapped (trace s).

(** Every region the trace has mapped is either unmapped or still cached,
    counted with multiplicity. *)
Definition balanced (s : St) : Prop :=
  mapped (trace s) ≡ₚ unmapped (trace s) ++ (snd <$> recency s).

(** ** pager.go, the stat-per-call variant: the rest of its functions *)

Section Pager2.

Variable E : Env.

(** [NewPager] of this variant opens the file and does not stat it. *)
Definition Pager2_NewPager : M (option error) := fun s =>
  match env_open E (trace s) with
  | Some e => Ret (Some e) s
  | None =>
      Ret None
          (set_pager (mkPager (p_info (pager s)) (env_pagesize E))
             (set_trace (EvOpen :: trace s) s))
  end.

Definition Pager2_GetPage (id : Z) : M (MMap * option error) :=
  p <- gets pager ;;
  let offset := wrap64 (id * p_pageSize p) in
  MapRegion E offset.

(** [make([]byte, count)] panics on a negative length. *)
Definition Pager2_Write (count offset : Z) : M (Z * option error) :=
  if count <? 0 then panic else WriteAt E count offset.

Definition Pager2_Close : M (option error) := file_Close E.

End Pager2.

(** * Properties *)

(** ** Machine integers *)

Lemma wrap64_id z : - 2 ^ 63 <= z <= max_int64 -> wrap64 z = z.
Proof.
  unfold wrap64, max_int64. intros Hz.
  rewrite Z.mod_small by lia. lia.
Qed.

(** ** The monad *)

Lemma bind_Ret {A B} (m : M A) (k : A -> M B) s a s' :
  m s = Ret a s' -> bind m k s = k a s'.
Proof. unfold bind. intros ->. reflexivity. Qed.

Lemma set_heap_id s : set_heap (heap s) s = s.
Proof. destruct s; reflexivity. Qed.

Lemma set_heap_twice h h' s : set_heap h (set_heap h' s) = set_heap h s.
Proof. reflexivity. Qed.

Lemma heap_set_heap h s : heap (set_heap h s) = h.
Proof. reflexivity. Qed.

Ltac norm_st := repeat (rewrite heap_set_heap || rewrite set_heap_twice).

Lemma load_eq s l n : heap s !! l = Some n -> load (Some l) s = Ret n s.
Proof. unfold load. intros ->. reflexivity. Qed.

Lemma get_next_eq s l n :
  heap s !! l = Some n -> get_next (Some l) s = Ret (n_next n) s.
Proof. intros H. unfold get_next. rewrite (bind_Ret _ _ _ _ _ (load_eq _ _ _ H)). reflexivity. Qed.

Lemma get_prev_eq s l n :
  heap s !! l = Some n -> get_prev (Some l) s = Ret (n_prev n) s.
Proof. intros H. unfold get_prev. rewrite (bind_Ret _ _ _ _ _ (load_eq _ _ _ H)). reflexivity. Qed.

Lemma store_eq s l n f :
  heap s !! l = Some n ->
  store (Some l) f s = Ret tt (set_heap (<[l := f n]> (heap s)) s).
Proof. intros H. unfold store. rewrite (bind_Ret _ _ _ _ _ (load_eq _ _ _ H)). reflexivity. Qed.

Lemma set_next_eq s l n v :
  heap s !! l = Some n ->
  set_next (Some l) v s =
  Ret tt (set_heap (<[l := mkNode (n_id n) (n_data n) v (n_prev n)]> (heap s)) s).
Proof. intros H. unfold set_next. rewrite (store_eq _ _ _ _ H). reflexivity. Qed.

Lemma set_prev_eq s l n v :
  heap s !! l = Some n ->
  set_prev (Some l) v s =
  Ret tt (set_heap (<[l := mkNode (n_id n) (n_data n) (n_next n) v]> (heap s)) s).
Proof. intros H. unfold set_prev. rewrite (store_eq _ _ _ _ H). reflexivity. Qed.

Lemma set_data_eq s l n d :
  heap s !! l = Some n ->
  set_data (Some l) d s =
  Ret tt (set_heap (<[l := mkNode (n_id n) d (n_next n) (n_prev n)]> (heap s)) s).
Proof. intros H. unfold set_data. rewrite (store_eq _ _ _ _ H). reflexivity. Qed.

Lemma ptr_eqb_eq p q : ptr_eqb p q = true <-> p = q.
Proof.
  destruct p as [a|], q as [b|]; simpl; try (split; congruence).
  rewrite Nat.eqb_eq. split; congruence.
Qed.

(** ** Doubly linked segments *)

Lemma first_ptr_app xs ys q :
  first_ptr (xs ++ ys) q = first_ptr xs (first_ptr ys q).
Proof. destruct xs; reflexivity. Qed.

Lemma last_ptr_app p xs ys :
  last_ptr p (xs ++ ys) = last_ptr (last_ptr p xs) ys.
Proof. revert p. induction xs as [|x xs IH]; intros p; simpl; auto. Qed.

Lemma dl_app h p xs ys q :
  dl h p (xs ++ ys) q <->
  dl h p xs (first_ptr ys q) /\ dl h (last_ptr p xs) ys q.
Proof.
  revert p. induction xs as [|x xs IH]; intros p; simpl.
  - tauto.
  - rewrite IH, first_ptr_app. tauto.
Qed.

Lemma dl_frame h l n p es q :
  l ∉ eloc <$> es -> dl (<[l := n]> h) p es q <-> dl h p es q.
Proof.
  revert p. induction es as [|e es IH]; intros p Hl; simpl; [tauto|].
  rewrite fmap_cons, not_elem_of_cons in Hl. destruct Hl as [Hne Hl].
  rewrite lookup_insert_ne by congruence. rewrite IH by assumption. tauto.
Qed.

(** ** The list operations on the heap *)

Ltac hlook :=
  cbn [heap set_heap];
  repeat (rewrite lookup_insert_ne by congruence);
  first [ apply lookup_insert_eq | eassumption ].

Ltac mstep :=
  lazymatch goal with
  | |- bind (gets _) _ _ = _ => unfold bind at 1, gets at 1; cbn [cache set_heap]
  | |- bind (get_next _) _ _ = _ =>
      erewrite bind_Ret; [| eapply get_next_eq; hlook]; cbn [n_next n_prev]
  | |- bind (get_prev _) _ _ = _ =>
      erewrite bind_Ret; [| eapply get_prev_eq; hlook]; cbn [n_next n_prev]
  | |- bind (set_next _ _) _ _ = _ =>
      erewrite bind_Ret; [| eapply set_next_eq; hlook];
      cbn [n_next n_prev n_id n_data]
  | |- bind (set_prev _ _) _ _ = _ =>
      erewrite bind_Ret; [| eapply set_prev_eq; hlook];
      cbn [n_next n_prev n_id n_data]
  | |- bind (set_data _ _) _ _ = _ =>
      erewrite bind_Ret; [| eapply set_data_eq; hlook];
      cbn [n_next n_prev n_id n_data]
  | |- bind (load _) _ _ = _ =>
      erewrite bind_Ret; [| eapply load_eq; hlook]
  | |- set_next _ _ _ = _ =>
      erewrite set_next_eq; [| hlook]; cbn [n_next n_prev n_id n_data]
  | |- set_prev _ _ _ = _ =>
      erewrite set_prev_eq; [| hlook]; cbn [n_next n_prev n_id n_data]
  end.

Ltac nodup_split :=
  repeat match goal with
         | H : NoDup (_ :: _) |- _ => apply NoDup_cons in H as [? H]
         | H : _ ∉ _ :: _ |- _ => apply not_elem_of_cons in H as [? H]
         | H : _ ∉ _ ++ _ |- _ => apply not_elem_of_app in H as [? ?]
         | H : NoDup (_ ++ _) |- _ => apply NoDup_app in H as (? & ? & ?)
         end.

Lemma insertAtFront_spec s H Y R N n :
  c_head (cache s) = Some (eloc H) ->
  dl (heap s) None (H :: Y :: R) None ->
  heap s !! N = Some n ->
  NoDup (N :: (eloc <$> H :: Y :: R)) ->
  exists h',
    insertAtFront (Some N) s = Ret tt (set_heap h' s) /\
    dl h' None (H :: mkE N (n_id n) (n_data n) :: Y :: R) None.
Proof.
  intros Hhead Hdl HN Hnd. simpl in Hdl. destruct Hdl as (HH & HY & HR).
  rewrite !fmap_cons in Hnd. nodup_split.
  eexists. split.
  - unfold insertAtFront. mstep. rewrite Hhead.
    mstep. mstep. mstep. mstep. mstep. mstep. norm_st. reflexivity.
  - simpl. repeat split.
    + hlook.
    + hlook.
    + hlook.
    + rewrite !dl_frame; assumption.
Qed.

Lemma insertAtFront_spec' s H R N n :
  R <> [] ->
  c_head (cache s) = Some (eloc H) ->
  dl (heap s) None (H :: R) None ->
  heap s !! N = Some n ->
  NoDup (N :: (eloc <$> H :: R)) ->
  exists h',
    insertAtFront (Some N) s = Ret tt (set_heap h' s) /\
    dl h' None (H :: mkE N (n_id n) (n_data n) :: R) None.
Proof.
  destruct R as [|Y R]; [congruence|]. intros _. apply insertAtFront_spec.
Qed.

Lemma entry_eta e : mkE (eloc e) (eid e) (edata e) = e.
Proof. destruct e; reflexivity. Qed.

Lemma first_ptr_snoc_elem F P q :
  exists l, first_ptr (F ++ [P]) q = Some l /\ l ∈ eloc <$> (F ++ [P]).
Proof.
  destruct F as [|f F]; simpl; eexists; split; try reflexivity.
  - apply list_elem_of_here.
  - apply list_elem_of_here.
Qed.

Lemma moveToFront_first s H N R :
  c_head (cache s) = Some (eloc H) ->
  dl (heap s) None (H :: N :: R) None ->
  moveToFront (Some (eloc N)) s = Ret tt s.
Proof.
  intros Hhead (HH & _). unfold moveToFront. mstep. rewrite Hhead.
  mstep. simpl. rewrite Nat.eqb_refl. reflexivity.
Qed.

Ltac notin :=
  rewrite ?fmap_cons, ?fmap_app, ?fmap_cons;
  rewrite ?not_elem_of_cons, ?not_elem_of_app, ?not_elem_of_cons;
  repeat split; solve [congruence | assumption | apply not_elem_of_nil].

Lemma moveToFront_mid s H F P N X G :
  c_head (cache s) = Some (eloc H) ->
  dl (heap s) None (H :: F ++ P :: N :: X :: G) None ->
  NoDup (eloc <$> (H :: F ++ P :: N :: X :: G)) ->
  exists h',
    moveToFront (Some (eloc N)) s = Ret tt (set_heap h' s) /\
    dl h' None (H :: N :: F ++ P :: X :: G) None.
Proof.
  intros Hhead Hdl Hnd.
  change (H :: F ++ P :: N :: X :: G) with ((H :: F) ++ P :: N :: X :: G) in Hdl.
  apply dl_app in Hdl as [HF HP].
  cbn [dl first_ptr] in HP. destruct HP as (HP & HN & HX & HG).
  pose proof HF as HF'. cbn [dl] in HF'. destruct HF' as [HH _].
  rewrite fmap_cons, fmap_app, !fmap_cons in Hnd. nodup_split.
  match goal with Hd : forall x, x ∈ eloc <$> F -> _ |- _ =>
    assert (HPF : eloc P ∉ eloc <$> F)
      by (intros Hin; apply (Hd _ Hin); rewrite !elem_of_cons; tauto);
    assert (HNF : eloc N ∉ eloc <$> F)
      by (intros Hin; apply (Hd _ Hin); rewrite !elem_of_cons; tauto);
    assert (HXF : eloc X ∉ eloc <$> F)
      by (intros Hin; apply (Hd _ Hin); rewrite !elem_of_cons; tauto);
    assert (HFG : forall x, x ∈ eloc <$> F -> x ∉ eloc P :: eloc X :: (eloc <$> G))
      by (intros x Hin Hx; apply (Hd _ Hin); rewrite !elem_of_cons in *; tauto)
  end.
  set (h2 := <[eloc X := mkNode (eid X) (edata X) (first_ptr G None) (Some (eloc P))]>
             (<[eloc P := mkNode (eid P) (edata P) (Some (eloc X))
                            (last_ptr None (H :: F))]> (heap s))).
  assert (Hdl2 : dl h2 None (H :: F ++ P :: X :: G) None).
  { change (H :: F ++ P :: X :: G) with ((H :: F) ++ P :: X :: G).
    apply dl_app. subst h2. split.
    - cbn [first_ptr]. rewrite !dl_frame; try assumption; notin.
    - cbn [dl first_ptr]. repeat split.
      + rewrite lookup_insert_ne by congruence. apply lookup_insert_eq.
      + apply lookup_insert_eq.
      + rewrite !dl_frame; assumption. }
  assert (HN2 : h2 !! eloc N = Some (mkNode (eid N) (edata N) (Some (eloc X)) (Some (eloc P)))).
  { subst h2. rewrite !lookup_insert_ne by congruence. assumption. }
  destruct (insertAtFront_spec' (set_heap h2 s) H (F ++ P :: X :: G) (eloc N)
              (mkNode (eid N) (edata N) (Some (eloc X)) (Some (eloc P))))
    as (h' & Hins & Hdl'); try eassumption.
  { destruct F; discriminate. }
  { rewrite fmap_cons, fmap_app, !fmap_cons.
    apply NoDup_cons. split; [notin|].
    apply NoDup_cons. split; [notin|].
    apply NoDup_app. repeat split; try assumption.
    apply NoDup_cons. split; [notin|].
    apply NoDup_cons. split; [notin|assumption]. }
  exists h'. split.
  - unfold moveToFront. mstep. rewrite Hhead. mstep.
    destruct (first_ptr_snoc_elem F P (Some (eloc P))) as (l & Hl & Hlin).
    assert (Hfp : first_ptr F (Some (eloc P)) = Some l).
    { destruct F; simpl in *; congruence. }
    cbn [first_ptr]. rewrite Hfp.
    assert (Hne : ptr_eqb (Some (eloc N)) (Some l) = false).
    { simpl. apply Nat.eqb_neq. intros <-.
      rewrite fmap_app, elem_of_app, fmap_cons, list_elem_of_singleton in Hlin.
      destruct Hlin as [Hlin|Hlin]; [contradiction|congruence]. }
    rewrite Hne.
    mstep. mstep. mstep. mstep. mstep. mstep.
    norm_st. fold h2. rewrite Hins. reflexivity.
  - cbn [n_id n_data] in Hdl'. rewrite entry_eta in Hdl'. exact Hdl'.
Qed.

Lemma removeFromBack_spec s F P L T :
  c_tail (cache s) = Some (eloc T) ->
  dl (heap s) None (F ++ [P; L; T]) None ->
  NoDup (eloc <$> (F ++ [P; L; T])) ->
  exists h',
    removeFromBack s = Ret (Some (eloc L)) (set_heap h' s) /\
    dl h' None (F ++ [P; T]) None /\
    h' !! eloc L = Some (mkNode (eid L) (edata L) None None).
Proof.
  intros Htail Hdl Hnd.
  apply dl_app in Hdl as [HF HP].
  cbn [dl first_ptr] in HP. destruct HP as (HP & HL & HT & _).
  rewrite fmap_app, !fmap_cons in Hnd. nodup_split.
  match goal with Hd : forall x, x ∈ eloc <$> F -> _ |- _ =>
    assert (HPF : eloc P ∉ eloc <$> F)
      by (intros Hin; apply (Hd _ Hin); rewrite !elem_of_cons; tauto);
    assert (HLF : eloc L ∉ eloc <$> F)
      by (intros Hin; apply (Hd _ Hin); rewrite !elem_of_cons; tauto);
    assert (HTF : eloc T ∉ eloc <$> F)
      by (intros Hin; apply (Hd _ Hin); rewrite !elem_of_cons; tauto)
  end.
  eexists. split; [|split].
  - unfold removeFromBack. mstep. rewrite Htail.
    mstep. mstep. mstep. mstep. mstep. mstep. mstep.
    norm_st. reflexivity.
  - apply dl_app. split.
    + cbn [first_ptr]. rewrite !dl_frame; try assumption.
    + cbn [dl first_ptr]. repeat split; hlook.
  - hlook.
Qed.

Lemma set_data_spec s F N G d p q :
  dl (heap s) p (F ++ N :: G) q ->
  NoDup (eloc <$> (F ++ N :: G)) ->
  exists h',
    set_data (Some (eloc N)) d s = Ret tt (set_heap h' s) /\
    dl h' p (F ++ mkE (eloc N) (eid N) d :: G) q.
Proof.
  intros Hdl Hnd. apply dl_app in Hdl as [HF HN].
  cbn [dl first_ptr] in HN. destruct HN as (HN & HG).
  rewrite fmap_app, !fmap_cons in Hnd. nodup_split.
  match goal with Hd : forall x, x ∈ eloc <$> F -> _ |- _ =>
    assert (HNF : eloc N ∉ eloc <$> F)
      by (intros Hin; apply (Hd _ Hin); rewrite !elem_of_cons; tauto)
  end.
  eexists. split.
  - erewrite set_data_eq by eassumption. reflexivity.
  - cbn [n_id n_next n_prev]. apply dl_app. split.
    + cbn [first_ptr eloc]. rewrite dl_frame; assumption.
    + cbn [dl first_ptr eloc eid edata]. split; [hlook|].
      rewrite dl_frame; assumption.
Qed.

(** ** The lookup map against the entry list *)

Lemma kv_fst es : (kv <$> es).*1 = eid <$> es.
Proof. induction es as [|e es IH]; [reflexivity|]. cbn. f_equal. exact IH. Qed.

Lemma rep_lookup_in es e :
  NoDup (eid <$> es) -> e ∈ es ->
  (list_to_map (kv <$> es) : gmap Z loc) !! eid e = Some (eloc e).
Proof.
  intros Hnd Hin. apply elem_of_list_to_map_1.
  - rewrite kv_fst. exact Hnd.
  - apply (list_elem_of_fmap_2 kv) in Hin. exact Hin.
Qed.

Lemma rep_lookup_notin es id :
  id ∉ eid <$> es -> (list_to_map (kv <$> es) : gmap Z loc) !! id = None.
Proof. intros Hin. apply not_elem_of_list_to_map_1. rewrite kv_fst. exact Hin. Qed.

Lemma rep_size_list es :
  NoDup (eid <$> es) ->
  size (list_to_map (kv <$> es) : gmap Z loc) = length es.
Proof.
  intros Hnd. rewrite map_size_list_to_map by (rewrite kv_fst; exact Hnd).
  apply length_fmap.
Qed.

Lemma rep_delete_last A L :
  NoDup (eid <$> (A ++ [L])) ->
  delete (eid L) (list_to_map (kv <$> (A ++ [L])) : gmap Z loc)
  = list_to_map (kv <$> A).
Proof.
  intros Hnd. rewrite fmap_app in Hnd. apply NoDup_app in Hnd as (_ & Hd & _).
  assert (HL : eid L ∉ eid <$> A).
  { intros Hin. apply (Hd _ Hin). apply list_elem_of_here. }
  rewrite fmap_app. cbn [fmap list_fmap]. unfold kv at 2.
  rewrite list_to_map_snoc by (rewrite kv_fst; exact HL).
  apply delete_insert_id. apply rep_lookup_notin. exact HL.
Qed.

Lemma rep_size s es : cache_rep s es -> size (c_lookup (cache s)) = length es.
Proof.
  intros (H & T & _ & _ & _ & _ & _ & Hlk & Hnd). rewrite Hlk.
  apply rep_size_list. exact Hnd.
Qed.

Lemma rep_lookup_Some s es e :
  cache_rep s es -> e ∈ es -> c_lookup (cache s) !! eid e = Some (eloc e).
Proof.
  intros (H & T & _ & _ & _ & _ & _ & Hlk & Hnd) Hin. rewrite Hlk.
  apply rep_lookup_in; assumption.
Qed.

Lemma rep_lookup_None s es id :
  cache_rep s es -> id ∉ eid <$> es -> c_lookup (cache s) !! id = None.
Proof.
  intros (H & T & _ & _ & _ & _ & _ & Hlk & Hnd) Hin. rewrite Hlk.
  apply rep_lookup_notin; assumption.
Qed.

(** The cached ids are exactly those of the entry list. *)
Lemma rep_lookup_iff s es id :
  cache_rep s es -> is_Some (c_lookup (cache s) !! id) <-> id ∈ eid <$> es.
Proof.
  intros Hrep. split.
  - intros [l Hl]. destruct (decide (id ∈ eid <$> es)) as [|Hn]; [assumption|].
    rewrite (rep_lookup_None _ _ _ Hrep Hn) in Hl. discriminate.
  - intros Hin. apply list_elem_of_fmap in Hin as (e & -> & Hin).
    rewrite (rep_lookup_Some _ _ _ Hrep Hin). eauto.
Qed.

Lemma move_perm {A} (e : A) (xs ys : list A) : e :: xs ++ ys ≡ₚ xs ++ e :: ys.
Proof. apply Permutation_middle. Qed.

(** The parts of [cache_rep] other than the links only depend on the set of
    entries. *)
Lemma rep_meta_perm (na : loc) H T es es' :
  es ≡ₚ es' ->
  NoDup (eloc <$> (H :: es ++ [T])) ->
  Forall (fun l => (l < na)%nat) (eloc <$> (H :: es ++ [T])) ->
  NoDup (eid <$> es) ->
  NoDup (eloc <$> (H :: es' ++ [T])) /\
  Forall (fun l => (l < na)%nat) (eloc <$> (H :: es' ++ [T])) /\
  (list_to_map (kv <$> es) : gmap Z loc) = list_to_map (kv <$> es') /\
  NoDup (eid <$> es').
Proof.
  intros Hp Hnd Hfa Hid. repeat split.
  - rewrite <- Hp. exact Hnd.
  - rewrite <- Hp. exact Hfa.
  - apply list_to_map_proper; [rewrite kv_fst; exact Hid|]. rewrite Hp. reflexivity.
  - rewrite <- Hp. exact Hid.
Qed.

(** ** The cache operations against the entry list *)

Lemma full_mid_eq {A} (H : A) F P N B T :
  H :: ((F ++ [P]) ++ N :: B) ++ [T] = H :: F ++ P :: N :: (B ++ [T]).
Proof. rewrite <- !app_assoc. reflexivity. Qed.

Lemma full_front_eq {A} (H : A) N F B T :
  H :: N :: F ++ (B ++ [T]) = H :: (N :: F ++ B) ++ [T].
Proof. cbn [app]. rewrite <- app_assoc. reflexivity. Qed.

Lemma moveToFront_rep s A e B :
  cache_rep s (A ++ e :: B) ->
  exists h',
    moveToFront (Some (eloc e)) s = Ret tt (set_heap h' s) /\
    cache_rep (set_heap h' s) (e :: A ++ B).
Proof.
  intros (H & T & Hh & Ht & Hdl & Hnd & Hfa & Hlk & Hid).
  destruct (rep_meta_perm (nalloc s) H T (A ++ e :: B) (e :: A ++ B))
    as (Hnd' & Hfa' & Hlk' & Hid'); try assumption.
  { symmetry. apply move_perm. }
  assert (Hgoal : forall h', dl h' None (H :: (e :: A ++ B) ++ [T]) None ->
                             cache_rep (set_heap h' s) (e :: A ++ B)).
  { intros h' Hdl'. exists H, T. cbn [set_heap cache heap nalloc].
    rewrite <- Hlk'. exact (conj Hh (conj Ht (conj Hdl' (conj Hnd' (conj Hfa' (conj Hlk Hid')))))). }
  destruct A as [|P F _] using rev_ind.
  - exists (heap s). rewrite set_heap_id. split.
    + eapply moveToFront_first; [exact Hh|exact Hdl].
    + rewrite <- (set_heap_id s) at 1. apply Hgoal. exact Hdl.
  - rewrite full_mid_eq in Hdl, Hnd.
    assert (HX : exists X G, B ++ [T] = X :: G).
    { destruct B as [|X B]; simpl; eauto. }
    destruct HX as (X & G & HX). rewrite HX in Hdl, Hnd.
    destruct (moveToFront_mid s H F P e X G Hh Hdl Hnd) as (h' & Hmv & Hdl').
    exists h'. split; [exact Hmv|]. apply Hgoal.
    rewrite <- HX in Hdl'. rewrite <- full_front_eq.
    replace ((F ++ [P]) ++ B ++ [T]) with (F ++ P :: B ++ [T])
      by (rewrite <- app_assoc; reflexivity).
    exact Hdl'.
Qed.

Lemma rep_head_node s e es :
  cache_rep s (e :: es) ->
  exists nx pv, heap s !! eloc e = Some (mkNode (eid e) (edata e) nx pv).
Proof.
  intros (H & T & _ & _ & Hdl & _). cbn [dl app] in Hdl.
  destruct Hdl as (_ & He & _). eauto.
Qed.

Lemma Cache_Get_miss s es id :
  cache_rep s es -> id ∉ eid <$> es ->
  Cache_Get id s = Ret (None, Some ErrCacheMiss) s.
Proof.
  intros Hrep Hid. unfold Cache_Get, bind, gets.
  rewrite (rep_lookup_None _ _ _ Hrep Hid). reflexivity.
Qed.

Lemma Cache_Get_hit s A e B :
  cache_rep s (A ++ e :: B) ->
  exists h',
    Cache_Get (eid e) s = Ret (edata e, None) (set_heap h' s) /\
    cache_rep (set_heap h' s) (e :: A ++ B).
Proof.
  intros Hrep.
  destruct (moveToFront_rep _ _ _ _ Hrep) as (h' & Hmv & Hrep').
  exists h'. split; [|exact Hrep'].
  unfold Cache_Get. unfold bind at 1, gets at 1.
  rewrite (rep_lookup_Some _ _ e Hrep) by (rewrite elem_of_app, elem_of_cons; tauto).
  rewrite (bind_Ret _ _ _ _ _ Hmv).
  destruct (rep_head_node _ _ _ Hrep') as (nx & pv & Hn).
  rewrite (bind_Ret _ _ _ _ _ (load_eq _ _ _ Hn)). reflexivity.
Qed.

Ltac stn :=
  cbn [set_heap set_nalloc set_cache set_pager set_fsize set_trace set_nregion
       heap nalloc cache pager fsize trace nregion
       c_lookup c_head c_tail c_config].

Lemma evolved_set_heap h s : evolved s (set_heap h s) (trace s).
Proof. repeat split. Qed.

Lemma exists_snoc {A} (x : A) xs : exists F P, x :: xs = F ++ [P].
Proof.
  destruct xs as [|P F _] using rev_ind.
  - exists [], x. reflexivity.
  - exists (x :: F), P. reflexivity.
Qed.

Lemma Cache_Set_hit E s A e B d :
  cache_rep s (A ++ e :: B) ->
  exists h',
    Cache_Set E (eid e) d s = Ret None (set_heap h' s) /\
    cache_rep (set_heap h' s) (mkE (eloc e) (eid e) d :: A ++ B).
Proof.
  intros Hrep. pose proof Hrep as (H & T & Hh & Ht & Hdl & Hnd & Hfa & Hlk & Hid).
  assert (Hfull : H :: (A ++ e :: B) ++ [T] = (H :: A) ++ e :: (B ++ [T])).
  { cbn [app]. rewrite <- app_assoc. reflexivity. }
  rewrite Hfull in Hdl, Hnd.
  destruct (set_data_spec s (H :: A) e (B ++ [T]) d None None Hdl Hnd)
    as (h1 & Hsd & Hdl1).
  set (e' := mkE (eloc e) (eid e) d) in *.
  assert (Hrep1 : cache_rep (set_heap h1 s) (A ++ e' :: B)).
  { exists H, T. stn.
    assert (Hfull' : H :: (A ++ e' :: B) ++ [T] = (H :: A) ++ e' :: (B ++ [T])).
    { cbn [app]. rewrite <- app_assoc. reflexivity. }
    rewrite Hfull'.
    rewrite Hfull in Hfa.
    rewrite !fmap_app, !fmap_cons in *.
    exact (conj Hh (conj Ht (conj Hdl1 (conj Hnd (conj Hfa (conj Hlk Hid)))))). }
  destruct (moveToFront_rep _ _ _ _ Hrep1) as (h' & Hmv & Hrep').
  exists h'. split; [|exact Hrep'].
  unfold Cache_Set. unfold bind at 1, gets at 1.
  rewrite (rep_lookup_Some _ _ e Hrep) by (rewrite elem_of_app, elem_of_cons; tauto).
  rewrite (bind_Ret _ _ _ _ _ Hsd).
  change (eloc e) with (eloc e').
  rewrite (bind_Ret _ _ _ _ _ Hmv). reflexivity.
Qed.

Lemma link_new_spec s es id d err :
  cache_rep s es -> id ∉ eid <$> es ->
  exists s',
    link_new id d err s = Ret err s' /\
    cache_rep s' (mkE (nalloc s) id d :: es) /\
    evolved s s' (trace s).
Proof.
  intros (H & T & Hh & Ht & Hdl & Hnd & Hfa & Hlk & Hid) Hnew.
  set (na := nalloc s).
  set (s1 := set_nalloc (S na) (set_heap (<[na := mkNode id d None None]> (heap s)) s)).
  assert (Hna : na ∉ eloc <$> (H :: es ++ [T])).
  { intros Hin. rewrite Forall_forall in Hfa. apply Hfa in Hin. subst na. lia. }
  destruct (insertAtFront_spec' s1 H (es ++ [T]) na (mkNode id d None None))
    as (h' & Hins & Hdl').
  - destruct es; discriminate.
  - exact Hh.
  - subst s1. stn. rewrite dl_frame; assumption.
  - subst s1. stn. apply lookup_insert_eq.
  - apply NoDup_cons. split; assumption.
  - eexists. split; [|split].
    + unfold link_new. unfold bind at 1, alloc at 1. fold na. fold s1.
      rewrite (bind_Ret _ _ _ _ _ Hins). reflexivity.
    + exists H, T. subst s1. stn. cbn [n_id n_data] in Hdl'.
      refine (conj Hh (conj Ht (conj Hdl' _))). fold na.
      repeat split.
      * rewrite fmap_cons. cbn [app]. rewrite fmap_cons. cbn [eloc].
        rewrite fmap_cons in Hnd, Hna.
        apply NoDup_cons in Hnd as [HH Hnd]. apply not_elem_of_cons in Hna as [HnaH Hna].
        apply NoDup_cons. split.
        -- rewrite not_elem_of_cons. split; [congruence|assumption].
        -- apply NoDup_cons. split; assumption.
      * rewrite fmap_cons. cbn [app]. rewrite fmap_cons. cbn [eloc].
        rewrite fmap_cons in Hfa. apply Forall_cons in Hfa as [HH Hfa].
        apply Forall_cons. split; [lia|]. apply Forall_cons. split; [lia|].
        eapply Forall_impl; [exact Hfa|]. intros; simpl in *; lia.
      * rewrite Hlk. reflexivity.
      * rewrite fmap_cons. apply NoDup_cons. split; assumption.
    + repeat split.
Qed.

Lemma Unmap_data_eq E s l n :
  heap s !! l = Some n ->
  Unmap_data E (Some l) s =
  Ret (env_unmap E (trace s) (n_data n))
      (set_heap (<[l := mkNode (n_id n) None (n_next n) (n_prev n)]> (heap s))
         (set_trace (EvUnmap (n_data n) :: trace s) s)).
Proof.
  intros Hl. unfold Unmap_data.
  rewrite (bind_Ret _ _ _ _ _ (load_eq _ _ _ Hl)).
  unfold bind at 1, munmap at 1.
  erewrite bind_Ret; [reflexivity|].
  apply (set_data_eq (set_trace (EvUnmap (n_data n) :: trace s) s)). exact Hl.
Qed.

Lemma evict_back_spec E s A L :
  cache_rep s (A ++ [L]) ->
  exists s1,
    evict_back E s = Ret (env_unmap E (trace s) (edata L)) s1 /\
    cache_rep s1 A /\ nalloc s1 = nalloc s /\
    evolved s s1 (EvUnmap (edata L) :: trace s).
Proof.
  intros (H & T & Hh & Ht & Hdl & Hnd & Hfa & Hlk & Hid).
  destruct (exists_snoc H A) as (F & P & HFP).
  assert (Hfull : H :: (A ++ [L]) ++ [T] = F ++ [P; L; T]).
  { change (H :: (A ++ [L]) ++ [T]) with ((H :: A ++ [L]) ++ [T]).
    change (H :: A ++ [L]) with ((H :: A) ++ [L]).
    rewrite HFP, <- !app_assoc. reflexivity. }
  assert (Hrest : H :: A ++ [T] = F ++ [P; T]).
  { change (H :: A ++ [T]) with ((H :: A) ++ [T]).
    rewrite HFP, <- !app_assoc. reflexivity. }
  rewrite Hfull in Hdl, Hnd, Hfa.
  destruct (removeFromBack_spec s F P L T Ht Hdl Hnd) as (h1 & Hrm & Hdl1 & HL1).
  assert (HLn : eloc L ∉ eloc <$> (F ++ [P; T])).
  { rewrite fmap_app, !fmap_cons, fmap_nil in Hnd.
    rewrite fmap_app, !fmap_cons, fmap_nil. nodup_split.
    match goal with Hd : forall x, x ∈ eloc <$> F -> _ |- _ =>
      assert (HLF : eloc L ∉ eloc <$> F)
        by (intros Hin; apply (Hd _ Hin); rewrite !elem_of_cons; tauto) end.
    notin. }
  eexists. split; [|split; [|split]].
  - unfold evict_back. rewrite (bind_Ret _ _ _ _ _ Hrm).
    rewrite (bind_Ret _ _ _ _ _ (Unmap_data_eq E (set_heap h1 s) _ _ HL1)).
    cbn [n_id n_data n_next n_prev]. stn.
    erewrite bind_Ret; [| apply load_eq; stn; apply lookup_insert_eq].
    cbn [n_id]. reflexivity.
  - exists H, T. stn. rewrite Hrest. repeat split.
    + exact Hh.
    + exact Ht.
    + rewrite dl_frame; assumption.
    + rewrite fmap_app, !fmap_cons, fmap_nil in Hnd.
      rewrite fmap_app, !fmap_cons, fmap_nil.
      apply NoDup_app in Hnd as (HF & Hd & Hr). apply NoDup_app. repeat split.
      * exact HF.
      * intros x Hx Hin. apply (Hd _ Hx). rewrite !elem_of_cons, elem_of_nil in Hin. rewrite !elem_of_cons. tauto.
      * nodup_split. apply NoDup_cons. split; [notin|]. apply NoDup_cons. split; [notin|].
        apply NoDup_nil_2.
    + rewrite fmap_app, !fmap_cons, fmap_nil in Hfa.
      rewrite fmap_app, !fmap_cons, fmap_nil.
      apply Forall_app in Hfa as [HF Hr]. apply Forall_app. split; [exact HF|].
      apply Forall_cons in Hr as [HP Hr]. apply Forall_cons in Hr as [HL Hr].
      apply Forall_cons. split; assumption.
    + rewrite Hlk. apply rep_delete_last. exact Hid.
    + rewrite fmap_app in Hid. apply NoDup_app in Hid as (Hid & _). exact Hid.
  - reflexivity.
  - repeat split.
Qed.

Lemma Cache_Set_miss_eq E id d s :
  c_lookup (cache s) !! id = None ->
  Cache_Set E id d s =
  (err <- (if MaxCapacity (c_config (cache s)) <=? cache_len s
           then evict_back E else ret None) ;;
   link_new id d err) s.
Proof.
  intros Hl. unfold Cache_Set. unfold bind at 1, gets at 1. rewrite Hl.
  reflexivity.
Qed.

Lemma evolved_trans s s1 s2 t :
  evolved s s1 t -> evolved s1 s2 (trace s1) -> evolved s s2 t.
Proof.
  intros (Hp & Hf & Hr & Hc & Ht) (Hp' & Hf' & Hr' & Hc' & Ht').
  repeat split; congruence.
Qed.

Lemma Cache_Set_miss_room E s es id d :
  cache_rep s es -> id ∉ eid <$> es ->
  Z.of_nat (length es) < MaxCapacity (c_config (cache s)) ->
  exists s',
    Cache_Set E id d s = Ret None s' /\
    cache_rep s' (mkE (nalloc s) id d :: es) /\
    evolved s s' (trace s).
Proof.
  intros Hrep Hid Hcap.
  rewrite (Cache_Set_miss_eq _ _ _ _ (rep_lookup_None _ _ _ Hrep Hid)).
  unfold cache_len. rewrite (rep_size _ _ Hrep).
  destruct (Z.leb_spec (MaxCapacity (c_config (cache s))) (Z.of_nat (length es)));
    [lia|].
  unfold bind at 1, ret at 1. apply link_new_spec; assumption.
Qed.

Lemma Cache_Set_miss_full E s A L id d :
  cache_rep s (A ++ [L]) -> id ∉ eid <$> (A ++ [L]) ->
  MaxCapacity (c_config (cache s)) <= Z.of_nat (length (A ++ [L])) ->
  exists s',
    Cache_Set E id d s = Ret (env_unmap E (trace s) (edata L)) s' /\
    cache_rep s' (mkE (nalloc s) id d :: A) /\
    evolved s s' (EvUnmap (edata L) :: trace s).
Proof.
  intros Hrep Hid Hcap.
  rewrite (Cache_Set_miss_eq _ _ _ _ (rep_lookup_None _ _ _ Hrep Hid)).
  unfold cache_len. rewrite (rep_size _ _ Hrep).
  destruct (Z.leb_spec (MaxCapacity (c_config (cache s)))
              (Z.of_nat (length (A ++ [L])))); [|lia].
  destruct (evict_back_spec E s A L Hrep) as (s1 & Hev & Hrep1 & Hna & Hevo).
  rewrite (bind_Ret _ _ _ _ _ Hev).
  assert (Hid1 : id ∉ eid <$> A).
  { rewrite fmap_app, not_elem_of_app in Hid. tauto. }
  destruct (link_new_spec s1 A id d (env_unmap E (trace s) (edata L)) Hrep1 Hid1)
    as (s' & Hln & Hrep' & Hevo').
  exists s'. rewrite Hna in Hrep'. split; [exact Hln|]. split; [exact Hrep'|].
  eapply evolved_trans; [exact Hevo|].
  destruct Hevo as (_ & _ & _ & _ & Ht). exact Hevo'.
Qed.

(** With nothing to evict the eviction branch dereferences [head.prev],
    which is nil. *)
Lemma Cache_Set_empty_panic E s id d :
  cache_rep s [] -> MaxCapacity (c_config (cache s)) <= 0 ->
  Cache_Set E id d s = Panic.
Proof.
  intros Hrep Hcap.
  assert (Hnil : id ∉ eid <$> ([] : list entry)) by apply not_elem_of_nil.
  rewrite (Cache_Set_miss_eq _ _ _ _ (rep_lookup_None _ _ _ Hrep Hnil)).
  unfold cache_len. rewrite (rep_size _ _ Hrep). cbn [length].
  destruct (Z.leb_spec (MaxCapacity (c_config (cache s))) (Z.of_nat 0))
    as [Hle|Hlt]; [|lia].
  destruct Hrep as (H & T & Hh & Ht & Hdl & Hnd & _).
  cbn [app dl first_ptr] in Hdl. destruct Hdl as (HH & HT & _).
  unfold bind at 1, evict_back, bind at 1, removeFromBack.
  unfold bind at 1, gets at 1. rewrite Ht.
  rewrite (bind_Ret _ _ _ _ _ (get_prev_eq _ _ _ HT)). cbn [n_prev].
  rewrite (bind_Ret _ _ _ _ _ (get_prev_eq _ _ _ HH)). cbn [n_prev].
  reflexivity.
Qed.

Lemma NewCache_spec config s :
  exists s',
    NewCache config s = Ret tt s' /\
    cache_rep s' [] /\
    c_config (cache s') =
      (if MaxCapacity config =? 0 then mkConfig 10 else config) /\
    pager s' = pager s /\ fsize s' = fsize s /\ nregion s' = nregion s /\
    trace s' = trace s.
Proof.
  eexists. split; [|split].
  - unfold NewCache. unfold bind at 1, alloc at 1. unfold bind at 1, alloc at 1. stn.
    erewrite bind_Ret; [| apply set_next_eq; stn;
      rewrite lookup_insert_ne by lia; apply lookup_insert_eq].
    erewrite bind_Ret; [| apply set_prev_eq; stn;
      rewrite lookup_insert_ne by lia; apply lookup_insert_eq].
    reflexivity.
  - exists (mkE (nalloc s) 0 None), (mkE (S (nalloc s)) 0 None).
    stn. cbn [eloc eid edata app dl first_ptr n_id n_data n_next n_prev zero_node].
    repeat split.
    + rewrite lookup_insert_ne by lia. apply lookup_insert_eq.
    + apply lookup_insert_eq.
    + rewrite !fmap_cons, fmap_nil. cbn [eloc].
      apply NoDup_cons. split.
      * rewrite not_elem_of_cons. split; [lia|apply not_elem_of_nil].
      * apply NoDup_singleton.
    + rewrite !fmap_cons, fmap_nil. cbn [eloc].
      repeat (apply Forall_cons; split; [lia|]). apply Forall_nil_2.
    + apply NoDup_nil_2.
  - repeat split.
Qed.

(** ** The recency list read off the heap *)

Lemma NoDup_bounded_length (l : list nat) (n : nat) :
  NoDup l -> Forall (fun x => (x < n)%nat) l -> (length l <= n)%nat.
Proof.
  intros Hnd Hfa.
  assert (Hsub : l ⊆+ seq 0 n).
  { apply NoDup_submseteq; [exact Hnd|]. intros x Hx.
    rewrite Forall_forall in Hfa. apply Hfa in Hx.
    apply elem_of_seq. lia. }
  apply submseteq_length in Hsub. rewrite length_seq in Hsub. exact Hsub.
Qed.

Lemma walk_dl es : forall fuel h p tl,
  dl h p es (Some tl) -> tl ∉ eloc <$> es -> (length es < fuel)%nat ->
  walk fuel h (first_ptr es (Some tl)) (Some tl) = item <$> es.
Proof.
  induction es as [|e es IH]; intros fuel h p tl Hdl Htl Hfuel.
  - destruct fuel as [|fuel]; [simpl in Hfuel; lia|].
    cbn [walk first_ptr ptr_eqb]. rewrite Nat.eqb_refl. reflexivity.
  - destruct fuel as [|fuel]; [simpl in Hfuel; lia|].
    rewrite fmap_cons, not_elem_of_cons in Htl. destruct Htl as [Hne Htl].
    cbn [dl] in Hdl. destruct Hdl as [He Hdl].
    cbn [walk first_ptr ptr_eqb].
    destruct (Nat.eqb_spec (eloc e) tl) as [Heq|_]; [congruence|].
    rewrite He. cbn [n_id n_data n_next]. rewrite fmap_cons. f_equal.
    apply (IH fuel h (Some (eloc e)) tl Hdl Htl). simpl in Hfuel. lia.
Qed.

Lemma recency_rep s es : cache_rep s es -> recency s = item <$> es.
Proof.
  intros (H & T & Hh & Ht & Hdl & Hnd & Hfa & _).
  pose proof (NoDup_bounded_length _ _ Hnd Hfa) as Hlen.
  rewrite length_fmap in Hlen. cbn [length] in Hlen. rewrite length_app in Hlen.
  cbn [length] in Hlen.
  cbn [dl] in Hdl. destruct Hdl as [HH Hdl].
  apply dl_app in Hdl as [Hes _]. cbn [first_ptr] in Hes.
  rewrite first_ptr_app in HH. cbn [first_ptr] in HH.
  unfold recency. rewrite Hh, HH, Ht. cbn [n_next].
  eapply walk_dl; [exact Hes| |lia].
  rewrite fmap_cons, fmap_app, fmap_cons, fmap_nil in Hnd.
  apply NoDup_cons in Hnd as [_ Hnd]. apply NoDup_app in Hnd as (_ & Hd & _).
  intros Hin. apply (Hd _ Hin). apply list_elem_of_here.
Qed.

(** ** Well-formed cache states are closed under [Get] and [Set] *)

Lemma elem_of_ids_split es id :
  id ∈ eid <$> es -> exists A e B, es = A ++ e :: B /\ eid e = id.
Proof.
  intros Hin. apply list_elem_of_fmap in Hin as (e & -> & Hin).
  apply list_elem_of_split in Hin as (A & B & ->). eauto.
Qed.

Lemma Cache_Get_ok s id :
  cache_ok s ->
  exists r s',
    Cache_Get id s = Ret r s' /\ cache_ok s' /\
    evolved s s' (trace s) /\
    c_lookup (cache s') = c_lookup (cache s).
Proof.
  intros (es & Hrep & Hcap & Hlen).
  destruct (decide (id ∈ eid <$> es)) as [Hin|Hnin].
  - destruct (elem_of_ids_split _ _ Hin) as (A & e & B & -> & <-).
    destruct (Cache_Get_hit s A e B Hrep) as (h' & Hget & Hrep').
    exists (edata e, None), (set_heap h' s). split; [exact Hget|].
    split; [|split; [apply evolved_set_heap|reflexivity]].
    exists (e :: A ++ B). split; [exact Hrep'|]. stn. split; [exact Hcap|].
    rewrite length_app in Hlen. cbn [length] in Hlen |- *.
    rewrite length_app. lia.
  - exists (None, Some ErrCacheMiss), s.
    split; [eapply Cache_Get_miss; eassumption|].
    split; [exists es; auto|]. split; [repeat split|reflexivity].
Qed.

Lemma Cache_Set_ok E s id d :
  cache_ok s ->
  exists r s', Cache_Set E id d s = Ret r s' /\ cache_ok s' /\
    c_config (cache s') = c_config (cache s).
Proof.
  intros (es & Hrep & Hcap & Hlen).
  destruct (decide (id ∈ eid <$> es)) as [Hin|Hnin].
  - destruct (elem_of_ids_split _ _ Hin) as (A & e & B & -> & <-).
    destruct (Cache_Set_hit E s A e B d Hrep) as (h' & Hset & Hrep').
    exists None, (set_heap h' s). split; [exact Hset|]. split; [|reflexivity].
    eexists. split; [exact Hrep'|]. stn. split; [exact Hcap|].
    rewrite length_app in Hlen. cbn [length] in Hlen |- *.
    rewrite length_app. lia.
  - destruct (Z.lt_ge_cases (Z.of_nat (length es)) (MaxCapacity (c_config (cache s))))
      as [Hroom|Hfull].
    + destruct (Cache_Set_miss_room E s es id d Hrep Hnin Hroom)
        as (s' & Hset & Hrep' & Hevo).
      exists None, s'. split; [exact Hset|].
      destruct Hevo as (_ & _ & _ & Hc & _). split; [|exact Hc].
      eexists. split; [exact Hrep'|]. rewrite Hc. split; [exact Hcap|].
      cbn [length]. lia.
    + destruct es as [|L A _] using rev_ind; [simpl in Hfull; lia|].
      destruct (Cache_Set_miss_full E s A L id d Hrep Hnin Hfull)
        as (s' & Hset & Hrep' & Hevo).
      eexists _, s'. split; [exact Hset|].
      destruct Hevo as (_ & _ & _ & Hc & _). split; [|exact Hc].
      eexists. split; [exact Hrep'|]. rewrite Hc. split; [exact Hcap|].
      rewrite length_app in Hlen. cbn [length] in Hlen |- *. lia.
Qed.

Lemma run_ops_get E id ops s r s1 :
  Cache_Get id s = Ret r s1 ->
  run_ops E (OpGet id :: ops) s = run_ops E ops s1.
Proof. intros H. cbn [run_ops run_op]. unfold bind. rewrite H. reflexivity. Qed.

Lemma run_ops_set E id d ops s r s1 :
  Cache_Set E id d s = Ret r s1 ->
  run_ops E (OpSet id d :: ops) s = run_ops E ops s1.
Proof. intros H. cbn [run_ops run_op]. unfold bind. rewrite H. reflexivity. Qed.

Lemma run_ops_ok E ops : forall s,
  cache_ok s ->
  exists s', run_ops E ops s = Ret tt s' /\ cache_ok s' /\
    c_config (cache s') = c_config (cache s).
Proof.
  induction ops as [|op ops IH]; intros s Hok.
  - exists s. repeat split; auto.
  - destruct op as [id|id d].
    + destruct (Cache_Get_ok s id Hok) as (r & s1 & Hget & Hok1 & Hevo & _).
      destruct (IH s1 Hok1) as (s' & Hrun & Hok' & Hc).
      exists s'. rewrite (run_ops_get _ _ _ _ _ _ Hget).
      split; [exact Hrun|]. split; [exact Hok'|].
      destruct Hevo as (_ & _ & _ & Hc1 & _). congruence.
    + destruct (Cache_Set_ok E s id d Hok) as (r & s1 & Hset & Hok1 & Hc1).
      destruct (IH s1 Hok1) as (s' & Hrun & Hok' & Hc).
      exists s'. rewrite (run_ops_set _ _ _ _ _ _ _ Hset).
      split; [exact Hrun|]. split; [exact Hok'|]. congruence.
Qed.

Lemma capacity_of_pos config :
  0 <= MaxCapacity config -> 1 <= capacity_of config.
Proof. unfold capacity_of. destruct (Z.eqb_spec (MaxCapacity config) 0); lia. Qed.

Lemma NewCache_ok config s :
  0 <= MaxCapacity config ->
  exists s', NewCache config s = Ret tt s' /\ cache_ok s' /\
    MaxCapacity (c_config (cache s')) = capacity_of config /\
    cache_rep s' [] /\ trace s' = trace s.
Proof.
  intros Hcap.
  destruct (NewCache_spec config s) as (s' & Hnew & Hrep & Hc & _ & _ & _ & Ht).
  assert (Hcfg : MaxCapacity (c_config (cache s')) = capacity_of config).
  { rewrite Hc. unfold capacity_of. destruct (MaxCapacity config =? 0); reflexivity. }
  exists s'. split; [exact Hnew|]. split; [|split; [exact Hcfg|split; assumption]].
  exists []. split; [exact Hrep|]. rewrite Hcfg.
  pose proof (capacity_of_pos config Hcap). cbn [length]. lia.
Qed.

(** Every state reached from [NewCache] through [Get] and [Set] is
    well-formed, and no run panics. *)
Lemma reach_ok E config ops s0 :
  0 <= MaxCapacity config ->
  exists s,
    (NewCache config ;;; run_ops E ops) s0 = Ret tt s /\ cache_ok s /\
    MaxCapacity (c_config (cache s)) = capacity_of config.
Proof.
  intros Hcap.
  destruct (NewCache_ok config s0 Hcap) as (s1 & Hnew & Hok1 & Hc1 & _).
  destruct (run_ops_ok E ops s1 Hok1) as (s & Hrun & Hok & Hc).
  exists s. rewrite (bind_Ret _ _ _ _ _ Hnew). split; [exact Hrun|].
  split; [exact Hok|]. congruence.
Qed.

Lemma removeFromBack_empty s :
  cache_rep s [] ->
  exists hl hn,
    c_head (cache s) = Some hl /\ heap s !! hl = Some hn /\ n_prev hn = None /\
    get_prev (c_tail (cache s)) s = Ret (Some hl) s /\
    removeFromBack s = Panic.
Proof.
  intros (H & T & Hh & Ht & Hdl & _).
  cbn [app dl first_ptr] in Hdl. destruct Hdl as (HH & HT & _).
  eexists _, _. split; [exact Hh|]. split; [exact HH|]. split; [reflexivity|].
  rewrite Ht. split; [apply (get_prev_eq _ _ _ HT)|].
  unfold removeFromBack. unfold bind at 1, gets at 1. rewrite Ht.
  rewrite (bind_Ret _ _ _ _ _ (get_prev_eq _ _ _ HT)). cbn [n_prev].
  rewrite (bind_Ret _ _ _ _ _ (get_prev_eq _ _ _ HH)). cbn [n_prev].
  reflexivity.
Qed.

Lemma rep_lookup_eq s es :
  cache_rep s es -> c_lookup (cache s) = list_to_map (kv <$> es).
Proof. intros (H & T & _ & _ & _ & _ & _ & Hlk & _). exact Hlk. Qed.

Lemma rep_ids_nodup s es : cache_rep s es -> NoDup (eid <$> es).
Proof. intros (H & T & _ & _ & _ & _ & _ & _ & Hid). exact Hid. Qed.

Lemma cache_len_rep s es : cache_rep s es -> cache_len s = Z.of_nat (length es).
Proof. intros Hrep. unfold cache_len. rewrite (rep_size _ _ Hrep). reflexivity. Qed.

Lemma lookup_None_ids s es id :
  cache_rep s es -> c_lookup (cache s) !! id = None -> id ∉ eid <$> es.
Proof.
  intros Hrep Hl Hin. apply (rep_lookup_iff _ _ _ Hrep) in Hin as [l Hin].
  congruence.
Qed.

(** * The claims *)

(** C6. A cache built by [NewCache] with capacity at least 1 (or 0, which
    becomes 10) never holds more entries than its capacity, whatever
    sequence of [Get] and [Set] is run on it, and no such run panics; a
    [Set] of a new id on a cache that is full removes exactly one entry, so
    that the cache is as full after it as before. *)
Theorem capacity_bound E config ops s0 :
  0 <= MaxCapacity config ->
  exists s,
    (NewCache config ;;; run_ops E ops) s0 = Ret tt s /\
    cache_len s <= capacity_of config /\
    (forall id d,
        c_lookup (cache s) !! id = None ->
        cache_len s = capacity_of config ->
        exists victim node err s',
          Cache_Set E id d s = Ret err s' /\
          is_Some (c_lookup (cache s) !! victim) /\
          c_lookup (cache s') =
            <[id := node]> (delete victim (c_lookup (cache s))) /\
          cache_len s' = capacity_of config).
Proof.
  intros Hcap.
  destruct (reach_ok E config ops s0 Hcap) as (s & Hrun & Hok & Hcfg).
  exists s. split; [exact Hrun|].
  destruct Hok as (es & Hrep & Hpos & Hlen).
  rewrite (cache_len_rep _ _ Hrep), <- Hcfg. split; [exact Hlen|].
  intros id d Hmiss Hfull.
  pose proof (lookup_None_ids _ _ _ Hrep Hmiss) as Hnin.
  destruct es as [|L A _] using rev_ind; [simpl in Hfull; lia|].
  destruct (Cache_Set_miss_full E s A L id d Hrep Hnin) as (s' & Hset & Hrep' & Hevo);
    [lia|].
  exists (eid L), (nalloc s), (env_unmap E (trace s) (edata L)), s'.
  split; [exact Hset|]. split; [|split].
  - rewrite (rep_lookup_Some _ _ L Hrep); [eauto|].
    rewrite elem_of_app, list_elem_of_singleton. tauto.
  - rewrite (rep_lookup_eq _ _ Hrep'), (rep_lookup_eq _ _ Hrep).
    rewrite rep_delete_last by (eapply rep_ids_nodup; exact Hrep). reflexivity.
  - rewrite (cache_len_rep _ _ Hrep'). rewrite <- Hfull.
    rewrite length_app. cbn [length]. lia.
Qed.

Lemma capacity_bound_witness :
  exists s,
    (NewCache (mkConfig 2) ;;;
     run_ops (quiet_env 4096)
       [OpSet 0 (Some 0%nat); OpSet 1 (Some 1%nat); OpGet 0;
        OpSet 2 (Some 2%nat)]) (boot 0) = Ret tt s /\
    cache_len s <= 2.
Proof.
  destruct (capacity_bound (quiet_env 4096) (mkConfig 2)
              [OpSet 0 (Some 0%nat); OpSet 1 (Some 1%nat); OpGet 0;
               OpSet 2 (Some 2%nat)] (boot 0)) as (s & Hrun & Hlen & _).
  - simpl. lia.
  - exists s. split; [exact Hrun|exact Hlen].
Defined.

Lemma reach_inv E config ops s0 s :
  0 <= MaxCapacity config ->
  (NewCache config ;;; run_ops E ops) s0 = Ret tt s ->
  cache_ok s /\ MaxCapacity (c_config (cache s)) = capacity_of config.
Proof.
  intros Hcap Hrun.
  destruct (reach_ok E config ops s0 Hcap) as (s' & Hrun' & Hok & Hcfg).
  rewrite Hrun in Hrun'. injection Hrun' as ->. auto.
Qed.

(** C7. On a cache reached from [NewCache] that is at capacity, [Set] of an
    id that is not present unmaps the region of the least recently used
    entry, removes that entry from the lookup map and from the recency list,
    puts the new entry at the most recently used position whatever the
    unmap answered, and returns exactly the unmap's answer. *)
Theorem set_at_capacity E config ops s0 s id d :
  0 <= MaxCapacity config ->
  (NewCache config ;;; run_ops E ops) s0 = Ret tt s ->
  c_lookup (cache s) !! id = None ->
  MaxCapacity (c_config (cache s)) <= cache_len s ->
  exists rest lru_id lru_data s',
    recency s = rest ++ [(lru_id, lru_data)] /\
    Cache_Set E id d s = Ret (env_unmap E (trace s) lru_data) s' /\
    trace s' = EvUnmap lru_data :: trace s /\
    c_lookup (cache s') !! lru_id = None /\
    (lru_id ∉ fst <$> recency s') /\
    is_Some (c_lookup (cache s') !! id) /\
    recency s' = (id, d) :: rest.
Proof.
  intros Hcap Hrun Hmiss Hfull.
  destruct (reach_inv E config ops s0 s Hcap Hrun) as [(es & Hrep & Hpos & Hlen) Hcfg].
  pose proof (lookup_None_ids _ _ _ Hrep Hmiss) as Hnin.
  rewrite (cache_len_rep _ _ Hrep) in Hfull.
  destruct es as [|L A _] using rev_ind; [simpl in Hfull; lia|].
  destruct (Cache_Set_miss_full E s A L id d Hrep Hnin Hfull)
    as (s' & Hset & Hrep' & Hevo).
  pose proof (rep_ids_nodup _ _ Hrep) as Hnd.
  rewrite fmap_app in Hnd, Hnin. apply NoDup_app in Hnd as (_ & Hd & _).
  assert (HLA : eid L ∉ eid <$> A).
  { intros Hin. apply (Hd _ Hin). apply list_elem_of_here. }
  assert (HLid : eid L <> id).
  { intros Heq. apply Hnin. rewrite elem_of_app. right. rewrite <- Heq.
    apply list_elem_of_here. }
  assert (HL' : eid L ∉ eid <$> (mkE (nalloc s) id d :: A)).
  { rewrite fmap_cons, not_elem_of_cons. split; assumption. }
  exists (item <$> A), (eid L), (edata L), s'.
  split; [|split; [exact Hset|split; [|split; [|split; [|split]]]]].
  - rewrite (recency_rep _ _ Hrep), fmap_app. reflexivity.
  - destruct Hevo as (_ & _ & _ & _ & Ht). exact Ht.
  - apply (rep_lookup_None _ _ _ Hrep'). exact HL'.
  - rewrite (recency_rep _ _ Hrep').
    replace ((item <$> mkE (nalloc s) id d :: A).*1)
      with (eid <$> mkE (nalloc s) id d :: A); [exact HL'|].
    rewrite <- list_fmap_compose. reflexivity.
  - apply (rep_lookup_iff _ _ _ Hrep'). rewrite fmap_cons. apply list_elem_of_here.
  - rewrite (recency_rep _ _ Hrep'). reflexivity.
Qed.

Lemma set_at_capacity_witness :
  exists rest lru_id lru_data s s',
    (NewCache (mkConfig 1) ;;;
     run_ops (quiet_env 4096) [OpSet 7 (Some 0%nat)]) (boot 0) = Ret tt s /\
    recency s = rest ++ [(lru_id, lru_data)] /\
    Cache_Set (quiet_env 4096) 8 (Some 1%nat) s = Ret None s' /\
    recency s' = (8, Some 1%nat) :: rest.
Proof.
  destruct (reach_ok (quiet_env 4096) (mkConfig 1) [OpSet 7 (Some 0%nat)] (boot 0))
    as (s & Hrun & _); [simpl; lia|].
  destruct (set_at_capacity (quiet_env 4096) (mkConfig 1)
              [OpSet 7 (Some 0%nat)] (boot 0) s 8 (Some 1%nat))
    as (rest & lru_id & lru_data & s' & Hrec & Hset & _ & _ & _ & _ & Hrec').
  - simpl. lia.
  - exact Hrun.
  - vm_compute in Hrun. injection Hrun as <-. vm_compute. reflexivity.
  - vm_compute in Hrun. injection Hrun as <-. vm_compute. discriminate.
  - exists rest, lru_id, lru_data, s, s'. repeat split; assumption.
Defined.

(** C10. A negative [MaxCapacity] is kept by [NewCache] (only 0 becomes
    10); the cache it builds is empty, its tail's [prev] is the head
    sentinel, whose own [prev] is nil, so [removeFromBack] panics, and so
    does the first [Set], which takes the eviction branch. *)
Theorem negative_capacity E config s0 id d :
  MaxCapacity config < 0 ->
  exists s hl hn,
    NewCache config s0 = Ret tt s /\
    c_config (cache s) = config /\
    cache_len s = 0 /\
    (MaxCapacity (c_config (cache s)) <=? cache_len s) = true /\
    c_head (cache s) = Some hl /\ heap s !! hl = Some hn /\ n_prev hn = None /\
    get_prev (c_tail (cache s)) s = Ret (Some hl) s /\
    removeFromBack s = Panic /\
    Cache_Set E id d s = Panic.
Proof.
  intros Hneg.
  destruct (NewCache_spec config s0) as (s & Hnew & Hrep & Hc & _).
  destruct (Z.eqb_spec (MaxCapacity config) 0) as [Hz|_]; [lia|].
  destruct (removeFromBack_empty s Hrep) as (hl & hn & Hh & Hhn & Hp & Htp & Hrm).
  pose proof (cache_len_rep _ _ Hrep) as Hlen. cbn [length] in Hlen.
  exists s, hl, hn. rewrite Hlen, Hc.
  repeat split; try assumption.
  - apply Z.leb_le. simpl. lia.
  - apply (Cache_Set_empty_panic E s id d Hrep). rewrite Hc. lia.
Qed.

Lemma negative_capacity_witness :
  exists s,
    NewCache (mkConfig (-1)) (boot 0) = Ret tt s /\
    c_config (cache s) = mkConfig (-1) /\
    Cache_Set (quiet_env 4096) 0 (Some 0%nat) s = Panic.
Proof.
  destruct (negative_capacity (quiet_env 4096) (mkConfig (-1)) (boot 0) 0 (Some 0%nat))
    as (s & hl & hn & Hnew & Hc & _ & _ & _ & _ & _ & _ & _ & Hset).
  - simpl. lia.
  - exists s. repeat split; assumption.
Defined.

(** ** Filling a cache with distinct pages *)

Lemma item_fst es : (item <$> es).*1 = eid <$> es.
Proof. rewrite <- list_fmap_compose. reflexivity. Qed.

Lemma sets_fill E (l : list (Z * MMap)) : forall s es,
  cache_rep s es ->
  NoDup (l.*1 ++ (eid <$> es)) ->
  Z.of_nat (length es + length l) <= MaxCapacity (c_config (cache s)) ->
  exists s' es',
    run_ops E (set_ops l) s = Ret tt s' /\
    cache_rep s' es' /\
    item <$> es' = reverse l ++ (item <$> es) /\
    c_config (cache s') = c_config (cache s) /\
    trace s' = trace s.
Proof.
  induction l as [|[id d] l IH]; intros s es Hrep Hnd Hcap.
  - exists s, es. repeat split; auto.
  - cbn [fmap list_fmap fst app] in Hnd. apply NoDup_cons in Hnd as [Hid Hnd].
    rewrite not_elem_of_app in Hid. destruct Hid as [Hidl Hides].
    cbn [length] in Hcap.
    destruct (Cache_Set_miss_room E s es id d Hrep Hides) as (s1 & Hset & Hrep1 & Hevo);
      [lia|].
    destruct Hevo as (_ & _ & _ & Hc1 & Ht1).
    destruct (IH s1 (mkE (nalloc s) id d :: es) Hrep1) as (s' & es' & Hrun & Hrep' & Hit & Hc & Ht).
    + rewrite fmap_cons. cbn [eid].
      apply NoDup_app in Hnd as (Hl & Hd & Hes).
      apply NoDup_app. split; [exact Hl|]. split.
      * intros x Hx Hin. rewrite elem_of_cons in Hin. destruct Hin as [->|Hin].
        -- contradiction.
        -- apply (Hd _ Hx Hin).
      * apply NoDup_cons. split; assumption.
    + rewrite Hc1. cbn [length]. lia.
    + exists s', es'. unfold set_ops. rewrite fmap_cons. cbn [fst snd].
      rewrite (run_ops_set _ _ _ _ _ _ _ Hset).
      split; [exact Hrun|]. split; [exact Hrep'|].
      split; [|split; congruence].
      rewrite Hit, reverse_cons, <- app_assoc. reflexivity.
Qed.

Lemma Cache_Get_miss_lookup s id :
  c_lookup (cache s) !! id = None ->
  Cache_Get id s = Ret (None, Some ErrCacheMiss) s.
Proof. intros Hl. unfold Cache_Get, bind, gets. rewrite Hl. reflexivity. Qed.

Lemma run_ops_app E l1 l2 s :
  run_ops E (l1 ++ l2) s = (run_ops E l1 ;;; run_ops E l2) s.
Proof.
  revert s. induction l1 as [|op l1 IH]; intros s; [reflexivity|].
  cbn [app run_ops]. unfold bind.
  destruct (run_op E op s) as [[] s1| |]; try reflexivity.
  rewrite IH. reflexivity.
Qed.

Lemma run_snoc_set E cfg l id d s0 s1 err s2 :
  (NewCache cfg ;;; run_ops E l) s0 = Ret tt s1 ->
  Cache_Set E id d s1 = Ret err s2 ->
  (NewCache cfg ;;; run_ops E (l ++ [OpSet id d])) s0 = Ret tt s2.
Proof.
  unfold bind at 1 2. destruct (NewCache cfg s0) as [[] sa| |]; try discriminate.
  intros Hrun Hset. rewrite run_ops_app. rewrite (bind_Ret _ _ _ _ _ Hrun).
  apply (run_ops_set E id d [] s1 err s2 Hset).
Qed.

(** Filling an empty cache of capacity [N] with [N] distinct pages and then
    inserting one more. *)
Lemma fill_then_evict E s0 N first mid (last : Z * MMap) :
  1 <= N -> Z.of_nat (length mid) = N - 1 ->
  NoDup ((first :: mid ++ [last]).*1) ->
  exists s1 s2 A L,
    (NewCache (mkConfig N) ;;; run_ops E (set_ops (first :: mid))) s0 = Ret tt s1 /\
    cache_rep s1 (A ++ [L]) /\ item L = first /\ item <$> A = reverse mid /\
    Cache_Set E last.1 last.2 s1 = Ret (env_unmap E (trace s1) first.2) s2 /\
    trace s2 = EvUnmap first.2 :: trace s1 /\
    cache_rep s2 (mkE (nalloc s1) last.1 last.2 :: A).
Proof.
  intros HN Hlen Hnd.
  destruct (NewCache_ok (mkConfig N) s0) as (sa & Hnew & _ & Hcfg & Hrep0 & _);
    [simpl; lia|].
  assert (HcN : MaxCapacity (c_config (cache sa)) = N).
  { rewrite Hcfg. unfold capacity_of. cbn [MaxCapacity].
    destruct (Z.eqb_spec N 0); [lia|reflexivity]. }
  assert (Hnd1 : NoDup ((first :: mid).*1)).
  { change (first :: mid ++ [last]) with ((first :: mid) ++ [last]) in Hnd.
    rewrite fmap_app in Hnd. apply NoDup_app in Hnd as (Hnd1 & _). exact Hnd1. }
  destruct (sets_fill E (first :: mid) sa [] Hrep0) as (s1 & es1 & Hrun & Hrep1 & Hit & Hc1 & _).
  { rewrite fmap_nil, app_nil_r. exact Hnd1. }
  { rewrite HcN. cbn [length]. lia. }
  rewrite fmap_nil, app_nil_r, reverse_cons in Hit.
  destruct es1 as [|L A _] using rev_ind.
  { apply (f_equal length) in Hit. rewrite length_app in Hit. simpl in Hit. lia. }
  rewrite fmap_app in Hit. cbn [fmap list_fmap] in Hit.
  apply app_inj_tail in Hit as [HA HL].
  assert (Hids : eid <$> (A ++ [L]) = (reverse (first :: mid)).*1).
  { rewrite <- item_fst, fmap_app, reverse_cons, HA. cbn [fmap list_fmap].
    rewrite HL. reflexivity. }
  assert (Hlast : last.1 ∉ eid <$> (A ++ [L])).
  { rewrite Hids, fmap_reverse, elem_of_reverse.
    change (first :: mid ++ [last]) with ((first :: mid) ++ [last]) in Hnd.
    rewrite fmap_app in Hnd. apply NoDup_app in Hnd as (_ & Hd & _).
    intros Hin. apply (Hd _ Hin). apply list_elem_of_here. }
  destruct (Cache_Set_miss_full E s1 A L last.1 last.2 Hrep1 Hlast)
    as (s2 & Hset & Hrep2 & Hevo).
  { rewrite Hc1, HcN. apply (f_equal length) in Hids.
    rewrite !length_fmap, length_reverse in Hids. rewrite Hids. cbn [length]. lia. }
  assert (HdL : edata L = first.2) by (rewrite <- HL; reflexivity).
  rewrite HdL in Hset, Hevo.
  exists s1, s2, A, L. split.
  { rewrite (bind_Ret _ _ _ _ _ Hnew). exact Hrun. }
  repeat split; try assumption.
  destruct Hevo as (_ & _ & _ & _ & Ht). exact Ht.
Qed.

Lemma ids_of_items es (l : list (Z * MMap)) :
  item <$> es = l -> eid <$> es = l.*1.
Proof. intros <-. symmetry. apply item_fst. Qed.

(** C5. LRU order.  (1) In a cache of capacity [N >= 1], after [N]
    insertions of distinct pages the first one is still cached, and the
    insertion of one more distinct page evicts exactly the first: its
    region is unmapped and the cache then holds the other [N], newest
    first.  (2) In any cache reached from [NewCache], a [Get] of a cached
    id hits and moves it to the front of the recency list, and the next
    eviction (a [Set] of a new id at capacity, with at least two entries)
    removes another, less recently used, entry and keeps that id.  (3) With
    capacity 2, after [Set 0], [Set 1], [Set 2] the cache holds exactly
    pages 1 and 2, and [Get 0] misses. *)
Theorem lru_order E s0 :
  (forall N first mid (last : Z * MMap),
      1 <= N -> Z.of_nat (length mid) = N - 1 ->
      NoDup ((first :: mid ++ [last]).*1) ->
      exists s1 s2,
        (NewCache (mkConfig N) ;;; run_ops E (set_ops (first :: mid))) s0
          = Ret tt s1 /\
        recency s1 = reverse (first :: mid) /\
        is_Some (c_lookup (cache s1) !! first.1) /\
        Cache_Set E last.1 last.2 s1 = Ret (env_unmap E (trace s1) first.2) s2 /\
        trace s2 = EvUnmap first.2 :: trace s1 /\
        c_lookup (cache s2) !! first.1 = None /\
        recency s2 = last :: reverse mid /\
        (forall k, is_Some (c_lookup (cache s2) !! k) <-> k ∈ (mid ++ [last]).*1))
  /\
  (forall config ops s id,
      0 <= MaxCapacity config ->
      (NewCache config ;;; run_ops E ops) s0 = Ret tt s ->
      is_Some (c_lookup (cache s) !! id) ->
      exists d s1,
        Cache_Get id s = Ret (d, None) s1 /\
        head (recency s1) = Some (id, d) /\
        c_lookup (cache s1) = c_lookup (cache s) /\
        (forall id' d',
            c_lookup (cache s1) !! id' = None ->
            MaxCapacity (c_config (cache s1)) <= cache_len s1 ->
            2 <= cache_len s1 ->
            exists victim vdata err s2,
              Cache_Set E id' d' s1 = Ret err s2 /\
              last (recency s1) = Some (victim, vdata) /\
              victim <> id /\
              c_lookup (cache s2) !! victim = None /\
              is_Some (c_lookup (cache s2) !! id)))
  /\
  (forall d0 d1 d2,
      exists s,
        (NewCache (mkConfig 2) ;;;
         run_ops E [OpSet 0 d0; OpSet 1 d1; OpSet 2 d2]) s0 = Ret tt s /\
        dom (c_lookup (cache s)) = {[1; 2]} /\
        recency s = [(2, d2); (1, d1)] /\
        Cache_Get 0 s = Ret (None, Some ErrCacheMiss) s).
Proof.
  split; [|split].
  - intros N first mid last HN Hlen Hnd.
    destruct (fill_then_evict E s0 N first mid last HN Hlen Hnd)
      as (s1 & s2 & A & L & Hrun & Hrep1 & HL & HA & Hset & Ht & Hrep2).
    assert (Hit2 : item <$> (mkE (nalloc s1) last.1 last.2 :: A) = last :: reverse mid).
    { rewrite fmap_cons, HA. unfold item at 1. cbn [eid edata].
      destruct last; reflexivity. }
    exists s1, s2. split; [exact Hrun|]. split; [|split; [|split; [exact Hset|]]].
    + rewrite (recency_rep _ _ Hrep1), fmap_app, HA, reverse_cons.
      cbn [fmap list_fmap]. rewrite HL. reflexivity.
    + apply (rep_lookup_iff _ _ _ Hrep1). rewrite fmap_app, elem_of_app. right.
      rewrite <- HL. apply list_elem_of_here.
    + split; [exact Ht|]. split; [|split].
      * apply (rep_lookup_None _ _ _ Hrep2).
        rewrite (ids_of_items _ _ Hit2). cbn [fmap list_fmap].
        rewrite fmap_reverse, not_elem_of_cons, elem_of_reverse.
        rewrite fmap_cons, fmap_app in Hnd. apply NoDup_cons in Hnd as [Hf _].
        rewrite not_elem_of_app in Hf. destruct Hf as [Hf1 Hf2].
        split; [|exact Hf1]. intros Heq. apply Hf2. rewrite Heq.
        apply list_elem_of_here.
      * rewrite (recency_rep _ _ Hrep2). exact Hit2.
      * intros k. rewrite (rep_lookup_iff _ _ _ Hrep2), (ids_of_items _ _ Hit2).
        cbn [fmap list_fmap]. rewrite fmap_reverse, fmap_app.
        cbn [fmap list_fmap]. rewrite elem_of_cons, elem_of_reverse, elem_of_app,
          list_elem_of_singleton. tauto.
  - intros config ops s id Hcap Hrun [l Hl].
    destruct (reach_inv E config ops s0 s Hcap Hrun) as [(es & Hrep & Hpos & Hlen) _].
    assert (Hin : id ∈ eid <$> es).
    { apply (rep_lookup_iff _ _ _ Hrep). eauto. }
    destruct (elem_of_ids_split _ _ Hin) as (A & e & B & -> & <-).
    destruct (Cache_Get_hit s A e B Hrep) as (h' & Hget & Hrep1).
    exists (edata e), (set_heap h' s). split; [exact Hget|].
    split; [rewrite (recency_rep _ _ Hrep1); reflexivity|].
    split; [reflexivity|].
    intros id' d' Hmiss Hfull Htwo.
    rewrite (cache_len_rep _ _ Hrep1) in Hfull, Htwo.
    pose proof (lookup_None_ids _ _ _ Hrep1 Hmiss) as Hnin.
    destruct (A ++ B) as [|L C _] eqn:HAB using rev_ind;
      [cbn [length] in Htwo; lia|].
    change (e :: C ++ [L]) with ((e :: C) ++ [L]) in Hrep1, Hnin, Hfull.
    destruct (Cache_Set_miss_full E _ (e :: C) L id' d' Hrep1 Hnin Hfull)
      as (s2 & Hset & Hrep2 & _).
    pose proof (rep_ids_nodup _ _ Hrep1) as Hnd.
    rewrite fmap_app, fmap_cons in Hnd. apply NoDup_app in Hnd as (_ & Hd & _).
    assert (HLe : eid L <> eid e).
    { intros Heq. apply (Hd (eid e)); [apply list_elem_of_here|].
      rewrite <- Heq. apply list_elem_of_here. }
    assert (HLC : eid L ∉ eid <$> C).
    { intros Hx. apply (Hd (eid L)); [apply list_elem_of_further; exact Hx|].
      apply list_elem_of_here. }
    exists (eid L), (edata L), (env_unmap E (trace (set_heap h' s)) (edata L)), s2.
    split; [exact Hset|]. split; [|split; [exact HLe|split]].
    + rewrite (recency_rep _ _ Hrep1), fmap_app. cbn [fmap list_fmap].
      apply last_snoc.
    + apply (rep_lookup_None _ _ _ Hrep2). rewrite !fmap_cons, !not_elem_of_cons.
      cbn [eid]. repeat split; try assumption.
      intros Heq. apply Hnin. rewrite <- Heq, fmap_app, elem_of_app. right.
      apply list_elem_of_here.
    + apply (rep_lookup_iff _ _ _ Hrep2). rewrite !fmap_cons.
      apply list_elem_of_further, list_elem_of_here.
  - intros d0 d1 d2.
    destruct (fill_then_evict E s0 2 (0, d0) [(1, d1)] (2, d2))
      as (s1 & s2 & A & L & Hrun & Hrep1 & HL & HA & Hset & Ht & Hrep2).
    { lia. }
    { reflexivity. }
    { cbn. repeat (apply NoDup_cons; split;
                   [rewrite ?not_elem_of_cons; repeat split;
                    try discriminate; apply not_elem_of_nil|]).
      apply NoDup_nil_2. }
    cbn [fst snd] in Hset, Hrep2.
    assert (Hit2 : item <$> (mkE (nalloc s1) 2 d2 :: A) = [(2, d2); (1, d1)]).
    { rewrite fmap_cons, HA. reflexivity. }
    exists s2. split; [|split; [|split]].
    + apply (run_snoc_set E (mkConfig 2) [OpSet 0 d0; OpSet 1 d1] 2 d2 s0 s1 _ s2 Hrun Hset).
    + rewrite (rep_lookup_eq _ _ Hrep2), dom_list_to_map_L, kv_fst.
      rewrite (ids_of_items _ _ Hit2). cbn [fmap list_fmap fst list_to_set].
      apply set_eq. intros k. rewrite !elem_of_union, !elem_of_singleton, elem_of_empty.
      tauto.
    + rewrite (recency_rep _ _ Hrep2). exact Hit2.
    + apply Cache_Get_miss_lookup. apply (rep_lookup_None _ _ _ Hrep2).
      rewrite (ids_of_items _ _ Hit2). cbn [fmap list_fmap fst].
      rewrite !not_elem_of_cons. repeat split; try discriminate. apply not_elem_of_nil.
Qed.

Lemma lru_order_witness :
  exists s1 s2,
    (NewCache (mkConfig 2) ;;;
     run_ops (quiet_env 4096) [OpSet 0 (Some 0%nat); OpSet 1 (Some 1%nat)]) (boot 0)
      = Ret tt s1 /\
    recency s1 = [(1, Some 1%nat); (0, Some 0%nat)] /\
    Cache_Set (quiet_env 4096) 2 (Some 2%nat) s1 = Ret None s2 /\
    c_lookup (cache s2) !! 0 = None /\
    recency s2 = [(2, Some 2%nat); (1, Some 1%nat)].
Proof.
  destruct (lru_order (quiet_env 4096) (boot 0)) as (Hfill & _ & _).
  destruct (Hfill 2 (0, Some 0%nat) [(1, Some 1%nat)] (2, Some 2%nat))
    as (s1 & s2 & Hrun & Hrec1 & _ & Hset & _ & Hgone & Hrec2 & _).
  - lia.
  - reflexivity.
  - vm_compute. repeat constructor; rewrite ?elem_of_cons, elem_of_nil;
      intuition discriminate.
  - exists s1, s2. repeat split; assumption.
Defined.

(** ** Frames: what an operation leaves alone *)

Create HintDb frame.

Lemma heap_only_ret {A} (a : A) : heap_only (ret a).
Proof.
  intros s a' s' Hrun. injection Hrun as <- <-.
  exists (heap s). symmetry. apply set_heap_id.
Qed.

Lemma heap_only_gets {A} (f : St -> A) : heap_only (gets f).
Proof.
  intros s a' s' Hrun. injection Hrun as <- <-.
  exists (heap s). symmetry. apply set_heap_id.
Qed.

Lemma heap_only_bind {A B} (m : M A) (k : A -> M B) :
  heap_only m -> (forall a, heap_only (k a)) -> heap_only (bind m k).
Proof.
  intros Hm Hk s b s' Hrun. unfold bind in Hrun.
  destruct (m s) as [a s1| |] eqn:Hms; try discriminate.
  destruct (Hm _ _ _ Hms) as [h1 ->].
  destruct (Hk a _ _ _ Hrun) as [h2 ->]. exists h2. reflexivity.
Qed.

Lemma heap_only_load p : heap_only (load p).
Proof.
  intros s n s' Hrun. unfold load in Hrun. destruct p as [l|]; [|discriminate].
  destruct (heap s !! l); [|discriminate]. injection Hrun as <- <-.
  exists (heap s). symmetry. apply set_heap_id.
Qed.

Lemma heap_only_store p f : heap_only (store p f).
Proof.
  unfold store. apply heap_only_bind; [apply heap_only_load|].
  intros n. destruct p as [l|]; [|intros s a s' [=]].
  intros s a s' Hrun. unfold modify in Hrun. injection Hrun as Hs.
  subst s'. eexists. reflexivity.
Qed.

Lemma heap_only_if {A} (b : bool) (m1 m2 : M A) :
  heap_only m1 -> heap_only m2 -> heap_only (if b then m1 else m2).
Proof. destruct b; auto. Qed.

#[export] Hint Resolve heap_only_ret heap_only_gets heap_only_bind
  heap_only_load heap_only_store heap_only_if : frame.

Lemma heap_only_moveToFront node : heap_only (moveToFront node).
Proof.
  unfold moveToFront, insertAtFront, get_next, get_prev, set_next, set_prev.
  auto 30 with frame.
Qed.

Lemma heap_only_Cache_Get id : heap_only (Cache_Get id).
Proof.
  unfold Cache_Get. apply heap_only_bind; [apply heap_only_gets|].
  intros lk. destruct (lk !! id).
  - apply heap_only_bind; [apply heap_only_moveToFront|]. auto with frame.
  - apply heap_only_ret.
Qed.

Ltac ret_inj :=
  match goal with
  | H : Ret _ _ = Ret _ _ |- _ => injection H as ? ?; subst; repeat split
  | H : Panic = Ret _ _ |- _ => discriminate H
  | H : OutOfFuel = Ret _ _ |- _ => discriminate H
  end.

Lemma keeps_cache_ret {A} (a : A) : keeps_cache (ret a).
Proof. intros s a' s' Hrun. unfold ret in Hrun. ret_inj. Qed.

Lemma keeps_cache_gets {A} (f : St -> A) : keeps_cache (gets f).
Proof. intros s a' s' Hrun. unfold gets in Hrun. ret_inj. Qed.

Lemma keeps_cache_panic {A} : keeps_cache (@panic A).
Proof. intros s a' s' Hrun. unfold panic in Hrun. ret_inj. Qed.

Lemma keeps_cache_bind {A B} (m : M A) (k : A -> M B) :
  keeps_cache m -> (forall a, keeps_cache (k a)) -> keeps_cache (bind m k).
Proof.
  intros Hm Hk s b s' Hrun. unfold bind in Hrun.
  destruct (m s) as [a s1| |] eqn:Hms; try discriminate.
  destruct (Hm _ _ _ Hms) as (H1 & H2 & H3).
  destruct (Hk a _ _ _ Hrun) as (H4 & H5 & H6).
  repeat split; congruence.
Qed.

Lemma keeps_cache_if {A} (b : bool) (m1 m2 : M A) :
  keeps_cache m1 -> keeps_cache m2 -> keeps_cache (if b then m1 else m2).
Proof. destruct b; auto. Qed.

Lemma keeps_cache_modify_pager f :
  keeps_cache (modify (fun s => set_pager (f s) s)).
Proof. intros s a s' Hrun. unfold modify in Hrun. ret_inj. Qed.

Lemma keeps_cache_munmap E m : keeps_cache (munmap E m).
Proof. intros s a s' Hrun. unfold munmap in Hrun. ret_inj. Qed.

Lemma keeps_cache_MapRegion E off : keeps_cache (MapRegion E off).
Proof.
  intros s a s' Hrun. unfold MapRegion in Hrun.
  destruct (env_mmap E (trace s) off); ret_inj.
Qed.

Lemma keeps_cache_Stat E : keeps_cache (Stat E).
Proof.
  intros s a s' Hrun. unfold Stat in Hrun.
  destruct (env_stat E (trace s)); ret_inj.
Qed.

Lemma keeps_cache_WriteAt E count off : keeps_cache (WriteAt E count off).
Proof.
  intros s a s' Hrun. unfold WriteAt in Hrun.
  destruct (off <? 0); [ret_inj|].
  destruct (env_write E (trace s) count off) as [k err]. ret_inj.
Qed.

#[export] Hint Resolve keeps_cache_ret keeps_cache_gets keeps_cache_panic
  keeps_cache_bind keeps_cache_if keeps_cache_munmap keeps_cache_MapRegion
  keeps_cache_Stat keeps_cache_WriteAt keeps_cache_modify_pager : frame.

Lemma keeps_cache_PageCount : keeps_cache Pager_PageCount.
Proof. unfold Pager_PageCount. auto with frame. Qed.

Lemma keeps_cache_GetPage E id : keeps_cache (Pager_GetPage E id).
Proof. unfold Pager_GetPage. auto with frame. Qed.

Lemma keeps_cache_RefreshInfo E : keeps_cache (Pager_RefreshInfo E).
Proof.
  unfold Pager_RefreshInfo. apply keeps_cache_bind; [apply keeps_cache_Stat|].
  intros [info [e|]]; [apply keeps_cache_ret|].
  apply keeps_cache_bind; [apply keeps_cache_gets|]. intros p.
  apply keeps_cache_bind; [|intros; apply keeps_cache_ret].
  apply (keeps_cache_modify_pager (fun _ => mkPager info (p_pageSize p))).
Qed.

Lemma keeps_cache_create_loop E fuel : forall remaining offset,
  keeps_cache (create_loop E fuel remaining offset).
Proof.
  induction fuel as [|fuel IH]; intros remaining offset; cbn [create_loop].
  - destruct (0 <? remaining); [intros s a s' Hrun; ret_inj|apply keeps_cache_ret].
  - destruct (0 <? remaining); [|apply keeps_cache_ret].
    apply keeps_cache_bind; [apply keeps_cache_WriteAt|].
    intros [n [e|]]; [apply keeps_cache_ret|apply IH].
Qed.

Lemma cache_rep_ext s s' es :
  heap s' = heap s -> nalloc s' = nalloc s -> cache s' = cache s ->
  cache_rep s es -> cache_rep s' es.
Proof. unfold cache_rep. intros -> -> ->. auto. Qed.

Lemma cache_ok_ext s s' :
  heap s' = heap s -> nalloc s' = nalloc s -> cache s' = cache s ->
  cache_ok s -> cache_ok s'.
Proof.
  intros Hh Hn Hc (es & Hrep & Hcap). exists es. rewrite Hc.
  split; [eapply cache_rep_ext; eassumption|exact Hcap].
Qed.

(** ** The pager and page creation *)

Lemma PageCount_eq s :
  p_pageSize (pager s) <> 0 ->
  Pager_PageCount s =
  Ret (Z.quot (Size (p_info (pager s))) (p_pageSize (pager s))) s.
Proof.
  intros Hps. unfold Pager_PageCount, bind, gets.
  destruct (Z.eqb_spec (p_pageSize (pager s)) 0); [contradiction|reflexivity].
Qed.

Lemma PageCount_inv ps k s :
  0 < ps -> pager_inv ps k s -> Pager_PageCount s = Ret k s.
Proof.
  intros Hps (Hp & Hk & Hsz & _). rewrite PageCount_eq by lia.
  rewrite Hsz, Hp. rewrite Z.quot_mul by lia. reflexivity.
Qed.

Lemma RefreshInfo_inv E s r s' :
  Pager_RefreshInfo E s = Ret r s' ->
  (exists e, r = Some e /\ s' = s) \/
  (r = None /\
   s' = set_pager (mkPager (mkInfo (fsize s)) (p_pageSize (pager s)))
          (set_trace (EvStat :: trace s) s)).
Proof.
  unfold Pager_RefreshInfo, bind, Stat, gets, modify, ret.
  destruct (env_stat E (trace s)) as [e|]; intros Hrun; ret_inj; eauto.
Qed.

Lemma WriteAt_inv E count offset s n err s' :
  0 <= count -> 0 <= offset <= max_int64 ->
  WriteAt E count offset s = Ret (n, err) s' ->
  0 <= n <= count /\ offset + n <= max_int64 /\
  pager s' = pager s /\
  fsize s' = (if 0 <? n then Z.max (fsize s) (offset + n) else fsize s).
Proof.
  intros Hc Ho Hrun. unfold WriteAt in Hrun.
  destruct (Z.ltb_spec offset 0); [lia|].
  destruct (env_write E (trace s) count offset) as [k e].
  injection Hrun as <- <- <-. stn. repeat split; lia.
Qed.

Lemma create_loop_spec E fuel : forall remaining offset s r s',
  0 <= remaining <= max_int64 -> 0 <= offset <= max_int64 ->
  fsize s <= offset + remaining -> fsize s <= max_int64 ->
  create_loop E fuel remaining offset s = Ret r s' ->
  pager s' = pager s /\
  fsize s <= fsize s' <= offset + remaining /\ fsize s' <= max_int64 /\
  (r = None -> 0 < remaining -> fsize s' = offset + remaining).
Proof.
  induction fuel as [|fuel IH]; intros remaining offset s r s' Hr Ho Hf Hm Hrun;
    cbn [create_loop] in Hrun; destruct (Z.ltb_spec 0 remaining) as [Hpos|Hz].
  - discriminate.
  - unfold ret in Hrun. injection Hrun as <- <-. repeat split; lia.
  - unfold bind, fill in Hrun.
    destruct (WriteAt E remaining offset s) as [[n err] s1| |] eqn:Hw; try discriminate.
    apply WriteAt_inv in Hw as (Hn & Hon & Hp1 & Hf1); [|lia|lia].
    assert (Hf1' : fsize s <= fsize s1 <= offset + remaining /\
                   fsize s1 <= max_int64 /\
                   (0 < n -> fsize s1 = Z.max (fsize s) (offset + n))).
    { rewrite Hf1. destruct (Z.ltb_spec 0 n); lia. }
    destruct err as [e|].
    + unfold ret in Hrun. injection Hrun as <- <-.
      repeat split; try lia; try congruence.
    + rewrite (wrap64_id (remaining - n)) in Hrun by (unfold max_int64 in *; lia).
      rewrite (wrap64_id (offset + n)) in Hrun by (unfold max_int64 in *; lia).
      apply IH in Hrun as (Hp' & Hf' & Hm' & Hlast); try lia.
      repeat split; try lia; try congruence.
      intros Hnone _. destruct (Z.lt_ge_cases 0 (remaining - n)) as [Hmore|Hdone].
      * rewrite (Hlast Hnone Hmore). lia.
      * assert (n = remaining) by lia. subst n. lia.
  - unfold ret in Hrun. injection Hrun as <- <-. repeat split; lia.
Qed.

Lemma Cache_Get_pager id s r s' :
  Cache_Get id s = Ret r s' ->
  pager s' = pager s /\ fsize s' = fsize s /\ trace s' = trace s /\
  nregion s' = nregion s /\ cache s' = cache s.
Proof.
  intros Hrun. destruct (heap_only_Cache_Get id _ _ _ Hrun) as [h ->].
  repeat split.
Qed.

Lemma pager_inv_ext ps k s s' :
  pager s' = pager s -> fsize s' = fsize s ->
  pager_inv ps k s -> pager_inv ps k s'.
Proof. unfold pager_inv. intros -> ->. auto. Qed.

Lemma Create_step E ps k fuel s id err s' :
  0 < ps <= max_int64 -> pager_inv ps k s ->
  DiskViewer_Create E fuel s = Ret (id, err) s' ->
  (err = None /\ id = k /\ pager_inv ps (k + 1) s') \/
  (err <> None /\ pager_inv ps k s').
Proof.
  intros Hps Hinv Hrun. pose proof Hinv as (Hp & Hk & Hsz & Hfs & Hm).
  assert (Hps0 : 0 < ps) by lia.
  unfold DiskViewer_Create in Hrun. unfold bind at 1, gets at 1 in Hrun.
  rewrite (bind_Ret _ _ _ _ _ (PageCount_inv ps k s Hps0 Hinv)) in Hrun.
  rewrite Hp in Hrun.
  rewrite (wrap64_id (k * ps)) in Hrun by (unfold max_int64 in *; nia).
  unfold bind at 1 in Hrun.
  destruct (create_loop E fuel ps (k * ps) s) as [w s1| |] eqn:Hloop; try discriminate.
  assert (Hkps : 0 <= k * ps) by nia.
  apply create_loop_spec in Hloop; [|lia..].
  destruct Hloop as (Hp1 & Hf1 & Hm1 & Hfull).
  destruct w as [e|].
  - unfold ret in Hrun. injection Hrun as <- <- <-. right. split; [discriminate|].
    unfold pager_inv. rewrite Hp1. repeat split; try assumption; lia.
  - specialize (Hfull eq_refl Hps0).
    unfold bind at 1 in Hrun.
    destruct (Pager_RefreshInfo E s1) as [rerr s2| |] eqn:Href; try discriminate.
    apply RefreshInfo_inv in Href as [(e & -> & ->)|(-> & ->)].
    + unfold ret in Hrun. injection Hrun as <- <- <-. right. split; [discriminate|].
      unfold pager_inv. rewrite Hp1. repeat split; try assumption; lia.
    + set (s2 := set_pager _ _) in Hrun.
      assert (Hinv2 : pager_inv ps (k + 1) s2).
      { subst s2. unfold pager_inv. stn. cbn [p_pageSize p_info Size].
        rewrite Hp1, Hp. repeat split; try lia. }
      rewrite (bind_Ret _ _ _ _ _ (PageCount_inv ps (k + 1) s2 Hps0 Hinv2)) in Hrun.
      unfold bind at 1 in Hrun.
      destruct (Cache_Get (wrap64 (k + 1 - 1)) s2) as [g s3| |] eqn:Hget; try discriminate.
      apply Cache_Get_pager in Hget as (Hp3 & Hf3 & _).
      assert (Hinv3 : pager_inv ps (k + 1) s3) by (eapply pager_inv_ext; eassumption).
      rewrite (bind_Ret _ _ _ _ _ (PageCount_inv ps (k + 1) s3 Hps0 Hinv3)) in Hrun.
      unfold ret in Hrun. injection Hrun as <- <- <-. left.
      split; [reflexivity|]. split; [|exact Hinv3].
      replace (k + 1 - 1) with k by lia. apply wrap64_id. unfold max_int64 in *. nia.
Qed.

Lemma NewPager_inv E s r s' :
  NewPager E s = Ret r s' ->
  heap s' = heap s /\ nalloc s' = nalloc s /\ cache s' = cache s /\
  (r = None ->
   pager s' = mkPager (mkInfo (fsize s)) (env_pagesize E) /\
   fsize s' = fsize s).
Proof.
  unfold NewPager. destruct (env_open E (trace s)) as [e|].
  - intros Hrun. ret_inj. discriminate.
  - unfold bind, Stat, file_Close, modify, ret. stn.
    destruct (env_stat E (EvOpen :: trace s)) as [e|]; intros Hrun; ret_inj;
      try discriminate; reflexivity.
Qed.

Lemma New_inv E config s s' :
  DiskViewer_New E config s = Ret None s' ->
  exists s1,
    NewCache config s = Ret tt s1 /\
    heap s' = heap s1 /\ nalloc s' = nalloc s1 /\ cache s' = cache s1 /\
    pager s' = mkPager (mkInfo (fsize s)) (env_pagesize E) /\
    fsize s' = fsize s.
Proof.
  unfold DiskViewer_New. intros Hrun.
  destruct (NewCache_spec config s) as (s1 & Hnew & _ & _ & _ & Hf & _).
  rewrite (bind_Ret _ _ _ _ _ Hnew) in Hrun.
  apply NewPager_inv in Hrun as (Hh & Hn & Hc & Hp).
  destruct (Hp eq_refl) as [Hp1 Hp2].
  exists s1. repeat split; congruence.
Qed.

Lemma run_creates_spec E ps :
  0 < ps <= max_int64 ->
  forall fuels k s rs s',
    pager_inv ps k s ->
    run_creates E fuels s = Ret rs s' ->
    ok_ids rs = seqZ k (Z.of_nat (length (ok_ids rs))) /\
    pager_inv ps (k + Z.of_nat (length (ok_ids rs))) s'.
Proof.
  intros Hps. induction fuels as [|fuel fuels IH]; intros k s rs s' Hinv Hrun.
  - unfold run_creates, ret in Hrun. injection Hrun as <- <-.
    split; [reflexivity|]. cbn. rewrite Z.add_0_r. exact Hinv.
  - cbn [run_creates] in Hrun. unfold bind at 1 in Hrun.
    destruct (DiskViewer_Create E fuel s) as [[id err] s1| |] eqn:Hc; try discriminate.
    unfold bind at 1 in Hrun.
    destruct (run_creates E fuels s1) as [rs1 s2| |] eqn:Hrest; try discriminate.
    unfold ret in Hrun. injection Hrun as <- <-.
    destruct (Create_step E ps k fuel s id err s1 Hps Hinv Hc)
      as [(-> & -> & Hinv1)|(Hne & Hinv1)].
    + destruct (IH _ _ _ _ Hinv1 Hrest) as (Hids & Hinv2).
      unfold ok_ids in *. cbn [omap list_omap snd fst length].
      rewrite Nat2Z.inj_succ. split.
      * rewrite seqZ_cons by lia. f_equal.
        replace (Z.succ k) with (k + 1) by lia.
        replace (Z.pred (Z.succ (Z.of_nat (length (omap _ rs1)))))
          with (Z.of_nat (length (omap (fun r : Z * option error =>
                 match r.2 with None => Some r.1 | Some _ => None end) rs1))) by lia.
        exact Hids.
      * replace (k + Z.succ (Z.of_nat (length (omap _ rs1))))
          with (k + 1 + Z.of_nat (length (omap (fun r : Z * option error =>
                 match r.2 with None => Some r.1 | Some _ => None end) rs1))) by lia.
        exact Hinv2.
    + destruct err as [e|]; [|congruence].
      destruct (IH _ _ _ _ Hinv1 Hrest) as (Hids & Hinv2).
      unfold ok_ids in *. cbn [omap list_omap snd fst]. auto.
Qed.

(** C1. On a [DiskViewer] opened over an empty file, whatever the system
    answers to the writes and stats, the ids returned by the successful
    [Create] calls of a run are 0, 1, 2, ... in call order, and the page
    count after the run is the number of successful calls; a further
    [Create] that succeeds returns exactly that page count and raises it by
    one, and one that fails leaves it as it is. *)
Theorem create_ids E config fuels s0 rs s :
  0 < env_pagesize E <= max_int64 ->
  DiskViewer_New E config (boot 0) = Ret None s0 ->
  run_creates E fuels s0 = Ret rs s ->
  ok_ids rs = seqZ 0 (Z.of_nat (length (ok_ids rs))) /\
  Pager_PageCount s = Ret (Z.of_nat (length (ok_ids rs))) s /\
  (forall fuel id err s',
      DiskViewer_Create E fuel s = Ret (id, err) s' ->
      match err with
      | None => id = Z.of_nat (length (ok_ids rs)) /\
                Pager_PageCount s' = Ret (id + 1) s'
      | Some _ => Pager_PageCount s' = Ret (Z.of_nat (length (ok_ids rs))) s'
      end).
Proof.
  intros Hps Hnew Hrun.
  apply New_inv in Hnew as (s1 & _ & _ & _ & _ & Hp & Hf).
  assert (Hinv0 : pager_inv (env_pagesize E) 0 s0).
  { unfold pager_inv. rewrite Hp, Hf. cbn. unfold max_int64 in *. repeat split; lia. }
  destruct (run_creates_spec E _ Hps fuels 0 s0 rs s Hinv0 Hrun) as (Hids & Hinv).
  rewrite Z.add_0_l in Hinv.
  assert (Hps0 : 0 < env_pagesize E) by lia.
  split; [exact Hids|]. split; [exact (PageCount_inv _ _ _ Hps0 Hinv)|].
  intros fuel id err s' Hc.
  destruct (Create_step E _ _ fuel s id err s' Hps Hinv Hc)
    as [(-> & -> & Hinv1)|(Hne & Hinv1)].
  - split; [reflexivity|exact (PageCount_inv _ _ _ Hps0 Hinv1)].
  - destruct err as [e|]; [|congruence].
    exact (PageCount_inv _ _ _ Hps0 Hinv1).
Qed.

Lemma create_ids_witness :
  exists s0 s,
    DiskViewer_New (quiet_env 4096) (mkConfig 2) (boot 0) = Ret None s0 /\
    run_creates (quiet_env 4096) [1; 1; 1]%nat s0
      = Ret [(0, None); (1, None); (2, None)] s /\
    Pager_PageCount s = Ret 3 s.
Proof.
  destruct (DiskViewer_New (quiet_env 4096) (mkConfig 2) (boot 0))
    as [[e|] s0| |] eqn:Hnew; try (vm_compute in Hnew; discriminate).
  destruct (run_creates (quiet_env 4096) [1; 1; 1]%nat s0) as [rs s| |] eqn:Hrun;
    try (vm_compute in Hnew; injection Hnew as <-; vm_compute in Hrun; discriminate).
  destruct (create_ids (quiet_env 4096) (mkConfig 2) [1; 1; 1]%nat s0 rs s)
    as (Hids & Hpc & _).
  - vm_compute. split; [reflexivity|discriminate].
  - exact Hnew.
  - exact Hrun.
  - assert (Hrs : rs = [(0, None); (1, None); (2, None)]).
    { vm_compute in Hnew. injection Hnew as <-. vm_compute in Hrun.
      injection Hrun as <- _. reflexivity. }
    subst rs. exists s0, s. split; [reflexivity|]. split; [exact Hrun|exact Hpc].
Defined.

(** ** Relational frames *)

Section Steps.

Variable R : St -> St -> Prop.
Hypothesis R_refl : forall s, R s s.
Hypothesis R_trans : forall s1 s2 s3, R s1 s2 -> R s2 s3 -> R s1 s3.

Lemma steps_ret {A} (a : A) : steps R (ret a).
Proof. intros s a' s' Hrun. unfold ret in Hrun. injection Hrun as _ <-. apply R_refl. Qed.

Lemma steps_gets {A} (f : St -> A) : steps R (gets f).
Proof. intros s a' s' Hrun. unfold gets in Hrun. injection Hrun as _ <-. apply R_refl. Qed.

Lemma steps_panic {A} : steps R (@panic A).
Proof. intros s a s' Hrun. discriminate Hrun. Qed.

Lemma steps_bind {A B} (m : M A) (k : A -> M B) :
  steps R m -> (forall a, steps R (k a)) -> steps R (bind m k).
Proof.
  intros Hm Hk s b s' Hrun. unfold bind in Hrun.
  destruct (m s) as [a s1| |] eqn:Hms; try discriminate.
  eapply R_trans; [eapply Hm; exact Hms|eapply Hk; exact Hrun].
Qed.

Lemma steps_if {A} (b : bool) (m1 m2 : M A) :
  steps R m1 -> steps R m2 -> steps R (if b then m1 else m2).
Proof. destruct b; auto. Qed.

Lemma steps_option {A B} (o : option B) (m1 : B -> M A) (m2 : M A) :
  (forall b, steps R (m1 b)) -> steps R m2 ->
  steps R (match o with Some b => m1 b | None => m2 end).
Proof. destruct o; auto. Qed.

End Steps.

Lemma same_cache_refl s : same_cache s s.
Proof. split; reflexivity. Qed.
Lemma same_cache_trans s1 s2 s3 :
  same_cache s1 s2 -> same_cache s2 s3 -> same_cache s1 s3.
Proof. intros [H1 H2] [H3 H4]. split; congruence. Qed.

Lemma trace_ext_refl s : trace_ext s s.
Proof. exists []. reflexivity. Qed.
Lemma trace_ext_trans s1 s2 s3 :
  trace_ext s1 s2 -> trace_ext s2 s3 -> trace_ext s1 s3.
Proof.
  intros [t1 H1] [t2 H2]. exists (t2 ++ t1). rewrite H2, H1, app_assoc. reflexivity.
Qed.

Lemma ok_to_ok_refl s : ok_to_ok s s.
Proof. intros H. exact H. Qed.
Lemma ok_to_ok_trans s1 s2 s3 :
  ok_to_ok s1 s2 -> ok_to_ok s2 s3 -> ok_to_ok s1 s3.
Proof. unfold ok_to_ok. auto. Qed.

Lemma heap_only_steps (R : St -> St -> Prop) {A} (m : M A) :
  (forall s h, R s (set_heap h s)) -> heap_only m -> steps R m.
Proof. intros HR Hm s a s' Hrun. destruct (Hm _ _ _ Hrun) as [h ->]. apply HR. Qed.

Lemma keeps_cache_ok {A} (m : M A) : keeps_cache m -> steps ok_to_ok m.
Proof.
  intros Hm s a s' Hrun Hok. destruct (Hm _ _ _ Hrun) as (Hh & Hn & Hc).
  eapply cache_ok_ext; eassumption.
Qed.

Lemma Cache_Get_steps_ok id : steps ok_to_ok (Cache_Get id).
Proof.
  intros s a s' Hrun Hok.
  destruct (Cache_Get_ok s id Hok) as (r & s1 & Hget & Hok1 & _).
  rewrite Hget in Hrun. injection Hrun as _ <-. exact Hok1.
Qed.

Lemma Cache_Set_steps_ok E id d : steps ok_to_ok (Cache_Set E id d).
Proof.
  intros s a s' Hrun Hok.
  destruct (Cache_Set_ok E s id d Hok) as (r & s1 & Hset & Hok1 & _).
  rewrite Hset in Hrun. injection Hrun as _ <-. exact Hok1.
Qed.

Lemma Read_steps_ok E id : steps ok_to_ok (DiskViewer_Read E id).
Proof.
  unfold DiskViewer_Read.
  apply (steps_bind _ ok_to_ok_trans); [apply Cache_Get_steps_ok|].
  intros [d [e|]]; [|apply (steps_ret _ ok_to_ok_refl)].
  apply (steps_bind _ ok_to_ok_trans);
    [apply keeps_cache_ok, keeps_cache_GetPage|].
  intros [r [e'|]]; [apply (steps_ret _ ok_to_ok_refl)|].
  apply (steps_bind _ ok_to_ok_trans); [apply Cache_Set_steps_ok|].
  intros [e''|]; [|apply (steps_ret _ ok_to_ok_refl)].
  apply (steps_bind _ ok_to_ok_trans);
    [apply keeps_cache_ok, keeps_cache_munmap|].
  intros _. apply (steps_ret _ ok_to_ok_refl).
Qed.

Lemma Create_steps_ok E fuel : steps ok_to_ok (DiskViewer_Create E fuel).
Proof.
  unfold DiskViewer_Create.
  apply (steps_bind _ ok_to_ok_trans); [apply (steps_gets _ ok_to_ok_refl)|].
  intros p.
  apply (steps_bind _ ok_to_ok_trans);
    [apply keeps_cache_ok, keeps_cache_PageCount|].
  intros pc.
  apply (steps_bind _ ok_to_ok_trans);
    [apply keeps_cache_ok, keeps_cache_create_loop|].
  intros [e|]; [apply (steps_ret _ ok_to_ok_refl)|].
  apply (steps_bind _ ok_to_ok_trans);
    [apply keeps_cache_ok, keeps_cache_RefreshInfo|].
  intros [e|]; [apply (steps_ret _ ok_to_ok_refl)|].
  apply (steps_bind _ ok_to_ok_trans);
    [apply keeps_cache_ok, keeps_cache_PageCount|].
  intros pc'.
  apply (steps_bind _ ok_to_ok_trans); [apply Cache_Get_steps_ok|].
  intros _.
  apply (steps_bind _ ok_to_ok_trans);
    [apply keeps_cache_ok, keeps_cache_PageCount|].
  intros pc''. apply (steps_ret _ ok_to_ok_refl).
Qed.

Lemma run_dv_steps_ok E ops : steps ok_to_ok (run_dv E ops).
Proof.
  induction ops as [|op ops IH]; cbn [run_dv].
  - apply (steps_ret _ ok_to_ok_refl).
  - apply (steps_bind _ ok_to_ok_trans); [|intros _; exact IH].
    destruct op as [id|fuel]; cbn [run_dv_op];
      (apply (steps_bind _ ok_to_ok_trans);
       [|intros _; apply (steps_ret _ ok_to_ok_refl)]).
    + apply Read_steps_ok.
    + apply Create_steps_ok.
Qed.

(** Every state a [DiskViewer] reaches from [New] through [Read] and
    [Create] has a well-formed cache. *)
Lemma dv_reach_ok E config sz ops s0 s :
  0 <= MaxCapacity config ->
  DiskViewer_New E config (boot sz) = Ret None s0 ->
  run_dv E ops s0 = Ret tt s ->
  cache_ok s.
Proof.
  intros Hcap Hnew Hrun.
  apply New_inv in Hnew as (s1 & Hnc & Hh & Hn & Hc & _).
  destruct (NewCache_ok config (boot sz) Hcap) as (s1' & Hnc' & Hok1 & _).
  rewrite Hnc in Hnc'. injection Hnc' as <-.
  apply (run_dv_steps_ok E ops s0 tt s Hrun).
  eapply cache_ok_ext; eassumption.
Qed.

(** ** [Create] and the cache *)

Lemma WriteAt_same_cache E count off : steps same_cache (WriteAt E count off).
Proof.
  intros s a s' Hrun. unfold WriteAt in Hrun.
  destruct (off <? 0); [ret_inj|].
  destruct (env_write E (trace s) count off) as [k err]. ret_inj.
Qed.

Lemma create_loop_same_cache E fuel : forall remaining offset,
  steps same_cache (create_loop E fuel remaining offset).
Proof.
  induction fuel as [|fuel IH]; intros remaining offset; cbn [create_loop].
  - destruct (0 <? remaining);
      [intros s a s' Hrun; ret_inj|apply (steps_ret _ same_cache_refl)].
  - destruct (0 <? remaining); [|apply (steps_ret _ same_cache_refl)].
    apply (steps_bind _ same_cache_trans); [apply WriteAt_same_cache|].
    intros [n [e|]]; [apply (steps_ret _ same_cache_refl)|apply IH].
Qed.

Lemma PageCount_same_cache : steps same_cache Pager_PageCount.
Proof.
  unfold Pager_PageCount.
  apply (steps_bind _ same_cache_trans); [apply (steps_gets _ same_cache_refl)|].
  intros p. apply (steps_if _); [apply steps_panic|apply (steps_ret _ same_cache_refl)].
Qed.

Lemma RefreshInfo_same_cache E : steps same_cache (Pager_RefreshInfo E).
Proof.
  intros s r s' Hrun.
  apply RefreshInfo_inv in Hrun as [(e & -> & ->)|(-> & ->)]; split; reflexivity.
Qed.

Lemma Cache_Get_same_cache id : steps same_cache (Cache_Get id).
Proof.
  apply heap_only_steps; [|apply heap_only_Cache_Get].
  intros s h. split; reflexivity.
Qed.

Lemma Create_same_cache E fuel : steps same_cache (DiskViewer_Create E fuel).
Proof.
  unfold DiskViewer_Create.
  apply (steps_bind _ same_cache_trans); [apply (steps_gets _ same_cache_refl)|].
  intros p.
  apply (steps_bind _ same_cache_trans); [apply PageCount_same_cache|].
  intros pc.
  apply (steps_bind _ same_cache_trans); [apply create_loop_same_cache|].
  intros [e|]; [apply (steps_ret _ same_cache_refl)|].
  apply (steps_bind _ same_cache_trans); [apply RefreshInfo_same_cache|].
  intros [e|]; [apply (steps_ret _ same_cache_refl)|].
  apply (steps_bind _ same_cache_trans); [apply PageCount_same_cache|].
  intros pc'.
  apply (steps_bind _ same_cache_trans); [apply Cache_Get_same_cache|].
  intros _.
  apply (steps_bind _ same_cache_trans); [apply PageCount_same_cache|].
  intros pc''. apply (steps_ret _ same_cache_refl).
Qed.

(** What [Create] returns on success is computed from the pager alone. *)
Lemma Create_returns_count E fuel s id s' :
  DiskViewer_Create E fuel s = Ret (id, None) s' ->
  exists pc, Pager_PageCount s' = Ret pc s' /\ id = wrap64 (pc - 1).
Proof.
  unfold DiskViewer_Create. unfold bind at 1, gets at 1. unfold bind at 1.
  destruct (Pager_PageCount s) as [pc0 sa| |]; try discriminate.
  unfold bind at 1.
  destruct (create_loop E fuel _ _ sa) as [[e|] s1| |]; try discriminate.
  unfold bind at 1.
  destruct (Pager_RefreshInfo E s1) as [[e|] s2| |]; try discriminate.
  unfold bind at 1.
  destruct (Pager_PageCount s2) as [pc s2'| |]; try discriminate.
  unfold bind at 1.
  destruct (Cache_Get (wrap64 (pc - 1)) s2') as [g s3| |]; try discriminate.
  unfold bind at 1.
  destruct (Pager_PageCount s3) as [pc' s3'| |] eqn:Hpc; try discriminate.
  unfold ret. intros Hrun. injection Hrun as <- <-.
  exists pc'. split; [|reflexivity].
  unfold Pager_PageCount, bind, gets in Hpc |- *.
  destruct (p_pageSize (pager s3) =? 0) eqn:Hz; [discriminate|].
  unfold ret in Hpc. injection Hpc as <- <-. rewrite Hz. reflexivity.
Qed.

(** C3, the claim as stated, fails: on a fresh viewer [Create] succeeds with
    id 0 and the cache holds no entry for page 0 afterwards, whereas an
    immediate [Read 0] maps the page and caches it. *)
Lemma create_does_not_warm :
  exists s0 s s',
    DiskViewer_New (quiet_env 4096) (mkConfig 2) (boot 0) = Ret None s0 /\
    DiskViewer_Create (quiet_env 4096) 1 s0 = Ret (0, None) s /\
    c_lookup (cache s) !! 0 = None /\
    recency s = [] /\
    DiskViewer_Read (quiet_env 4096) 0 s = Ret (Some 0%nat, None) s' /\
    is_Some (c_lookup (cache s') !! 0) /\
    recency s' = [(0, Some 0%nat)].
Proof.
  eexists _, _, _.
  split; [vm_compute; reflexivity|].
  split; [vm_compute; reflexivity|].
  split; [vm_compute; reflexivity|].
  split; [vm_compute; reflexivity|].
  split; [vm_compute; reflexivity|].
  split; [vm_compute; eauto|].
  vm_compute; reflexivity.
Qed.

(** C3, amended.  The cache step of a successful [Create] is a lookup
    ([Cache.Get]) of the new id and nothing more: the call leaves the lookup
    map, the sentinels and the configuration of the cache as they were and
    maps no region, so the cache holds an entry for the new id afterwards
    exactly when it held one before; the id returned is the refreshed page
    count minus one, whatever the lookup answered. *)
Theorem create_only_looks_up E fuel s id s' :
  DiskViewer_Create E fuel s = Ret (id, None) s' ->
  cache s' = cache s /\
  nregion s' = nregion s /\
  (is_Some (c_lookup (cache s') !! id) <-> is_Some (c_lookup (cache s) !! id)) /\
  exists pc, Pager_PageCount s' = Ret pc s' /\ id = wrap64 (pc - 1).
Proof.
  intros Hrun.
  destruct (Create_same_cache E fuel s _ s' Hrun) as [Hc Hn].
  split; [exact Hc|]. split; [exact Hn|]. split; [rewrite Hc; tauto|].
  eapply Create_returns_count. exact Hrun.
Qed.

Lemma create_only_looks_up_witness :
  exists s0 s,
    DiskViewer_New (quiet_env 4096) (mkConfig 2) (boot 0) = Ret None s0 /\
    DiskViewer_Create (quiet_env 4096) 1 s0 = Ret (0, None) s /\
    cache s = cache s0 /\ nregion s = nregion s0.
Proof.
  destruct (DiskViewer_New (quiet_env 4096) (mkConfig 2) (boot 0))
    as [[e|] s0| |] eqn:Hnew; try (vm_compute in Hnew; discriminate).
  destruct (DiskViewer_Create (quiet_env 4096) 1 s0) as [[id [e|]] s| |] eqn:Hc;
    try (vm_compute in Hnew; injection Hnew as <-; vm_compute in Hc; discriminate).
  assert (Hid : id = 0).
  { vm_compute in Hnew. injection Hnew as <-. vm_compute in Hc.
    injection Hc as <- _. reflexivity. }
  subst id.
  destruct (create_only_looks_up (quiet_env 4096) 1%nat s0 0 s Hc) as (H1 & H2 & _).
  exists s0, s. repeat split; assumption.
Defined.

(** ** The page count *)

(** C8, the claim as stated, fails for the Pager the [DiskViewer] uses: a
    write of one page into the empty file is not reflected by the next
    [PageCount], which still answers from the cached file information. *)
Lemma page_count_is_stale :
  exists s0 s,
    DiskViewer_New (quiet_env 4096) (mkConfig 2) (boot 0) = Ret None s0 /\
    fill (quiet_env 4096) 4096 0 s0 = Ret (4096, None) s /\
    fsize s = 4096 /\
    Z.quot (fsize s) (p_pageSize (pager s)) = 1 /\
    Pager_PageCount s = Ret 0 s.
Proof.
  eexists _, _.
  split; [vm_compute; reflexivity|].
  split; [vm_compute; reflexivity|].
  split; [vm_compute; reflexivity|].
  split; vm_compute; reflexivity.
Qed.

(** C8, amended.  [PageCount] of the Pager the [DiskViewer] uses is the
    truncated quotient of the size recorded in the cached file information
    by the page size, so a trailing partial page of that size is not
    counted; a write leaves the answer as it was, and after a successful
    [RefreshInfo] the answer is the quotient of the file's actual size.  The
    variant of the Pager that stats the file on every call answers the
    quotient of the actual size when the stat succeeds and the stat's error
    with count 0 otherwise. *)
Theorem page_count_cached E s :
  p_pageSize (pager s) <> 0 ->
  let ps := p_pageSize (pager s) in
  Pager_PageCount s = Ret (Z.quot (Size (p_info (pager s))) ps) s /\
  (0 < ps -> 0 <= Size (p_info (pager s)) ->
   let pc := Z.quot (Size (p_info (pager s))) ps in
   pc * ps <= Size (p_info (pager s)) < (pc + 1) * ps) /\
  (forall count offset r s',
      WriteAt E count offset s = Ret r s' ->
      Pager_PageCount s' = Ret (Z.quot (Size (p_info (pager s))) ps) s') /\
  (forall s',
      Pager_RefreshInfo E s = Ret None s' ->
      fsize s' = fsize s /\
      Pager_PageCount s' = Ret (Z.quot (fsize s') ps) s') /\
  (env_stat E (trace s) = None ->
   Pager2_PageCount E s =
   Ret (Z.quot (fsize s) ps, None) (set_trace (EvStat :: trace s) s)) /\
  (forall e, env_stat E (trace s) = Some e ->
             Pager2_PageCount E s = Ret (0, Some e) s).
Proof.
  intros Hps ps. split; [apply PageCount_eq; exact Hps|].
  split; [|split; [|split; [|split]]].
  - intros Hpos Hsz pc. subst pc.
    pose proof (Z.quot_rem' (Size (p_info (pager s))) ps) as Hqr.
    pose proof (Z.rem_bound_pos (Size (p_info (pager s))) ps Hsz Hpos) as Hr.
    lia.
  - intros count offset r s' Hw.
    assert (Hp : pager s' = pager s).
    { unfold WriteAt in Hw. destruct (offset <? 0); [ret_inj|].
      destruct (env_write E (trace s) count offset) as [k err]. ret_inj. }
    rewrite PageCount_eq by (rewrite Hp; exact Hps). rewrite Hp. reflexivity.
  - intros s' Href.
    apply RefreshInfo_inv in Href as [(e & He & _)|(_ & ->)]; [discriminate|].
    split; [reflexivity|]. rewrite PageCount_eq by exact Hps. reflexivity.
  - intros Hst. unfold Pager2_PageCount, bind, Stat, gets, ret. rewrite Hst. stn.
    destruct (Z.eqb_spec (p_pageSize (pager s)) 0); [contradiction|reflexivity].
  - intros e Hst. unfold Pager2_PageCount, bind, Stat, ret. rewrite Hst. reflexivity.
Qed.

Lemma page_count_cached_witness :
  Pager_PageCount
    (set_pager (mkPager (mkInfo 10000) 4096) (boot 10000)) =
  Ret 2 (set_pager (mkPager (mkInfo 10000) 4096) (boot 10000)).
Proof.
  destruct (page_count_cached (quiet_env 4096)
              (set_pager (mkPager (mkInfo 10000) 4096) (boot 10000)))
    as (Hpc & _).
  - simpl. discriminate.
  - exact Hpc.
Defined.

(** ** The trace only grows *)

Lemma te_ret {A} (a : A) : steps trace_ext (ret a).
Proof. apply steps_ret, trace_ext_refl. Qed.

Lemma te_gets {A} (f : St -> A) : steps trace_ext (gets f).
Proof. apply steps_gets, trace_ext_refl. Qed.

Lemma te_bind {A B} (m : M A) (k : A -> M B) :
  steps trace_ext m -> (forall a, steps trace_ext (k a)) ->
  steps trace_ext (bind m k).
Proof. apply steps_bind, trace_ext_trans. Qed.

Lemma te_heap_only {A} (m : M A) : heap_only m -> steps trace_ext m.
Proof. apply heap_only_steps. intros s h. exists []. reflexivity. Qed.

Lemma te_modify f :
  (forall s, trace (f s) = trace s) -> steps trace_ext (modify f).
Proof.
  intros Hf s a s' Hrun. unfold modify in Hrun. injection Hrun as Hs.
  subst s'. exists []. apply Hf.
Qed.

Lemma te_alloc n : steps trace_ext (alloc n).
Proof.
  intros s a s' Hrun. unfold alloc in Hrun. injection Hrun as _ Hs.
  subst s'. exists []. reflexivity.
Qed.

Lemma te_munmap E m : steps trace_ext (munmap E m).
Proof.
  intros s a s' Hrun. unfold munmap in Hrun. injection Hrun as _ Hs.
  subst s'. exists [EvUnmap m]. reflexivity.
Qed.

Lemma te_MapRegion E off : steps trace_ext (MapRegion E off).
Proof.
  intros s a s' Hrun. unfold MapRegion in Hrun.
  destruct (env_mmap E (trace s) off); injection Hrun as _ Hs; subst s'.
  - exists []. reflexivity.
  - exists [EvMap off (nregion s)]. reflexivity.
Qed.

Lemma te_Stat E : steps trace_ext (Stat E).
Proof.
  intros s a s' Hrun. unfold Stat in Hrun.
  destruct (env_stat E (trace s)); injection Hrun as _ Hs; subst s'.
  - exists []. reflexivity.
  - exists [EvStat]. reflexivity.
Qed.

Lemma te_WriteAt E count off : steps trace_ext (WriteAt E count off).
Proof.
  intros s [n err] s' Hrun. unfold WriteAt in Hrun.
  destruct (off <? 0); [injection Hrun as _ _ Hs; subst s'; exists []; reflexivity|].
  destruct (env_write E (trace s) count off) as [k e].
  injection Hrun as _ _ Hs. subst s'. eexists [_]. reflexivity.
Qed.

Lemma te_insertAtFront node : steps trace_ext (insertAtFront node).
Proof.
  apply te_heap_only.
  unfold insertAtFront, get_next, get_prev, set_next, set_prev. auto 30 with frame.
Qed.

Lemma te_removeFromBack : steps trace_ext removeFromBack.
Proof.
  apply te_heap_only.
  unfold removeFromBack, get_next, get_prev, set_next, set_prev. auto 30 with frame.
Qed.

Lemma te_Unmap_data E p : steps trace_ext (Unmap_data E p).
Proof.
  unfold Unmap_data.
  apply te_bind; [apply te_heap_only, heap_only_load|]. intros n.
  apply te_bind; [apply te_munmap|]. intros e.
  apply te_bind; [apply te_heap_only; unfold set_data; auto with frame|].
  intros _. apply te_ret.
Qed.

Lemma te_set_lookup f : steps trace_ext (set_lookup f).
Proof. apply te_modify. reflexivity. Qed.

Lemma te_Cache_Set E id d : steps trace_ext (Cache_Set E id d).
Proof.
  unfold Cache_Set. apply te_bind; [apply te_gets|]. intros c.
  destruct (c_lookup c !! id) as [l|].
  - apply te_bind; [apply te_heap_only; unfold set_data; auto with frame|].
    intros _. apply te_bind; [apply te_heap_only, heap_only_moveToFront|].
    intros _. apply te_ret.
  - apply te_bind.
    + destruct (MaxCapacity (c_config c) <=? Z.of_nat (size (c_lookup c)));
        [|apply te_ret].
      apply te_bind; [apply te_removeFromBack|]. intros node.
      apply te_bind; [apply te_Unmap_data|]. intros err.
      apply te_bind; [apply te_heap_only, heap_only_load|]. intros n.
      apply te_bind; [apply te_set_lookup|]. intros _. apply te_ret.
    + intros err. apply te_bind; [apply te_alloc|]. intros node.
      apply te_bind; [apply te_insertAtFront|]. intros _.
      apply te_bind; [apply te_set_lookup|]. intros _. apply te_ret.
Qed.

Lemma te_Read E id : steps trace_ext (DiskViewer_Read E id).
Proof.
  unfold DiskViewer_Read.
  apply te_bind; [apply te_heap_only, heap_only_Cache_Get|].
  intros [d [e|]]; [|apply te_ret].
  apply te_bind.
  { unfold Pager_GetPage. apply te_bind; [apply te_gets|]. intros p.
    apply te_MapRegion. }
  intros [r [e'|]]; [apply te_ret|].
  apply te_bind; [apply te_Cache_Set|].
  intros [e''|]; [|apply te_ret].
  apply te_bind; [apply te_munmap|]. intros _. apply te_ret.
Qed.

Lemma te_PageCount : steps trace_ext Pager_PageCount.
Proof.
  unfold Pager_PageCount. apply te_bind; [apply te_gets|]. intros p.
  destruct (p_pageSize p =? 0); [apply steps_panic|apply te_ret].
Qed.

Lemma te_create_loop E fuel : forall remaining offset,
  steps trace_ext (create_loop E fuel remaining offset).
Proof.
  induction fuel as [|fuel IH]; intros remaining offset; cbn [create_loop].
  - destruct (0 <? remaining); [intros s a s' Hrun; discriminate|apply te_ret].
  - destruct (0 <? remaining); [|apply te_ret].
    apply te_bind; [apply te_WriteAt|].
    intros [n [e|]]; [apply te_ret|apply IH].
Qed.

Lemma te_RefreshInfo E : steps trace_ext (Pager_RefreshInfo E).
Proof.
  unfold Pager_RefreshInfo. apply te_bind; [apply te_Stat|].
  intros [info [e|]]; [apply te_ret|].
  apply te_bind; [apply te_gets|]. intros p.
  apply te_bind; [apply te_modify; reflexivity|]. intros _. apply te_ret.
Qed.

Lemma te_Create E fuel : steps trace_ext (DiskViewer_Create E fuel).
Proof.
  unfold DiskViewer_Create. apply te_bind; [apply te_gets|]. intros p.
  apply te_bind; [apply te_PageCount|]. intros pc.
  apply te_bind; [apply te_create_loop|].
  intros [e|]; [apply te_ret|].
  apply te_bind; [apply te_RefreshInfo|].
  intros [e|]; [apply te_ret|].
  apply te_bind; [apply te_PageCount|]. intros pc'.
  apply te_bind; [apply te_heap_only, heap_only_Cache_Get|]. intros _.
  apply te_bind; [apply te_PageCount|]. intros pc''. apply te_ret.
Qed.

Lemma te_run_dv E ops : steps trace_ext (run_dv E ops).
Proof.
  induction ops as [|op ops IH]; cbn [run_dv]; [apply te_ret|].
  apply te_bind; [|intros _; exact IH].
  destruct op as [id|fuel]; cbn [run_dv_op];
    (apply te_bind; [|intros _; apply te_ret]).
  - apply te_Read.
  - apply te_Create.
Qed.

(** ** [Read] *)

Lemma dl_node h es : forall p q e,
  dl h p es q -> e ∈ es ->
  exists nx pv, h !! eloc e = Some (mkNode (eid e) (edata e) nx pv).
Proof.
  induction es as [|x es IH]; intros p q e Hdl Hin.
  - apply elem_of_nil in Hin. contradiction.
  - cbn [dl] in Hdl. destruct Hdl as [Hx Hdl].
    apply elem_of_cons in Hin as [->|Hin]; [eauto|].
    eapply IH; eassumption.
Qed.

Lemma rep_node s es e :
  cache_rep s es -> e ∈ es ->
  exists nx pv, heap s !! eloc e = Some (mkNode (eid e) (edata e) nx pv).
Proof.
  intros (H & T & _ & _ & Hdl & _) Hin.
  eapply dl_node; [exact Hdl|].
  rewrite elem_of_cons, elem_of_app. tauto.
Qed.

(** [Set] of an id that is not cached, on a well-formed cache. *)
Lemma Cache_Set_miss_ok E s id d :
  cache_ok s -> c_lookup (cache s) !! id = None ->
  exists err s',
    Cache_Set E id d s = Ret err s' /\ cache_ok s' /\
    head (recency s') = Some (id, d) /\
    is_Some (c_lookup (cache s') !! id) /\
    ((err = None /\ trace s' = trace s) \/
     (exists lid ldata,
         last (recency s) = Some (lid, ldata) /\
         err = env_unmap E (trace s) ldata /\
         trace s' = EvUnmap ldata :: trace s)).
Proof.
  intros (es & Hrep & Hcap & Hlen) Hmiss.
  pose proof (lookup_None_ids _ _ _ Hrep Hmiss) as Hnin.
  destruct (Z.lt_ge_cases (Z.of_nat (length es)) (MaxCapacity (c_config (cache s))))
    as [Hroom|Hfull].
  - destruct (Cache_Set_miss_room E s es id d Hrep Hnin Hroom)
      as (s' & Hset & Hrep' & Hevo).
    destruct Hevo as (_ & _ & _ & Hc & Ht).
    exists None, s'. split; [exact Hset|]. split; [|split; [|split]].
    + eexists. split; [exact Hrep'|]. rewrite Hc. split; [exact Hcap|].
      cbn [length]. lia.
    + rewrite (recency_rep _ _ Hrep'). reflexivity.
    + apply (rep_lookup_iff _ _ _ Hrep'). rewrite fmap_cons. apply list_elem_of_here.
    + left. auto.
  - destruct es as [|L A _] using rev_ind; [simpl in Hfull; lia|].
    destruct (Cache_Set_miss_full E s A L id d Hrep Hnin Hfull)
      as (s' & Hset & Hrep' & Hevo).
    destruct Hevo as (_ & _ & _ & Hc & Ht).
    eexists _, s'. split; [exact Hset|]. split; [|split; [|split]].
    + eexists. split; [exact Hrep'|]. rewrite Hc. split; [exact Hcap|].
      rewrite length_app in Hlen. cbn [length] in Hlen |- *. lia.
    + rewrite (recency_rep _ _ Hrep'). reflexivity.
    + apply (rep_lookup_iff _ _ _ Hrep'). rewrite fmap_cons. apply list_elem_of_here.
    + right. exists (eid L), (edata L). split; [|split; [reflexivity|exact Ht]].
      rewrite (recency_rep _ _ Hrep), fmap_app. cbn [fmap list_fmap].
      apply last_snoc.
Qed.

Lemma GetPage_inv E id s r err s1 :
  Pager_GetPage E id s = Ret (r, err) s1 ->
  heap s1 = heap s /\ nalloc s1 = nalloc s /\ cache s1 = cache s /\
  match err with
  | Some e =>
      env_mmap E (trace s) (wrap64 (id * p_pageSize (pager s))) = Some e /\
      r = None /\ s1 = s
  | None =>
      env_mmap E (trace s) (wrap64 (id * p_pageSize (pager s))) = None /\
      r = Some (nregion s) /\
      trace s1 = EvMap (wrap64 (id * p_pageSize (pager s))) (nregion s) :: trace s
  end.
Proof.
  unfold Pager_GetPage, bind, gets, MapRegion. intros Hrun.
  destruct (env_mmap E (trace s) (wrap64 (id * p_pageSize (pager s)))) as [e|];
    injection Hrun as <- <- <-; repeat split; reflexivity.
Qed.

Lemma Read_unfold_miss E id s :
  c_lookup (cache s) !! id = None ->
  DiskViewer_Read E id s =
  (r <- Pager_GetPage E id ;;
   match r with
   | (_, Some err) => ret (None, Some err)
   | (data, None) =>
       err <- Cache_Set E id data ;;
       match err with
       | Some e => munmap E data ;;; ret (None, Some e)
       | None => ret (data, None)
       end
   end) s.
Proof.
  intros Hmiss. unfold DiskViewer_Read.
  rewrite (bind_Ret _ _ _ _ _ (Cache_Get_miss_lookup s id Hmiss)). reflexivity.
Qed.

(** C2. In every state a [DiskViewer] reaches: when the cache holds an entry
    for [id], [Read id] returns the region of that entry, maps nothing and
    promotes the entry; otherwise it asks [Pager.GetPage], and answers its
    error if it fails; if it yields a fresh region, that region is passed to
    [Cache.Set], which puts it at the front of the cache; [Read] then returns
    the region when [Set] reports no error, and when [Set] reports an error
    [Read] unmaps the fresh region and returns that error and no region. *)
Theorem read_spec E config sz ops s0 s id :
  0 <= MaxCapacity config ->
  DiskViewer_New E config (boot sz) = Ret None s0 ->
  run_dv E ops s0 = Ret tt s ->
  (forall l, c_lookup (cache s) !! id = Some l ->
     exists n s',
       heap s !! l = Some n /\ n_id n = id /\
       DiskViewer_Read E id s = Ret (n_data n, None) s' /\
       trace s' = trace s /\ nregion s' = nregion s /\
       c_lookup (cache s') = c_lookup (cache s) /\
       head (recency s') = Some (id, n_data n)) /\
  (c_lookup (cache s) !! id = None ->
     (forall r e s1,
         Pager_GetPage E id s = Ret (r, Some e) s1 ->
         DiskViewer_Read E id s = Ret (None, Some e) s1 /\ s1 = s) /\
     (forall r s1,
         Pager_GetPage E id s = Ret (r, None) s1 ->
         r = Some (nregion s) /\
         trace s1 = EvMap (wrap64 (id * p_pageSize (pager s))) (nregion s) :: trace s /\
         exists err s2,
           Cache_Set E id r s1 = Ret err s2 /\
           head (recency s2) = Some (id, r) /\
           is_Some (c_lookup (cache s2) !! id) /\
           match err with
           | None => DiskViewer_Read E id s = Ret (r, None) s2
           | Some e =>
               DiskViewer_Read E id s =
               Ret (None, Some e) (set_trace (EvUnmap r :: trace s2) s2)
           end)).
Proof.
  intros Hcap Hnew Hrun.
  pose proof (dv_reach_ok E config sz ops s0 s Hcap Hnew Hrun) as Hok.
  split.
  - intros l Hl. destruct Hok as (es & Hrep & _).
    assert (Hin : id ∈ eid <$> es) by (apply (rep_lookup_iff _ _ _ Hrep); eauto).
    destruct (elem_of_ids_split _ _ Hin) as (A & e & B & -> & <-).
    assert (He : e ∈ A ++ e :: B) by (rewrite elem_of_app, elem_of_cons; tauto).
    rewrite (rep_lookup_Some _ _ e Hrep He) in Hl. injection Hl as <-.
    destruct (rep_node _ _ _ Hrep He) as (nx & pv & Hn).
    destruct (Cache_Get_hit s A e B Hrep) as (h' & Hget & Hrep').
    eexists _, (set_heap h' s). split; [exact Hn|]. cbn [n_id n_data].
    split; [reflexivity|]. split.
    { unfold DiskViewer_Read. rewrite (bind_Ret _ _ _ _ _ Hget). reflexivity. }
    repeat split. rewrite (recency_rep _ _ Hrep'). reflexivity.
  - intros Hmiss. split.
    + intros r e s1 Hgp. pose proof (GetPage_inv _ _ _ _ _ _ Hgp) as (_ & _ & _ & _ & -> & ->).
      split; [|reflexivity].
      rewrite (Read_unfold_miss E id s Hmiss), (bind_Ret _ _ _ _ _ Hgp). reflexivity.
    + intros r s1 Hgp.
      pose proof (GetPage_inv _ _ _ _ _ _ Hgp) as (Hh & Hn & Hc & _ & -> & Ht).
      split; [reflexivity|]. split; [exact Ht|].
      assert (Hok1 : cache_ok s1) by (eapply cache_ok_ext; eassumption).
      assert (Hmiss1 : c_lookup (cache s1) !! id = None) by (rewrite Hc; exact Hmiss).
      destruct (Cache_Set_miss_ok E s1 id (Some (nregion s)) Hok1 Hmiss1)
        as (err & s2 & Hset & _ & Hhd & Hin & _).
      exists err, s2. split; [exact Hset|]. split; [exact Hhd|]. split; [exact Hin|].
      rewrite (Read_unfold_miss E id s Hmiss), (bind_Ret _ _ _ _ _ Hgp).
      rewrite (bind_Ret _ _ _ _ _ Hset). destruct err as [e|]; reflexivity.
Qed.

Lemma read_spec_witness :
  exists s0 s s',
    DiskViewer_New (quiet_env 4096) (mkConfig 2) (boot 0) = Ret None s0 /\
    run_dv (quiet_env 4096) [DvCreate 1] s0 = Ret tt s /\
    DiskViewer_Read (quiet_env 4096) 0 s = Ret (Some 0%nat, None) s'.
Proof.
  destruct (DiskViewer_New (quiet_env 4096) (mkConfig 2) (boot 0))
    as [[e|] s0| |] eqn:Hnew; try (vm_compute in Hnew; discriminate).
  destruct (run_dv (quiet_env 4096) [DvCreate 1] s0) as [[] s| |] eqn:Hrun;
    try (vm_compute in Hnew; injection Hnew as <-; vm_compute in Hrun; discriminate).
  destruct (read_spec (quiet_env 4096) (mkConfig 2) 0 [DvCreate 1] s0 s 0)
    as (_ & Hmiss).
  - simpl. lia.
  - exact Hnew.
  - exact Hrun.
  - assert (Hl : c_lookup (cache s) !! 0 = None).
    { vm_compute in Hnew. injection Hnew as <-. vm_compute in Hrun.
      injection Hrun as <-. vm_compute. reflexivity. }
    destruct (Hmiss Hl) as (_ & Hfresh).
    destruct (Pager_GetPage (quiet_env 4096) 0 s) as [[r [e|]] s1| |] eqn:Hgp;
      try (unfold Pager_GetPage, bind, gets, MapRegion in Hgp; simpl in Hgp;
           discriminate).
    destruct (Hfresh r s1 eq_refl) as (Hr & _ & err & s2 & Hset & _ & _ & Hread).
    assert (Hn : nregion s = 0%nat).
    { vm_compute in Hnew. injection Hnew as <-. vm_compute in Hrun.
      injection Hrun as <-. reflexivity. }
    rewrite Hn in Hr. subst r.
    destruct err as [e|].
    + exfalso.
      destruct (te_Cache_Set (quiet_env 4096) 0 (Some 0%nat) s1 _ s2 Hset) as [t Ht].
      clear Hread Hfresh Hmiss.
      vm_compute in Hnew. injection Hnew as <-. vm_compute in Hrun.
      injection Hrun as <-. vm_compute in Hgp. injection Hgp as <-.
      vm_compute in Hset. discriminate.
    + exists s0, s, s2. split; [reflexivity|]. split; [exact Hrun|exact Hread].
Defined.

(** ** Closing the cache *)

Lemma close_loop_spec E vs : forall s fe,
  NoDup vs -> (forall v, v ∈ vs -> is_Some (heap s !! v)) ->
  exists err s' t,
    close_loop E vs fe s = Ret err s' /\
    trace s' = t ++ trace s /\
    (forall v n, v ∈ vs -> heap s !! v = Some n -> EvUnmap (n_data n) ∈ t).
Proof.
  induction vs as [|v vs IH]; intros s fe Hnd Hall.
  - exists fe, s, []. split; [reflexivity|]. split; [reflexivity|].
    intros v n Hin. apply elem_of_nil in Hin. contradiction.
  - apply NoDup_cons in Hnd as [Hv Hnd].
    destruct (Hall v (list_elem_of_here _ _)) as [n Hn].
    cbn [close_loop].
    rewrite (bind_Ret _ _ _ _ _ (Unmap_data_eq E s v n Hn)).
    erewrite bind_Ret; [|apply load_eq; stn; apply lookup_insert_eq].
    erewrite bind_Ret; [|apply set_next_eq; stn; apply lookup_insert_eq].
    erewrite bind_Ret; [|apply set_prev_eq; stn; apply lookup_insert_eq].
    cbn [n_id n_data n_next n_prev]. stn.
    match goal with
    | |- context [close_loop E vs ?fe' ?s2] =>
        destruct (IH s2 fe' Hnd) as (err & s' & t & Hrun & Ht & Hin)
    end.
    { intros v' Hv'. stn. rewrite !lookup_insert_ne by (intros ->; contradiction).
      apply Hall. apply list_elem_of_further. exact Hv'. }
    exists err, s', (t ++ [EvUnmap (n_data n)]).
    split; [exact Hrun|]. split.
    { rewrite Ht. stn. rewrite <- app_assoc. reflexivity. }
    intros v' n' Hv' Hn'. rewrite elem_of_app.
    apply elem_of_cons in Hv' as [->|Hv'].
    + right. rewrite Hn in Hn'. injection Hn' as <-. apply list_elem_of_here.
    + left. apply (Hin v' n' Hv'). stn.
      rewrite !lookup_insert_ne by (intros ->; contradiction). exact Hn'.
Qed.

Lemma kv_snd es : (kv <$> es).*2 = eloc <$> es.
Proof. rewrite <- list_fmap_compose. reflexivity. Qed.

Lemma Cache_Close_spec E s es :
  (forall m, env_range E m ≡ₚ map_to_list m) ->
  cache_rep s es ->
  exists err s' t,
    Cache_Close E s = Ret err s' /\
    trace s' = t ++ trace s /\
    (forall e, e ∈ es -> EvUnmap (edata e) ∈ t).
Proof.
  intros Hrange Hrep.
  pose proof Hrep as (H & T & _ & _ & _ & Hnd & _ & Hlk & Hid).
  assert (Hperm : (env_range E (c_lookup (cache s))).*2 ≡ₚ eloc <$> es).
  { rewrite Hrange, Hlk, map_to_list_to_map by (rewrite kv_fst; exact Hid).
    rewrite kv_snd. reflexivity. }
  assert (Hnd' : NoDup (eloc <$> es)).
  { rewrite fmap_cons, fmap_app in Hnd. apply NoDup_cons in Hnd as [_ Hnd].
    apply NoDup_app in Hnd as (Hnd & _). exact Hnd. }
  destruct (close_loop_spec E ((env_range E (c_lookup (cache s))).*2) s None)
    as (err & s1 & t & Hrun & Ht & Hin).
  { rewrite Hperm. exact Hnd'. }
  { intros v Hv. rewrite Hperm in Hv.
    apply list_elem_of_fmap in Hv as (e & -> & He).
    destruct (rep_node _ _ _ Hrep He) as (nx & pv & Hn). eauto. }
  eexists err, _, t. split; [|split].
  - unfold Cache_Close. unfold bind at 1, gets at 1.
    rewrite (bind_Ret _ _ _ _ _ Hrun). reflexivity.
  - stn. exact Ht.
  - intros e He. destruct (rep_node _ _ _ Hrep He) as (nx & pv & Hn).
    apply (Hin (eloc e) (mkNode (eid e) (edata e) nx pv)); [|exact Hn].
    rewrite Hperm. apply list_elem_of_fmap_2. exact He.
Qed.

(** C9. In every state a [DiskViewer] reaches, when [Read id] misses, maps a
    fresh region [r] and [Cache.Set] answers an error: that error is the
    answer of the unmap of the evicted, least recently used region, and the
    new entry is already at the front of the cache; [Read] unmaps [r] and
    returns the error with no region; the cache is left holding the entry
    [(id, r)] although [r] is unmapped; a later [Close] of the cache unmaps
    [r] again, and so does a later eviction of that entry. *)
Theorem read_set_error E config sz ops s0 s id r s1 e s2 :
  0 <= MaxCapacity config ->
  DiskViewer_New E config (boot sz) = Ret None s0 ->
  run_dv E ops s0 = Ret tt s ->
  c_lookup (cache s) !! id = None ->
  Pager_GetPage E id s = Ret (r, None) s1 ->
  Cache_Set E id r s1 = Ret (Some e) s2 ->
  let s3 := set_trace (EvUnmap r :: trace s2) s2 in
  (exists lid ldata,
      last (recency s1) = Some (lid, ldata) /\
      env_unmap E (trace s1) ldata = Some e /\
      trace s2 = EvUnmap ldata :: trace s1) /\
  head (recency s2) = Some (id, r) /\
  DiskViewer_Read E id s = Ret (None, Some e) s3 /\
  head (recency s3) = Some (id, r) /\
  is_Some (c_lookup (cache s3) !! id) /\
  head (trace s3) = Some (EvUnmap r) /\
  ((forall m, env_range E m ≡ₚ map_to_list m) ->
   exists err s4 t,
     Cache_Close E s3 = Ret err s4 /\
     trace s4 = t ++ trace s3 /\ EvUnmap r ∈ t) /\
  (forall ops' s' rest id' d',
      run_dv E ops' s3 = Ret tt s' ->
      recency s' = rest ++ [(id, r)] ->
      c_lookup (cache s') !! id' = None ->
      MaxCapacity (c_config (cache s')) <= cache_len s' ->
      exists err s'',
        Cache_Set E id' d' s' = Ret err s'' /\
        trace s'' = EvUnmap r :: trace s' /\
        EvUnmap r ∈ trace s').
Proof.
  intros Hcap Hnew Hrun Hmiss Hgp Hset s3.
  pose proof (dv_reach_ok E config sz ops s0 s Hcap Hnew Hrun) as Hok.
  pose proof (GetPage_inv _ _ _ _ _ _ Hgp) as (Hh & Hn & Hc & _ & Hr & Ht1).
  assert (Hok1 : cache_ok s1) by (eapply cache_ok_ext; eassumption).
  assert (Hmiss1 : c_lookup (cache s1) !! id = None) by (rewrite Hc; exact Hmiss).
  destruct (Cache_Set_miss_ok E s1 id r Hok1 Hmiss1)
    as (err & s2' & Hset' & Hok2 & Hhd & Hin & Hcase).
  rewrite Hset in Hset'. injection Hset' as <- <-.
  assert (Hok3 : cache_ok s3) by (eapply cache_ok_ext; [..|exact Hok2]; reflexivity).
  assert (Hrec3 : recency s3 = recency s2) by reflexivity.
  split.
  { destruct Hcase as [[Hnone _]|(lid & ldata & Hlast & Herr & Ht)]; [discriminate|].
    exists lid, ldata. split; [exact Hlast|]. split; [symmetry; exact Herr|exact Ht]. }
  split; [exact Hhd|]. split.
  { rewrite (Read_unfold_miss E id s Hmiss), (bind_Ret _ _ _ _ _ Hgp).
    rewrite (bind_Ret _ _ _ _ _ Hset). reflexivity. }
  split; [rewrite Hrec3; exact Hhd|]. split; [exact Hin|]. split; [reflexivity|].
  split.
  - intros Hrange. destruct Hok3 as (es3 & Hrep3 & _).
    destruct (Cache_Close_spec E s3 es3 Hrange Hrep3) as (err & s4 & t & Hcl & Ht & Hall).
    exists err, s4, t. split; [exact Hcl|]. split; [exact Ht|].
    rewrite <- Hrec3, (recency_rep _ _ Hrep3) in Hhd.
    destruct es3 as [|x es3]; [discriminate|]. cbn in Hhd. injection Hhd as _ Hx.
    rewrite <- Hx. apply Hall. apply list_elem_of_here.
  - intros ops' s' rest id' d' Hrun' Hrec' Hmiss' Hfull.
    pose proof (run_dv_steps_ok E ops' s3 tt s' Hrun' Hok3) as (es & Hrep & Hpos & Hlen).
    destruct (te_run_dv E ops' s3 tt s' Hrun') as [t Ht].
    rewrite (recency_rep _ _ Hrep) in Hrec'.
    destruct es as [|L A _] using rev_ind.
    { destruct rest; discriminate. }
    rewrite fmap_app in Hrec'. cbn [fmap list_fmap] in Hrec'.
    apply app_inj_tail in Hrec' as [_ HL].
    pose proof (lookup_None_ids _ _ _ Hrep Hmiss') as Hnin.
    rewrite (cache_len_rep _ _ Hrep) in Hfull.
    destruct (Cache_Set_miss_full E s' A L id' d' Hrep Hnin Hfull)
      as (s'' & Hset'' & _ & Hevo).
    assert (HdL : edata L = r) by (injection HL as _ Hd; exact Hd).
    rewrite HdL in Hset'', Hevo.
    eexists _, s''. split; [exact Hset''|].
    destruct Hevo as (_ & _ & _ & _ & Htr). split; [exact Htr|].
    rewrite Ht. apply elem_of_app. right. apply list_elem_of_here.
Qed.

Lemma read_set_error_witness :
  exists s0 s s3,
    DiskViewer_New (unmap_fails_env 4096) (mkConfig 1) (boot 0) = Ret None s0 /\
    run_dv (unmap_fails_env 4096) [DvCreate 1; DvCreate 1; DvRead 0] s0 = Ret tt s /\
    DiskViewer_Read (unmap_fails_env 4096) 1 s = Ret (None, Some (OsError 22)) s3 /\
    head (recency s3) = Some (1, Some 1%nat) /\
    head (trace s3) = Some (EvUnmap (Some 1%nat)).
Proof.
  pose proof (fun s0 s =>
                read_set_error (unmap_fails_env 4096) (mkConfig 1) 0
                  [DvCreate 1; DvCreate 1; DvRead 0] s0 s 1) as H.
  edestruct H
    as (_ & _ & Hread & Hhd & _ & Htr & _).
  - simpl. lia.
  - vm_compute. reflexivity.
  - vm_compute. reflexivity.
  - vm_compute. reflexivity.
  - vm_compute. reflexivity.
  - vm_compute. reflexivity.
  - eexists _, _, _. split; [vm_compute; reflexivity|].
    split; [vm_compute; reflexivity|].
    split; [exact Hread|]. split; [exact Hhd|exact Htr].
Defined.

(** ** Closing the viewer *)

Lemma Close_on_cache_error E s e s' :
  Cache_Close E s = Ret (Some e) s' ->
  DiskViewer_Close E s = Ret (Some e) s'.
Proof.
  intros Hc. unfold DiskViewer_Close. rewrite (bind_Ret _ _ _ _ _ Hc). reflexivity.
Qed.

Lemma Close_on_cache_success E s s' :
  Cache_Close E s = Ret None s' ->
  DiskViewer_Close E s =
  Ret (env_close E (trace s')) (set_trace (EvCloseFile :: trace s') s').
Proof.
  intros Hc. unfold DiskViewer_Close. rewrite (bind_Ret _ _ _ _ _ Hc). reflexivity.
Qed.

(** C4, at the failing input.  A viewer of capacity 2 over an empty file
    creates page 0 and reads it; the munmap of that page fails when the
    viewer is closed.  [Close] then returns the cache's error at once: the
    trace ends with the failed unmap and holds no close of the file. *)
Theorem close_skips_pager_on_cache_error :
  exists s,
    (DiskViewer_New (unmap_fails_env 4096) (mkConfig 2) ;;;
     DiskViewer_Create (unmap_fails_env 4096) 1 ;;;
     DiskViewer_Read (unmap_fails_env 4096) 0 ;;;
     DiskViewer_Close (unmap_fails_env 4096)) (boot 0)
    = Ret (Some (ErrUnmapPage 0 (OsError 22))) s /\
    trace s = [EvUnmap (Some 0%nat); EvMap 0 0; EvStat; EvWrite 4096 0 4096;
               EvStat; EvOpen] /\
    EvCloseFile ∉ trace s.
Proof.
  eexists. split; [vm_compute; reflexivity|].
  split; [vm_compute; reflexivity|].
  cbn [trace]. rewrite !not_elem_of_cons. repeat split; try discriminate.
  apply not_elem_of_nil.
Qed.

(** ** [Create] returns when the system does not fail *)

Lemma create_loop_done E fuel offset s :
  create_loop E fuel 0 offset s = Ret None s.
Proof. destruct fuel; reflexivity. Qed.

Lemma Create_succeeds E ps k fuel s :
  faultless E -> 0 < ps -> pager_inv ps k s -> k * ps + ps <= max_int64 ->
  c_lookup (cache s) = ∅ ->
  exists s',
    DiskViewer_Create E (S fuel) s = Ret (k, None) s' /\
    pager_inv ps (k + 1) s' /\ c_lookup (cache s') = ∅.
Proof.
  intros [Hstat Hwrite] Hps Hinv Hmax Hempty.
  pose proof Hinv as (Hp & Hk & Hsz & Hfs & Hm).
  assert (Hkps : 0 <= k * ps) by nia.
  set (s1 := set_fsize (k * ps + ps)
               (set_trace (EvWrite ps (k * ps) ps :: trace s) s)).
  set (s2 := set_pager (mkPager (mkInfo (k * ps + ps)) ps)
               (set_trace (EvStat :: trace s1) s1)).
  assert (Hinv2 : pager_inv ps (k + 1) s2).
  { subst s2 s1. unfold pager_inv. stn. cbn [p_pageSize p_info Size].
    repeat split; lia. }
  assert (Hloop : create_loop E (S fuel) ps (k * ps) s = Ret None s1).
  { cbn [create_loop]. destruct (Z.ltb_spec 0 ps); [|lia].
    unfold bind, fill, WriteAt. destruct (Z.ltb_spec (k * ps) 0); [lia|].
    rewrite Hwrite.
    replace (Z.max 0 (Z.min ps (Z.min ps (max_int64 - k * ps)))) with ps by lia.
    destruct (Z.ltb_spec 0 ps); [|lia].
    rewrite Z.sub_diag. change (wrap64 0) with 0.
    rewrite create_loop_done. subst s1.
    replace (Z.max (fsize s) (k * ps + ps)) with (k * ps + ps) by lia.
    reflexivity. }
  assert (Href : Pager_RefreshInfo E s1 = Ret None s2).
  { unfold Pager_RefreshInfo, bind, Stat, gets, modify, ret. rewrite Hstat.
    subst s2 s1. stn. rewrite Hp. reflexivity. }
  assert (Hget : forall id, Cache_Get id s2 = Ret (None, Some ErrCacheMiss) s2).
  { intros id. apply Cache_Get_miss_lookup. subst s2 s1. stn. rewrite Hempty.
    apply lookup_empty. }
  exists s2. split; [|split; [exact Hinv2|subst s2 s1; exact Hempty]].
  unfold DiskViewer_Create. unfold bind at 1, gets at 1.
  rewrite (bind_Ret _ _ _ _ _ (PageCount_inv ps k s Hps Hinv)).
  rewrite Hp. rewrite (wrap64_id (k * ps)) by (unfold max_int64 in *; lia).
  rewrite (bind_Ret _ _ _ _ _ Hloop), (bind_Ret _ _ _ _ _ Href).
  rewrite (bind_Ret _ _ _ _ _ (PageCount_inv ps (k + 1) s2 Hps Hinv2)).
  rewrite (bind_Ret _ _ _ _ _ (Hget _)).
  rewrite (bind_Ret _ _ _ _ _ (PageCount_inv ps (k + 1) s2 Hps Hinv2)).
  unfold ret. replace (k + 1 - 1) with k by lia.
  rewrite wrap64_id by (unfold max_int64 in *; lia). reflexivity.
Qed.

Lemma run_creates_succeed E ps :
  faultless E -> 0 < ps ->
  forall n k s,
    pager_inv ps k s -> (k + Z.of_nat n) * ps <= max_int64 ->
    c_lookup (cache s) = ∅ ->
    exists s',
      run_creates E (replicate n 1%nat) s
      = Ret ((fun i => (i, None)) <$> seqZ k (Z.of_nat n)) s'.
Proof.
  intros HE Hps. induction n as [|n IH]; intros k s Hinv Hmax Hempty.
  - exists s. reflexivity.
  - destruct (Create_succeeds E ps k 0 s HE Hps Hinv) as (s1 & Hc & Hinv1 & He1);
      [nia|exact Hempty|].
    destruct (IH (k + 1) s1 Hinv1) as (s' & Hrun); [nia|exact He1|].
    exists s'. cbn [replicate run_creates].
    rewrite (bind_Ret _ _ _ _ _ Hc), (bind_Ret _ _ _ _ _ Hrun).
    unfold ret. rewrite Nat2Z.inj_succ. rewrite (seqZ_cons k) by lia.
    rewrite fmap_cons. replace (Z.succ k) with (k + 1) by lia.
    replace (Z.pred (Z.succ (Z.of_nat n))) with (Z.of_nat n) by lia.
    reflexivity.
Qed.

(** On a viewer opened over an empty file by a faultless system, [n]
    creations in a row all return, with the ids [0 .. n-1]. *)
Lemma creates_return E config n s0 :
  faultless E -> 0 < env_pagesize E ->
  Z.of_nat n * env_pagesize E <= max_int64 ->
  DiskViewer_New E config (boot 0) = Ret None s0 ->
  exists s,
    run_creates E (replicate n 1%nat) s0
    = Ret ((fun i => (i, None)) <$> seqZ 0 (Z.of_nat n)) s.
Proof.
  intros HE Hps Hmax Hnew.
  apply New_inv in Hnew as (s1 & Hnc & _ & _ & Hc & Hp & Hf).
  destruct (NewCache_spec config (boot 0)) as (s1' & Hnc' & Hrep & _).
  rewrite Hnc in Hnc'. injection Hnc' as <-.
  apply (run_creates_succeed E _ HE Hps n 0 s0).
  - unfold pager_inv. rewrite Hp, Hf. cbn. unfold max_int64. repeat split; lia.
  - lia.
  - rewrite Hc, (rep_lookup_eq _ _ Hrep). reflexivity.
Qed.

(** * Further properties *)

(** ** The cache refines the abstract LRU list *)

Lemma lru_assoc_notin es id :
  id ∉ eid <$> es -> lru_assoc id (item <$> es) = None.
Proof.
  induction es as [|x es IH]; intros Hn; [reflexivity|].
  rewrite fmap_cons, not_elem_of_cons in Hn. destruct Hn as [Hne Hn].
  cbn. destruct (Z.eqb_spec (eid x) id); [congruence|]. apply IH, Hn.
Qed.

Lemma lru_remove_notin es id :
  id ∉ eid <$> es -> lru_remove id (item <$> es) = item <$> es.
Proof.
  induction es as [|x es IH]; intros Hn; [reflexivity|].
  rewrite fmap_cons, not_elem_of_cons in Hn. destruct Hn as [Hne Hn].
  cbn. destruct (Z.eqb_spec (eid x) id); [congruence|].
  rewrite (IH Hn). reflexivity.
Qed.

Lemma lru_assoc_mid A e B :
  eid e ∉ eid <$> A ->
  lru_assoc (eid e) (item <$> (A ++ e :: B)) = Some (edata e).
Proof.
  induction A as [|x A IH]; intros Hn.
  - cbn. rewrite Z.eqb_refl. reflexivity.
  - rewrite fmap_cons, not_elem_of_cons in Hn. destruct Hn as [Hne Hn].
    cbn. destruct (Z.eqb_spec (eid x) (eid e)); [congruence|]. apply IH, Hn.
Qed.

Lemma lru_remove_mid A e B :
  eid e ∉ eid <$> A -> eid e ∉ eid <$> B ->
  lru_remove (eid e) (item <$> (A ++ e :: B)) = item <$> (A ++ B).
Proof.
  induction A as [|x A IH]; intros HA HB.
  - cbn. rewrite Z.eqb_refl. apply lru_remove_notin, HB.
  - rewrite fmap_cons, not_elem_of_cons in HA. destruct HA as [Hne HA].
    cbn. destruct (Z.eqb_spec (eid x) (eid e)); [congruence|].
    f_equal. apply IH; assumption.
Qed.

Lemma ids_mid_notin A (e : entry) B :
  NoDup (eid <$> (A ++ e :: B)) -> (eid e ∉ eid <$> A) /\ (eid e ∉ eid <$> B).
Proof.
  rewrite fmap_app, fmap_cons. intros Hnd.
  apply NoDup_app in Hnd as (_ & Hd & Hr). apply NoDup_cons in Hr as [HB _].
  split; [|exact HB]. intros Hin. apply (Hd _ Hin). apply list_elem_of_here.
Qed.

Lemma Cache_Get_refines s es id :
  cache_rep s es ->
  exists h' es',
    Cache_Get id s = Ret (lru_answer id (item <$> es)) (set_heap h' s) /\
    cache_rep (set_heap h' s) es' /\
    item <$> es' = lru_get id (item <$> es) /\
    es' ≡ₚ es.
Proof.
  intros Hrep. unfold lru_answer, lru_get.
  destruct (decide (id ∈ eid <$> es)) as [Hin|Hnin].
  - destruct (elem_of_ids_split _ _ Hin) as (A & e & B & -> & <-).
    destruct (ids_mid_notin A e B (rep_ids_nodup _ _ Hrep)) as [HA HB].
    destruct (Cache_Get_hit s A e B Hrep) as (h' & Hget & Hrep').
    exists h', (e :: A ++ B).
    rewrite (lru_assoc_mid A e B HA), (lru_remove_mid A e B HA HB).
    split; [exact Hget|]. split; [exact Hrep'|]. split; [reflexivity|].
    apply move_perm.
  - exists (heap s), es. rewrite set_heap_id, (lru_assoc_notin _ _ Hnin).
    split; [apply (Cache_Get_miss s es id Hrep Hnin)|]. auto.
Qed.

Lemma last_items A (L : entry) : last (item <$> (A ++ [L])) = Some (item L).
Proof. rewrite fmap_app. apply last_snoc. Qed.

Lemma removelast_items A (L : entry) :
  removelast (item <$> (A ++ [L])) = item <$> A.
Proof. rewrite fmap_app. apply removelast_last. Qed.

Lemma Cache_Set_refines E s es id d :
  cache_rep s es ->
  1 <= MaxCapacity (c_config (cache s)) ->
  Z.of_nat (length es) <= MaxCapacity (c_config (cache s)) ->
  let cap := MaxCapacity (c_config (cache s)) in
  let ev := lru_evicted cap id (item <$> es) in
  exists s' es',
    Cache_Set E id d s =
      Ret (match ev with Some m => env_unmap E (trace s) m | None => None end) s' /\
    cache_rep s' es' /\
    item <$> es' = lru_set cap id d (item <$> es) /\
    Z.of_nat (length es') <= cap /\
    evolved s s' (match ev with Some m => EvUnmap m :: trace s | None => trace s end).
Proof.
  intros Hrep Hcap Hlen cap ev. subst cap ev. unfold lru_evicted, lru_set.
  rewrite length_fmap.
  destruct (decide (id ∈ eid <$> es)) as [Hin|Hnin].
  - destruct (elem_of_ids_split _ _ Hin) as (A & e & B & -> & <-).
    destruct (ids_mid_notin A e B (rep_ids_nodup _ _ Hrep)) as [HA HB].
    destruct (Cache_Set_hit E s A e B d Hrep) as (h' & Hset & Hrep').
    rewrite (lru_assoc_mid A e B HA), (lru_remove_mid A e B HA HB).
    eexists _, _. split; [exact Hset|]. split; [exact Hrep'|].
    split; [reflexivity|]. split; [|apply evolved_set_heap].
    rewrite length_app in Hlen. cbn [length] in Hlen |- *. rewrite length_app. lia.
  - rewrite (lru_assoc_notin _ _ Hnin).
    destruct (Z.leb_spec (MaxCapacity (c_config (cache s))) (Z.of_nat (length es)))
      as [Hfull|Hroom].
    + destruct es as [|L A _] using rev_ind; [simpl in Hfull; lia|].
      destruct (Cache_Set_miss_full E s A L id d Hrep Hnin Hfull)
        as (s' & Hset & Hrep' & Hevo).
      rewrite last_items, removelast_items. cbn [fmap option_fmap option_map item snd].
      exists s', (mkE (nalloc s) id d :: A).
      split; [exact Hset|]. split; [exact Hrep'|]. split; [reflexivity|].
      split; [|exact Hevo].
      rewrite length_app in Hlen. cbn [length] in Hlen |- *. lia.
    + destruct (Cache_Set_miss_room E s es id d Hrep Hnin Hroom)
        as (s' & Hset & Hrep' & Hevo).
      exists s', (mkE (nalloc s) id d :: es).
      split; [exact Hset|]. split; [exact Hrep'|]. split; [reflexivity|].
      split; [|exact Hevo]. cbn [length]. lia.
Qed.

Lemma run_ops_refines E ops : forall s es,
  cache_rep s es ->
  1 <= MaxCapacity (c_config (cache s)) ->
  Z.of_nat (length es) <= MaxCapacity (c_config (cache s)) ->
  exists s' es',
    run_ops E ops s = Ret tt s' /\
    cache_rep s' es' /\
    item <$> es' =
      fold_left (lru_step (MaxCapacity (c_config (cache s)))) ops (item <$> es).
Proof.
  induction ops as [|op ops IH]; intros s es Hrep Hcap Hlen.
  - exists s, es. auto.
  - destruct op as [id|id d]; cbn [fold_left lru_step].
    + destruct (Cache_Get_refines s es id Hrep) as (h' & es1 & Hget & Hrep1 & Hit & Hp).
      destruct (IH (set_heap h' s) es1 Hrep1) as (s' & es' & Hrun & Hrep' & Hit').
      { exact Hcap. }
      { stn. rewrite Hp. exact Hlen. }
      exists s', es'. rewrite (run_ops_get _ _ _ _ _ _ Hget).
      split; [exact Hrun|]. split; [exact Hrep'|]. rewrite Hit', Hit. reflexivity.
    + destruct (Cache_Set_refines E s es id d Hrep Hcap Hlen)
        as (s1 & es1 & Hset & Hrep1 & Hit & Hlen1 & Hevo).
      destruct Hevo as (_ & _ & _ & Hc & _).
      destruct (IH s1 es1 Hrep1) as (s' & es' & Hrun & Hrep' & Hit').
      { rewrite Hc. exact Hcap. }
      { rewrite Hc. exact Hlen1. }
      exists s', es'. rewrite (run_ops_set _ _ _ _ _ _ _ Hset).
      split; [exact Hrun|]. split; [exact Hrep'|]. rewrite Hit', Hit, Hc. reflexivity.
Qed.

(** X1. The cache is an LRU list.  For a configured capacity of at least 0,
    after any sequence of [Get] and [Set] on a new cache the recency list
    read off the heap is the list the abstract LRU model computes, [Get]
    answers what that list holds, and the lookup map has one entry per
    element of the list. *)
Theorem cache_refines_lru E config ops s0 :
  0 <= MaxCapacity config ->
  exists s,
    (NewCache config ;;; run_ops E ops) s0 = Ret tt s /\
    recency s = lru_run (capacity_of config) ops /\
    cache_len s = Z.of_nat (length (recency s)) /\
    (forall id, exists s',
        Cache_Get id s = Ret (lru_answer id (recency s)) s' /\
        recency s' = lru_get id (recency s)).
Proof.
  intros Hcap.
  destruct (NewCache_ok config s0 Hcap) as (s1 & Hnew & (es0 & _) & Hcfg & Hrep0 & _).
  pose proof (capacity_of_pos config Hcap) as Hpos.
  destruct (run_ops_refines E ops s1 [] Hrep0) as (s & es & Hrun & Hrep & Hit).
  { rewrite Hcfg. exact Hpos. }
  { rewrite Hcfg. cbn [length]. lia. }
  exists s. rewrite (bind_Ret _ _ _ _ _ Hnew). split; [exact Hrun|].
  rewrite (recency_rep _ _ Hrep). split; [rewrite Hit, Hcfg; reflexivity|].
  split; [rewrite (cache_len_rep _ _ Hrep), length_fmap; reflexivity|].
  intros id.
  destruct (Cache_Get_refines s es id Hrep) as (h' & es' & Hget & Hrep' & Hit' & _).
  eexists. split; [exact Hget|]. rewrite (recency_rep _ _ Hrep'). exact Hit'.
Qed.

Lemma cache_refines_lru_witness :
  exists s,
    (NewCache (mkConfig 2) ;;;
     run_ops (quiet_env 4096)
       [OpSet 0 (Some 0%nat); OpSet 1 (Some 1%nat); OpGet 0;
        OpSet 2 (Some 2%nat)]) (boot 0) = Ret tt s /\
    recency s = [(2, Some 2%nat); (0, Some 0%nat)].
Proof.
  destruct (cache_refines_lru (quiet_env 4096) (mkConfig 2)
              [OpSet 0 (Some 0%nat); OpSet 1 (Some 1%nat); OpGet 0;
               OpSet 2 (Some 2%nat)] (boot 0)) as (s & Hrun & Hrec & _).
  - simpl. lia.
  - exists s. split; [exact Hrun|]. rewrite Hrec. reflexivity.
Defined.

(** ** The structure of the cache *)

Lemma walk_back_dl es : forall fuel h hl q,
  dl h (Some hl) es q -> hl ∉ eloc <$> es -> (length es < fuel)%nat ->
  walk_back fuel h (last_ptr (Some hl) es) (Some hl) = reverse (item <$> es).
Proof.
  induction es as [|x es IH] using rev_ind; intros fuel h hl q Hdl Hhl Hfuel.
  - destruct fuel as [|fuel]; [simpl in Hfuel; lia|].
    cbn [walk_back last_ptr ptr_eqb]. rewrite Nat.eqb_refl. reflexivity.
  - destruct fuel as [|fuel]; [simpl in Hfuel; lia|].
    rewrite length_app in Hfuel. cbn [length] in Hfuel.
    rewrite fmap_app, not_elem_of_app, fmap_cons, not_elem_of_cons in Hhl.
    destruct Hhl as (Hes & Hx & _).
    apply dl_app in Hdl as [Hdl Hlast]. cbn [dl first_ptr] in Hlast, Hdl.
    destruct Hlast as [Hxn _].
    rewrite last_ptr_app. cbn [last_ptr walk_back ptr_eqb].
    destruct (Nat.eqb_spec (eloc x) hl) as [Heq|_]; [congruence|].
    rewrite Hxn. cbn [n_id n_data n_prev].
    rewrite fmap_app, reverse_app. cbn [fmap list_fmap reverse rev_append app].
    f_equal. apply (IH fuel h hl _ Hdl Hes). lia.
Qed.

Lemma recency_back_rep s es :
  cache_rep s es -> recency_back s = reverse (item <$> es).
Proof.
  intros (H & T & Hh & Ht & Hdl & Hnd & Hfa & _).
  pose proof (NoDup_bounded_length _ _ Hnd Hfa) as Hlen.
  rewrite length_fmap in Hlen. cbn [length] in Hlen. rewrite length_app in Hlen.
  cbn [length] in Hlen.
  change (H :: es ++ [T]) with ((H :: es) ++ [T]) in Hdl.
  apply dl_app in Hdl as [Hes HT]. cbn [dl first_ptr last_ptr] in Hes, HT.
  destruct Hes as [_ Hes]. destruct HT as [HT _].
  unfold recency_back. rewrite Ht, HT, Hh. cbn [n_prev].
  eapply walk_back_dl; [exact Hes| |lia].
  rewrite fmap_cons in Hnd. apply NoDup_cons in Hnd as [Hn _].
  rewrite fmap_app, not_elem_of_app in Hn. tauto.
Qed.

(** X2. In every cache state reached from [NewCache] through [Get] and
    [Set]: no page id occurs twice in the recency list; the lookup map holds
    exactly the ids of the list, and each of its entries points to a node
    that carries that id and stands in the list; the list read backwards
    through the [prev] pointers is the reverse of the list read through the
    [next] pointers. *)
Theorem cache_structure E config ops s0 s :
  0 <= MaxCapacity config ->
  (NewCache config ;;; run_ops E ops) s0 = Ret tt s ->
  NoDup (fst <$> recency s) /\
  (forall k, is_Some (c_lookup (cache s) !! k) <-> k ∈ fst <$> recency s) /\
  (forall k l, c_lookup (cache s) !! k = Some l ->
     exists n, heap s !! l = Some n /\ n_id n = k /\ (k, n_data n) ∈ recency s) /\
  recency_back s = reverse (recency s).
Proof.
  intros Hcap Hrun.
  destruct (reach_inv E config ops s0 s Hcap Hrun) as [(es & Hrep & _) _].
  rewrite (recency_rep _ _ Hrep), item_fst.
  split; [exact (rep_ids_nodup _ _ Hrep)|].
  split; [intros k; apply (rep_lookup_iff _ _ _ Hrep)|].
  split; [|exact (recency_back_rep _ _ Hrep)].
  intros k l Hl.
  assert (Hin : k ∈ eid <$> es) by (apply (rep_lookup_iff _ _ _ Hrep); eauto).
  apply list_elem_of_fmap in Hin as (e & -> & He).
  rewrite (rep_lookup_Some _ _ e Hrep He) in Hl. injection Hl as <-.
  destruct (rep_node _ _ _ Hrep He) as (nx & pv & Hn).
  eexists. split; [exact Hn|]. split; [reflexivity|].
  cbn [n_data]. apply (list_elem_of_fmap_2 item) in He. exact He.
Qed.

Lemma cache_structure_witness :
  exists s,
    (NewCache (mkConfig 2) ;;;
     run_ops (quiet_env 4096)
       [OpSet 0 (Some 0%nat); OpSet 1 (Some 1%nat); OpGet 0]) (boot 0)
      = Ret tt s /\
    recency_back s = reverse (recency s).
Proof.
  destruct (reach_ok (quiet_env 4096) (mkConfig 2)
              [OpSet 0 (Some 0%nat); OpSet 1 (Some 1%nat); OpGet 0] (boot 0))
    as (s & Hrun & _); [simpl; lia|].
  destruct (cache_structure (quiet_env 4096) (mkConfig 2)
              [OpSet 0 (Some 0%nat); OpSet 1 (Some 1%nat); OpGet 0] (boot 0) s)
    as (_ & _ & _ & Hback).
  - simpl. lia.
  - exact Hrun.
  - exists s. split; [exact Hrun|exact Hback].
Defined.

(** ** [Set] and [Get] together *)

Lemma Cache_Get_front s e es :
  cache_rep s (e :: es) -> Cache_Get (eid e) s = Ret (edata e, None) s.
Proof.
  intros Hrep. pose proof Hrep as (H & T & Hh & _ & Hdl & _).
  unfold Cache_Get. unfold bind at 1, gets at 1.
  rewrite (rep_lookup_Some _ _ e Hrep) by apply list_elem_of_here.
  rewrite (bind_Ret _ _ _ _ _ (moveToFront_first s H e (es ++ [T]) Hh Hdl)).
  destruct (rep_head_node _ _ _ Hrep) as (nx & pv & Hn).
  rewrite (bind_Ret _ _ _ _ _ (load_eq _ _ _ Hn)). reflexivity.
Qed.

Lemma rep_of_items_cons s es id d l :
  cache_rep s es -> item <$> es = (id, d) :: l ->
  exists e es', es = e :: es' /\ eid e = id /\ edata e = d.
Proof.
  intros _ Hit. destruct es as [|e es']; [discriminate|].
  rewrite fmap_cons in Hit. injection Hit as Hi Hd _. eauto.
Qed.

Lemma lru_set_cons cap id d l : exists l', lru_set cap id d l = (id, d) :: l'.
Proof.
  unfold lru_set. destruct (lru_assoc id l); [eauto|].
  destruct (cap <=? Z.of_nat (length l)); eauto.
Qed.

(** X3. Insert and look up.  On every cache state reached from [NewCache],
    [Set id d] returns, and a [Get id] right after it hits, answers [d] with
    no error, and leaves the state exactly as [Set] left it (the entry is
    already at the front). *)
Theorem set_then_get E config ops s0 s id d :
  0 <= MaxCapacity config ->
  (NewCache config ;;; run_ops E ops) s0 = Ret tt s ->
  exists err s',
    Cache_Set E id d s = Ret err s' /\
    head (recency s') = Some (id, d) /\
    Cache_Get id s' = Ret (d, None) s'.
Proof.
  intros Hcap Hrun.
  destruct (reach_inv E config ops s0 s Hcap Hrun) as [(es & Hrep & Hpos & Hlen) _].
  destruct (Cache_Set_refines E s es id d Hrep Hpos Hlen)
    as (s' & es' & Hset & Hrep' & Hit & _).
  destruct (lru_set_cons (MaxCapacity (c_config (cache s))) id d (item <$> es))
    as (l' & Hl'). rewrite Hl' in Hit.
  destruct (rep_of_items_cons _ _ _ _ _ Hrep' Hit) as (e & es'' & -> & <- & <-).
  eexists _, s'. split; [exact Hset|].
  split; [rewrite (recency_rep _ _ Hrep'); reflexivity|].
  apply (Cache_Get_front s' e es'' Hrep').
Qed.

Lemma set_then_get_witness :
  exists s err s',
    (NewCache (mkConfig 1) ;;;
     run_ops (quiet_env 4096) [OpSet 7 (Some 0%nat)]) (boot 0) = Ret tt s /\
    Cache_Set (quiet_env 4096) 8 (Some 1%nat) s = Ret err s' /\
    Cache_Get 8 s' = Ret (Some 1%nat, None) s'.
Proof.
  destruct (reach_ok (quiet_env 4096) (mkConfig 1) [OpSet 7 (Some 0%nat)] (boot 0))
    as (s & Hrun & _); [simpl; lia|].
  destruct (set_then_get (quiet_env 4096) (mkConfig 1) [OpSet 7 (Some 0%nat)]
              (boot 0) s 8 (Some 1%nat)) as (err & s' & Hset & _ & Hget).
  - simpl. lia.
  - exact Hrun.
  - exists s, err, s'. repeat split; assumption.
Defined.

(** X4. A hit is idempotent.  On every cache state reached from [NewCache],
    when [Get id] hits, a second [Get id] answers the same region and
    changes nothing: [moveToFront] of the front node is a no-op. *)
Theorem get_twice E config ops s0 s id d s1 :
  0 <= MaxCapacity config ->
  (NewCache config ;;; run_ops E ops) s0 = Ret tt s ->
  Cache_Get id s = Ret (d, None) s1 ->
  Cache_Get id s1 = Ret (d, None) s1 /\ head (recency s1) = Some (id, d).
Proof.
  intros Hcap Hrun Hget.
  destruct (reach_inv E config ops s0 s Hcap Hrun) as [(es & Hrep & _) _].
  destruct (decide (id ∈ eid <$> es)) as [Hin|Hnin].
  - destruct (elem_of_ids_split _ _ Hin) as (A & e & B & -> & <-).
    destruct (Cache_Get_hit s A e B Hrep) as (h' & Hget' & Hrep').
    rewrite Hget in Hget'. injection Hget' as -> ->.
    split; [apply (Cache_Get_front _ e (A ++ B) Hrep')|].
    rewrite (recency_rep _ _ Hrep'). reflexivity.
  - rewrite (Cache_Get_miss s es id Hrep Hnin) in Hget. discriminate.
Qed.

Lemma get_twice_witness :
  exists s s1,
    (NewCache (mkConfig 2) ;;;
     run_ops (quiet_env 4096) [OpSet 0 (Some 0%nat); OpSet 1 (Some 1%nat)])
      (boot 0) = Ret tt s /\
    Cache_Get 0 s = Ret (Some 0%nat, None) s1 /\
    Cache_Get 0 s1 = Ret (Some 0%nat, None) s1.
Proof.
  destruct (reach_ok (quiet_env 4096) (mkConfig 2)
              [OpSet 0 (Some 0%nat); OpSet 1 (Some 1%nat)] (boot 0))
    as (s & Hrun & _); [simpl; lia|].
  destruct (Cache_Get 0 s) as [[d e] s1| |] eqn:Hget;
    try (vm_compute in Hrun; injection Hrun as <-; vm_compute in Hget; discriminate).
  assert (Hd : d = Some 0%nat /\ e = None).
  { vm_compute in Hrun. injection Hrun as <-. vm_compute in Hget.
    injection Hget as <- <- _. auto. }
  destruct Hd as [-> ->].
  destruct (get_twice (quiet_env 4096) (mkConfig 2)
              [OpSet 0 (Some 0%nat); OpSet 1 (Some 1%nat)] (boot 0) s 0
              (Some 0%nat) s1) as (Hagain & _).
  - simpl. lia.
  - exact Hrun.
  - exact Hget.
  - exists s, s1. repeat split; assumption.
Defined.

(** X5. What [Set] does to the system.  On every cache state reached from
    [NewCache], with [l] the recency list: [Set id d] makes exactly one
    system call, the munmap of the least recently used region, when [id] is
    new and the cache is full, and none otherwise; it returns that munmap's
    answer, or nil; the list becomes [lru_set] of [l].  In particular a [Set]
    of an id that is already cached replaces its region without unmapping
    the region it replaces. *)
Theorem set_effects E config ops s0 s id d :
  0 <= MaxCapacity config ->
  (NewCache config ;;; run_ops E ops) s0 = Ret tt s ->
  exists err s',
    Cache_Set E id d s = Ret err s' /\
    recency s' = lru_set (capacity_of config) id d (recency s) /\
    pager s' = pager s /\ fsize s' = fsize s /\ nregion s' = nregion s /\
    match lru_evicted (capacity_of config) id (recency s) with
    | Some m => err = env_unmap E (trace s) m /\ trace s' = EvUnmap m :: trace s
    | None => err = None /\ trace s' = trace s
    end /\
    (forall old, lru_assoc id (recency s) = Some old ->
       err = None /\ trace s' = trace s /\ cache_len s' = cache_len s /\
       unmapped (trace s') = unmapped (trace s)).
Proof.
  intros Hcap Hrun.
  destruct (reach_inv E config ops s0 s Hcap Hrun) as [(es & Hrep & Hpos & Hlen) Hcfg].
  destruct (Cache_Set_refines E s es id d Hrep Hpos Hlen)
    as (s' & es' & Hset & Hrep' & Hit & _ & Hevo).
  rewrite Hcfg in Hset, Hit, Hevo.
  destruct Hevo as (Hp & Hf & Hn & _ & Ht).
  eexists _, s'. split; [exact Hset|].
  rewrite (recency_rep _ _ Hrep), (recency_rep _ _ Hrep').
  split; [exact Hit|].
  split; [exact Hp|]. split; [exact Hf|]. split; [exact Hn|]. split.
  - destruct (lru_evicted (capacity_of config) id (item <$> es)); auto.
  - intros old Hold. unfold lru_evicted in *. rewrite Hold in *.
    split; [reflexivity|]. split; [exact Ht|]. split; [|rewrite Ht; reflexivity].
    rewrite (cache_len_rep _ _ Hrep), (cache_len_rep _ _ Hrep').
    apply (f_equal length) in Hit. unfold lru_set in Hit. rewrite Hold in Hit.
    rewrite length_fmap in Hit. rewrite Hit. cbn [length].
    clear - Hold Hrep.
    assert (Hin : id ∈ eid <$> es).
    { destruct (decide (id ∈ eid <$> es)) as [|Hn]; [assumption|].
      rewrite (lru_assoc_notin _ _ Hn) in Hold. discriminate. }
    destruct (elem_of_ids_split _ _ Hin) as (A & e & B & -> & <-).
    destruct (ids_mid_notin A e B (rep_ids_nodup _ _ Hrep)) as [HA HB].
    rewrite (lru_remove_mid A e B HA HB), length_fmap, !length_app.
    cbn [length]. lia.
Qed.

Lemma set_effects_witness :
  exists s s',
    (NewCache (mkConfig 2) ;;;
     run_ops (quiet_env 4096) [OpSet 0 (Some 0%nat); OpSet 1 (Some 1%nat)])
      (boot 0) = Ret tt s /\
    Cache_Set (quiet_env 4096) 0 (Some 5%nat) s = Ret None s' /\
    recency s' = [(0, Some 5%nat); (1, Some 1%nat)] /\
    trace s' = trace s.
Proof.
  destruct (reach_ok (quiet_env 4096) (mkConfig 2)
              [OpSet 0 (Some 0%nat); OpSet 1 (Some 1%nat)] (boot 0))
    as (s & Hrun & _); [simpl; lia|].
  destruct (set_effects (quiet_env 4096) (mkConfig 2)
              [OpSet 0 (Some 0%nat); OpSet 1 (Some 1%nat)] (boot 0) s 0 (Some 5%nat))
    as (err & s' & Hset & Hrec & _ & _ & _ & _ & Hhit).
  - simpl. lia.
  - exact Hrun.
  - assert (Hl : recency s = [(1, Some 1%nat); (0, Some 0%nat)]).
    { vm_compute in Hrun. injection Hrun as <-. vm_compute. reflexivity. }
    rewrite Hl in Hrec, Hhit.
    destruct (Hhit (Some 0%nat) eq_refl) as (-> & Ht & _).
    exists s, s'. repeat split; assumption.
Defined.

(** ** [Cache.Close] *)

Lemma close_loop_exact E (ns : list (loc * CacheNode)) : forall s fe,
  NoDup ns.*1 ->
  (forall v n, (v, n) ∈ ns -> heap s !! v = Some n) ->
  exists err s',
    close_loop E ns.*1 fe s = Ret err s' /\
    trace s' = reverse ((fun p => EvUnmap (n_data p.2)) <$> ns) ++ trace s /\
    c_config (cache s') = c_config (cache s) /\
    pager s' = pager s /\ fsize s' = fsize s /\
    nregion s' = nregion s /\
    (unmap_ok E -> err = fe).
Proof.
  induction ns as [|[v n] ns IH]; intros s fe Hnd Hall.
  - exists fe, s. repeat split; reflexivity.
  - rewrite fmap_cons in Hnd. cbn [fst] in Hnd.
    apply NoDup_cons in Hnd as [Hv Hnd].
    pose proof (Hall v n (list_elem_of_here _ _)) as Hn.
    rewrite (fmap_cons fst). cbn [fst close_loop].
    rewrite (bind_Ret _ _ _ _ _ (Unmap_data_eq E s v n Hn)).
    erewrite bind_Ret; [|apply load_eq; stn; apply lookup_insert_eq].
    erewrite bind_Ret; [|apply set_next_eq; stn; apply lookup_insert_eq].
    erewrite bind_Ret; [|apply set_prev_eq; stn; apply lookup_insert_eq].
    cbn [n_id n_data n_next n_prev]. stn.
    match goal with
    | |- context [close_loop E _ ?fe' ?s2] =>
        destruct (IH s2 fe' Hnd) as (err & s' & Hrun & Ht & Hc & Hp & Hf & Hr & Herr)
    end.
    { intros v' n' Hin. stn.
      assert (Hne : v <> v').
      { intros ->. apply Hv. apply (list_elem_of_fmap_2 fst) in Hin. exact Hin. }
      rewrite !lookup_insert_ne by exact Hne.
      apply Hall. apply list_elem_of_further. exact Hin. }
    exists err, s'. split; [exact Hrun|].
    split; [|split; [exact Hc|split; [exact Hp|split; [exact Hf|split; [exact Hr|]]]]].
    + rewrite Ht. stn. rewrite fmap_cons, reverse_cons, <- app_assoc. reflexivity.
    + intros Hok. rewrite (Herr Hok), (Hok (trace s) (n_data n)). reflexivity.
Qed.

Lemma unmapped_app t1 t2 : unmapped (t1 ++ t2) = unmapped t1 ++ unmapped t2.
Proof. unfold unmapped. apply omap_app. Qed.

Lemma mapped_app t1 t2 : mapped (t1 ++ t2) = mapped t1 ++ mapped t2.
Proof. unfold mapped. apply omap_app. Qed.

Lemma unmapped_unmaps ds : unmapped (EvUnmap <$> ds) = ds.
Proof. induction ds as [|d ds IH]; [reflexivity|]. cbn. f_equal. exact IH. Qed.

Lemma mapped_unmaps ds : mapped (EvUnmap <$> ds) = [].
Proof. induction ds as [|d ds IH]; [reflexivity|]. cbn. exact IH. Qed.

Lemma Cache_Close_exact E s es :
  (forall m, env_range E m ≡ₚ map_to_list m) ->
  cache_rep s es ->
  exists err s' ds,
    Cache_Close E s = Ret err s' /\
    trace s' = (EvUnmap <$> ds) ++ trace s /\
    ds ≡ₚ edata <$> es /\
    cache s' = mkCache ∅ None None (c_config (cache s)) /\
    pager s' = pager s /\ fsize s' = fsize s /\ nregion s' = nregion s /\
    (unmap_ok E -> err = None).
Proof.
  intros Hrange Hrep.
  pose proof Hrep as (H & T & _ & _ & _ & Hnd & _ & Hlk & Hid).
  set (vs := (env_range E (c_lookup (cache s))).*2).
  assert (Hperm : vs ≡ₚ eloc <$> es).
  { subst vs. rewrite Hrange, Hlk, map_to_list_to_map by (rewrite kv_fst; exact Hid).
    rewrite kv_snd. reflexivity. }
  assert (Hnd' : NoDup (eloc <$> es)).
  { rewrite fmap_cons, fmap_app in Hnd. apply NoDup_cons in Hnd as [_ Hnd].
    apply NoDup_app in Hnd as (Hnd & _). exact Hnd. }
  assert (Hdata : forall e, e ∈ es -> node_data (heap s) (eloc e) = edata e).
  { intros e He. destruct (rep_node _ _ _ Hrep He) as (nx & pv & Hn).
    unfold node_data. rewrite Hn. reflexivity. }
  set (ns := (fun v => (v, default zero_node (heap s !! v))) <$> vs).
  assert (Hns1 : ns.*1 = vs).
  { subst ns. rewrite <- list_fmap_compose. apply list_fmap_id. }
  destruct (close_loop_exact E ns s None)
    as (err & s1 & Hrun & Ht & Hc & Hp & Hf & Hr & Herr).
  { rewrite Hns1, Hperm. exact Hnd'. }
  { intros v n Hin. subst ns. apply list_elem_of_fmap in Hin as (v' & Heq & Hv').
    injection Heq as -> ->. rewrite Hperm in Hv'.
    apply list_elem_of_fmap in Hv' as (e & -> & He).
    destruct (rep_node _ _ _ Hrep He) as (nx & pv & Hn). rewrite Hn. reflexivity. }
  rewrite Hns1 in Hrun.
  exists err, (set_cache (mkCache ∅ None None (c_config (cache s))) s1),
    (reverse (node_data (heap s) <$> vs)).
  split; [|split; [|split; [|split; [reflexivity|repeat split; assumption]]]].
  - unfold Cache_Close. unfold bind at 1, gets at 1. fold vs.
    rewrite (bind_Ret _ _ _ _ _ Hrun). reflexivity.
  - stn. rewrite Ht. f_equal. rewrite fmap_reverse. f_equal.
    subst ns. rewrite <- !list_fmap_compose. apply list_fmap_ext.
    intros i v Hv. cbn. unfold node_data.
    apply list_elem_of_lookup_2 in Hv. rewrite Hperm in Hv.
    apply list_elem_of_fmap in Hv as (e & -> & He).
    destruct (rep_node _ _ _ Hrep He) as (nx & pv & Hn). rewrite Hn. reflexivity.
  - rewrite reverse_Permutation, Hperm, <- list_fmap_compose.
    erewrite list_fmap_ext; [reflexivity|].
    intros i e He. cbn. apply Hdata. eapply list_elem_of_lookup_2. exact He.
Qed.

(** X6. Closing the cache.  On every cache state reached from [NewCache],
    whatever order the map iteration takes, [Close] returns; it unmaps every
    cached region exactly once and nothing else, maps nothing, and leaves
    the lookup map empty and both sentinels nil; it returns nil when no
    munmap fails.  On the closed cache every [Get] misses, and every [Set]
    panics on the nil head sentinel. *)
Theorem close_releases_all E config ops s0 s :
  0 <= MaxCapacity config ->
  (forall m, env_range E m ≡ₚ map_to_list m) ->
  (NewCache config ;;; run_ops E ops) s0 = Ret tt s ->
  exists err s',
    Cache_Close E s = Ret err s' /\
    unmapped (trace s') ≡ₚ (snd <$> recency s) ++ unmapped (trace s) /\
    mapped (trace s') = mapped (trace s) /\
    c_lookup (cache s') = ∅ /\
    c_head (cache s') = None /\ c_tail (cache s') = None /\
    recency s' = [] /\
    (unmap_ok E -> err = None) /\
    (forall id, Cache_Get id s' = Ret (None, Some ErrCacheMiss) s') /\
    (forall id d, Cache_Set E id d s' = Panic).
Proof.
  intros Hcap Hrange Hrun.
  destruct (reach_inv E config ops s0 s Hcap Hrun) as [(es & Hrep & Hpos & _) _].
  destruct (Cache_Close_exact E s es Hrange Hrep)
    as (err & s' & ds & Hcl & Ht & Hds & Hc & _ & _ & _ & Herr).
  exists err, s'. split; [exact Hcl|].
  split; [|split; [|split; [|split; [|split; [|split; [|split; [exact Herr|split]]]]]]].
  - rewrite Ht, unmapped_app, unmapped_unmaps, (recency_rep _ _ Hrep), Hds.
    rewrite <- list_fmap_compose. reflexivity.
  - rewrite Ht, mapped_app, mapped_unmaps. reflexivity.
  - rewrite Hc. reflexivity.
  - rewrite Hc. reflexivity.
  - rewrite Hc. reflexivity.
  - unfold recency. rewrite Hc. reflexivity.
  - intros id. apply Cache_Get_miss_lookup. rewrite Hc. apply lookup_empty.
  - intros id d. rewrite Cache_Set_miss_eq by (rewrite Hc; apply lookup_empty).
    unfold cache_len. rewrite Hc. cbn [c_config c_lookup].
    rewrite map_size_empty.
    destruct (Z.leb_spec (MaxCapacity (c_config (cache s))) (Z.of_nat 0)) as [Hle|_];
      [simpl in Hle; lia|].
    unfold bind at 1, ret at 1. unfold link_new. unfold bind at 1, alloc at 1.
    unfold insertAtFront. unfold bind at 1. unfold bind at 1, gets at 1. stn.
    rewrite Hc. reflexivity.
Qed.

Lemma close_releases_all_witness :
  exists s err s',
    (NewCache (mkConfig 2) ;;;
     run_ops (quiet_env 4096) [OpSet 0 (Some 0%nat); OpSet 1 (Some 1%nat)])
      (boot 0) = Ret tt s /\
    Cache_Close (quiet_env 4096) s = Ret err s' /\
    c_lookup (cache s') = ∅ /\
    Cache_Set (quiet_env 4096) 0 (Some 0%nat) s' = Panic.
Proof.
  destruct (reach_ok (quiet_env 4096) (mkConfig 2)
              [OpSet 0 (Some 0%nat); OpSet 1 (Some 1%nat)] (boot 0))
    as (s & Hrun & _); [simpl; lia|].
  destruct (close_releases_all (quiet_env 4096) (mkConfig 2)
              [OpSet 0 (Some 0%nat); OpSet 1 (Some 1%nat)] (boot 0) s)
    as (err & s' & Hcl & _ & _ & Hlk & _ & _ & _ & _ & _ & Hset).
  - simpl. lia.
  - intros m. reflexivity.
  - exact Hrun.
  - exists s, err, s'. split; [exact Hrun|]. split; [exact Hcl|].
    split; [exact Hlk|apply Hset].
Defined.

(** ** [Read] against the abstract list *)

Lemma lru_assoc_in es id :
  id ∈ eid <$> es -> is_Some (lru_assoc id (item <$> es)).
Proof.
  induction es as [|x es IH]; intros Hin.
  - apply elem_of_nil in Hin. contradiction.
  - rewrite fmap_cons in Hin. cbn.
    destruct (Z.eqb_spec (eid x) id); [eauto|].
    apply elem_of_cons in Hin as [Heq|Hin]; [congruence|]. apply IH, Hin.
Qed.

Lemma Read_effect E s id :
  cache_ok s ->
  exists res s',
    DiskViewer_Read E id s = Ret res s' /\ cache_ok s' /\
    c_config (cache s') = c_config (cache s) /\
    pager s' = pager s /\ fsize s' = fsize s /\
    match lru_assoc id (recency s) with
    | Some d =>
        res = (d, None) /\ trace s' = trace s /\ nregion s' = nregion s /\
        recency s' = lru_get id (recency s) /\ recency s' ≡ₚ recency s
    | None =>
        match env_mmap E (trace s) (wrap64 (id * p_pageSize (pager s))) with
        | Some e => res = (None, Some e) /\ s' = s
        | None =>
            nregion s' = S (nregion s) /\
            recency s' = lru_set (MaxCapacity (c_config (cache s))) id
                           (Some (nregion s)) (recency s) /\
            match lru_evicted (MaxCapacity (c_config (cache s))) id (recency s) with
            | None =>
                res = (Some (nregion s), None) /\
                trace s' =
                  EvMap (wrap64 (id * p_pageSize (pager s))) (nregion s) :: trace s
            | Some m =>
                match env_unmap E
                        (EvMap (wrap64 (id * p_pageSize (pager s))) (nregion s)
                           :: trace s) m with
                | None =>
                    res = (Some (nregion s), None) /\
                    trace s' =
                      EvUnmap m
                        :: EvMap (wrap64 (id * p_pageSize (pager s))) (nregion s)
                        :: trace s
                | Some e =>
                    res = (None, Some e) /\
                    trace s' =
                      EvUnmap (Some (nregion s)) :: EvUnmap m
                        :: EvMap (wrap64 (id * p_pageSize (pager s))) (nregion s)
                        :: trace s
                end
            end
        end
    end.
Proof.
  intros (es & Hrep & Hpos & Hlen). rewrite (recency_rep _ _ Hrep).
  destruct (decide (id ∈ eid <$> es)) as [Hin|Hnin].
  - destruct (lru_assoc_in _ _ Hin) as [d Hd]. rewrite Hd.
    destruct (Cache_Get_refines s es id Hrep) as (h' & es' & Hget & Hrep' & Hit & Hp).
    unfold lru_answer in Hget. rewrite Hd in Hget.
    exists (d, None), (set_heap h' s). split.
    { unfold DiskViewer_Read. rewrite (bind_Ret _ _ _ _ _ Hget). reflexivity. }
    split. { exists es'. split; [exact Hrep'|]. stn. rewrite Hp. auto. }
    repeat split. { rewrite (recency_rep _ _ Hrep'). exact Hit. }
    rewrite (recency_rep _ _ Hrep'), Hp. reflexivity.
  - rewrite (lru_assoc_notin _ _ Hnin).
    pose proof (rep_lookup_None _ _ _ Hrep Hnin) as Hmiss.
    rewrite (Read_unfold_miss E id s Hmiss).
    unfold bind at 1, Pager_GetPage. unfold bind at 1, gets at 1. unfold MapRegion.
    destruct (env_mmap E (trace s) (wrap64 (id * p_pageSize (pager s)))) as [e|].
    + exists (None, Some e), s. split; [reflexivity|].
      split; [exists es; auto|]. repeat split.
    + set (off := wrap64 (id * p_pageSize (pager s))).
      set (s1 := set_nregion (S (nregion s))
                   (set_trace (EvMap off (nregion s) :: trace s) s)).
      assert (Hrep1 : cache_rep s1 es) by (eapply cache_rep_ext; [..|exact Hrep]; reflexivity).
      destruct (Cache_Set_refines E s1 es id (Some (nregion s)) Hrep1 Hpos Hlen)
        as (s2 & es2 & Hset & Hrep2 & Hit & Hlen2 & Hevo).
      change (MaxCapacity (c_config (cache s1))) with (MaxCapacity (c_config (cache s)))
        in Hset, Hit, Hlen2, Hevo.
      change (trace s1) with (EvMap off (nregion s) :: trace s) in Hset, Hevo.
      destruct Hevo as (Hp & Hf & Hn & Hc & Ht).
      change (c_config (cache s1)) with (c_config (cache s)) in Hc.
      rewrite (bind_Ret _ _ _ _ _ Hset).
      assert (Hok2 : cache_ok s2).
      { exists es2. split; [exact Hrep2|]. rewrite Hc. auto. }
      destruct (lru_evicted (MaxCapacity (c_config (cache s))) id (item <$> es)) as [m|].
      * destruct (env_unmap E (EvMap off (nregion s) :: trace s) m) as [e|].
        -- eexists _, _. split; [reflexivity|].
           split; [eapply cache_ok_ext; [..|exact Hok2]; reflexivity|].
           stn. split; [exact Hc|]. split; [exact Hp|]. split; [exact Hf|].
           split; [exact Hn|]. split; [|rewrite Ht; auto].
           change (recency (set_trace (EvUnmap (Some (nregion s)) :: trace s2) s2))
             with (recency s2).
           rewrite (recency_rep _ _ Hrep2). exact Hit.
        -- exists (Some (nregion s), None), s2. split; [reflexivity|].
           split; [exact Hok2|]. split; [exact Hc|]. split; [exact Hp|].
           split; [exact Hf|]. split; [exact Hn|].
           split; [rewrite (recency_rep _ _ Hrep2); exact Hit|auto].
      * exists (Some (nregion s), None), s2. split; [reflexivity|].
        split; [exact Hok2|]. split; [exact Hc|]. split; [exact Hp|].
        split; [exact Hf|]. split; [exact Hn|].
        split; [rewrite (recency_rep _ _ Hrep2); exact Hit|auto].
Qed.

(** ** Frames of [Create] and [Read], generically *)

Section CreateSteps.

Variable R : St -> St -> Prop.
Hypothesis R_refl : forall s, R s s.
Hypothesis R_trans : forall s1 s2 s3, R s1 s2 -> R s2 s3 -> R s1 s3.
Variable E : Env.
Hypothesis R_write : forall count off, steps R (WriteAt E count off).
Hypothesis R_stat : steps R (Stat E).
Hypothesis R_pager : forall f, steps R (modify (fun s => set_pager (f s) s)).
Hypothesis R_get : forall id, steps R (Cache_Get id).

Lemma gen_PageCount : steps R Pager_PageCount.
Proof.
  unfold Pager_PageCount.
  apply (steps_bind R R_trans); [apply (steps_gets R R_refl)|].
  intros p. apply steps_if; [apply steps_panic|apply (steps_ret R R_refl)].
Qed.

Lemma gen_create_loop fuel : forall remaining offset,
  steps R (create_loop E fuel remaining offset).
Proof.
  induction fuel as [|fuel IH]; intros remaining offset; cbn [create_loop].
  - destruct (0 <? remaining);
      [intros s a s' Hrun; discriminate|apply (steps_ret R R_refl)].
  - destruct (0 <? remaining); [|apply (steps_ret R R_refl)].
    apply (steps_bind R R_trans); [apply R_write|].
    intros [n [e|]]; [apply (steps_ret R R_refl)|apply IH].
Qed.

Lemma gen_RefreshInfo : steps R (Pager_RefreshInfo E).
Proof.
  unfold Pager_RefreshInfo. apply (steps_bind R R_trans); [apply R_stat|].
  intros [info [e|]]; [apply (steps_ret R R_refl)|].
  apply (steps_bind R R_trans); [apply (steps_gets R R_refl)|]. intros p.
  apply (steps_bind R R_trans); [|intros _; apply (steps_ret R R_refl)].
  apply (R_pager (fun _ => mkPager info (p_pageSize p))).
Qed.

Lemma gen_Create fuel : steps R (DiskViewer_Create E fuel).
Proof.
  unfold DiskViewer_Create.
  apply (steps_bind R R_trans); [apply (steps_gets R R_refl)|]. intros p.
  apply (steps_bind R R_trans); [apply gen_PageCount|]. intros pc.
  apply (steps_bind R R_trans); [apply gen_create_loop|].
  intros [e|]; [apply (steps_ret R R_refl)|].
  apply (steps_bind R R_trans); [apply gen_RefreshInfo|].
  intros [e|]; [apply (steps_ret R R_refl)|].
  apply (steps_bind R R_trans); [apply gen_PageCount|]. intros pc'.
  apply (steps_bind R R_trans); [apply R_get|]. intros _.
  apply (steps_bind R R_trans); [apply gen_PageCount|]. intros pc''.
  apply (steps_ret R R_refl).
Qed.

End CreateSteps.

Lemma recency_ext s s' :
  heap s' = heap s -> nalloc s' = nalloc s -> cache s' = cache s ->
  recency s' = recency s.
Proof. unfold recency. intros -> -> ->. reflexivity. Qed.

Lemma ok_perm_refl s : ok_perm s s.
Proof. intros H. split; [exact H|reflexivity]. Qed.

Lemma ok_perm_trans s1 s2 s3 : ok_perm s1 s2 -> ok_perm s2 s3 -> ok_perm s1 s3.
Proof.
  intros H12 H23 H1. destruct (H12 H1) as [H2 Hp]. destruct (H23 H2) as [H3 Hp'].
  split; [exact H3|]. rewrite Hp'. exact Hp.
Qed.

Lemma keeps_cache_perm {A} (m : M A) : keeps_cache m -> steps ok_perm m.
Proof.
  intros Hm s a s' Hrun Hok. destruct (Hm _ _ _ Hrun) as (Hh & Hn & Hc).
  split; [eapply cache_ok_ext; eassumption|].
  rewrite (recency_ext _ _ Hh Hn Hc). reflexivity.
Qed.

Lemma Cache_Get_perm id : steps ok_perm (Cache_Get id).
Proof.
  intros s a s' Hrun (es & Hrep & Hcap).
  destruct (Cache_Get_refines s es id Hrep) as (h' & es' & Hget & Hrep' & _ & Hp).
  rewrite Hget in Hrun. injection Hrun as _ <-.
  split.
  - exists es'. split; [exact Hrep'|]. stn. rewrite Hp. exact Hcap.
  - rewrite (recency_rep _ _ Hrep'), (recency_rep _ _ Hrep), Hp. reflexivity.
Qed.

Lemma Create_perm E fuel : steps ok_perm (DiskViewer_Create E fuel).
Proof.
  apply (gen_Create ok_perm ok_perm_refl ok_perm_trans).
  - intros count off. apply keeps_cache_perm, keeps_cache_WriteAt.
  - apply keeps_cache_perm, keeps_cache_Stat.
  - intros f. apply keeps_cache_perm, keeps_cache_modify_pager.
  - apply Cache_Get_perm.
Qed.

Lemma same_sys_refl s : same_sys s s.
Proof. split; reflexivity. Qed.

Lemma same_sys_trans s1 s2 s3 : same_sys s1 s2 -> same_sys s2 s3 -> same_sys s1 s3.
Proof. intros [H1 H2] [H3 H4]. split; congruence. Qed.

Lemma Create_same_sys E fuel : steps same_sys (DiskViewer_Create E fuel).
Proof.
  apply (gen_Create same_sys same_sys_refl same_sys_trans).
  - intros count off s [n err] s' Hrun. unfold WriteAt in Hrun.
    destruct (off <? 0); [injection Hrun as _ _ Hs; subst s'; apply same_sys_refl|].
    destruct (env_write E (trace s) count off) as [k e].
    injection Hrun as _ _ Hs. subst s'. split; reflexivity.
  - intros s a s' Hrun. unfold Stat in Hrun.
    destruct (env_stat E (trace s)); injection Hrun as _ Hs; subst s';
      split; reflexivity.
  - intros f s a s' Hrun. unfold modify in Hrun. injection Hrun as Hs. subst s'.
    split; reflexivity.
  - intros id. apply heap_only_steps; [|apply heap_only_Cache_Get].
    intros s h. split; reflexivity.
Qed.

(** ** Mapped and unmapped regions *)

Lemma lru_evicted_Some cap id d l m :
  lru_assoc id l = None -> lru_evicted cap id l = Some m ->
  exists l' k, l = l' ++ [(k, m)] /\ lru_set cap id d l = (id, d) :: l'.
Proof.
  unfold lru_evicted, lru_set. intros -> Hev.
  destruct (cap <=? Z.of_nat (length l)); [|discriminate].
  destruct l as [|p l0 _] using rev_ind; [discriminate|].
  rewrite last_snoc in Hev. cbn in Hev. injection Hev as <-.
  exists l0, p.1. rewrite removelast_last. destruct p; auto.
Qed.

Lemma lru_evicted_None cap id d l :
  1 <= cap -> lru_assoc id l = None -> lru_evicted cap id l = None ->
  lru_set cap id d l = (id, d) :: l /\ Z.of_nat (length l) < cap.
Proof.
  unfold lru_evicted, lru_set. intros Hcap -> Hev.
  destruct (Z.leb_spec cap (Z.of_nat (length l))) as [Hle|Hlt]; [|auto].
  destruct l as [|p l0 _] using rev_ind; [simpl in Hle; lia|].
  rewrite last_snoc in Hev. discriminate.
Qed.

Lemma Read_balanced E s id res s' :
  unmap_ok E -> cache_ok s -> balanced s ->
  DiskViewer_Read E id s = Ret res s' ->
  cache_ok s' /\ balanced s'.
Proof.
  intros Hok Hcs Hbal Hrun.
  pose proof Hcs as (es & _ & Hpos & _).
  destruct (Read_effect E s id Hcs) as (res' & s'' & Hread & Hcs' & _ & _ & _ & Hcase).
  rewrite Hrun in Hread. injection Hread as <- <-.
  split; [exact Hcs'|]. unfold balanced in *.
  destruct (lru_assoc id (recency s)) as [d|] eqn:Hassoc.
  - destruct Hcase as (_ & Ht & _ & _ & Hp). rewrite Ht, Hp. exact Hbal.
  - destruct (env_mmap E (trace s) _) as [e|].
    + destruct Hcase as [_ ->]. exact Hbal.
    + destruct Hcase as (_ & Hrec & Hcase).
      destruct (lru_evicted _ id (recency s)) as [m|] eqn:Hev.
      * destruct (lru_evicted_Some _ _ (Some (nregion s)) _ _ Hassoc Hev)
          as (l' & k & Hl & Hset).
        rewrite (Hok _ m) in Hcase. destruct Hcase as [_ Ht].
        rewrite Hrec, Hset, Ht. cbn [mapped unmapped omap list_omap fmap list_fmap snd].
        fold (mapped (trace s)). fold (unmapped (trace s)).
        rewrite Hbal, Hl, fmap_app. cbn [fmap list_fmap snd].
        rewrite (Permutation_app_comm (snd <$> l') [m]).
        cbn [app]. rewrite <- !Permutation_middle. apply perm_swap.
      * destruct (lru_evicted_None _ _ (Some (nregion s)) _ Hpos Hassoc Hev) as [Hset _].
        destruct Hcase as [_ Ht].
        rewrite Hrec, Hset, Ht. cbn [mapped unmapped omap list_omap fmap list_fmap snd].
        fold (mapped (trace s)). fold (unmapped (trace s)).
        rewrite Hbal, <- Permutation_middle. reflexivity.
Qed.

Lemma Create_balanced E fuel s res s' :
  cache_ok s -> balanced s ->
  DiskViewer_Create E fuel s = Ret res s' ->
  cache_ok s' /\ balanced s'.
Proof.
  intros Hcs Hbal Hrun.
  destruct (Create_perm E fuel s res s' Hrun Hcs) as [Hcs' Hp].
  destruct (Create_same_sys E fuel s res s' Hrun) as [Hm Hu].
  split; [exact Hcs'|]. unfold balanced. rewrite Hm, Hu, Hp. exact Hbal.
Qed.

Lemma run_dv_balanced E ops : forall s s',
  unmap_ok E -> cache_ok s -> balanced s ->
  run_dv E ops s = Ret tt s' ->
  cache_ok s' /\ balanced s'.
Proof.
  induction ops as [|op ops IH]; intros s s' Hok Hcs Hbal Hrun.
  - cbn in Hrun. unfold ret in Hrun. injection Hrun as <-. auto.
  - cbn [run_dv] in Hrun. unfold bind at 1 in Hrun.
    destruct (run_dv_op E op s) as [[] s1| |] eqn:Hop; try discriminate.
    assert (H1 : cache_ok s1 /\ balanced s1).
    { destruct op as [id|fuel]; cbn [run_dv_op] in Hop; unfold bind in Hop.
      - destruct (DiskViewer_Read E id s) as [res sa| |] eqn:Hr; try discriminate.
        unfold ret in Hop. injection Hop as <-.
        eapply Read_balanced; eassumption.
      - destruct (DiskViewer_Create E fuel s) as [res sa| |] eqn:Hc; try discriminate.
        unfold ret in Hop. injection Hop as <-.
        eapply Create_balanced; eassumption. }
    destruct H1 as [Hcs1 Hbal1]. eapply IH; eassumption.
Qed.

Lemma New_trace E config s s' :
  DiskViewer_New E config s = Ret None s' ->
  trace s' = EvStat :: EvOpen :: trace s.
Proof.
  unfold DiskViewer_New. intros Hrun.
  destruct (NewCache_spec config s) as (s1 & Hnew & _ & _ & _ & _ & _ & Ht).
  rewrite (bind_Ret _ _ _ _ _ Hnew) in Hrun. unfold NewPager in Hrun.
  destruct (env_open E (trace s1)) as [e|]; [discriminate|].
  unfold bind, Stat, file_Close, modify, ret in Hrun.
  cbn [set_trace set_pager trace heap nalloc cache pager fsize nregion] in Hrun.
  destruct (env_stat E (EvOpen :: trace s1)) as [e|]; [discriminate|].
  injection Hrun as Hs. subst s'. stn. rewrite Ht. reflexivity.
Qed.

Lemma New_start E config sz s0 :
  0 <= MaxCapacity config ->
  DiskViewer_New E config (boot sz) = Ret None s0 ->
  cache_ok s0 /\ recency s0 = [] /\ trace s0 = [EvStat; EvOpen] /\
  MaxCapacity (c_config (cache s0)) = capacity_of config.
Proof.
  intros Hcap Hnew. pose proof (New_trace _ _ _ _ Hnew) as Ht.
  apply New_inv in Hnew as (s1 & Hnc & Hh & Hn & Hc & _).
  destruct (NewCache_ok config (boot sz) Hcap) as (s1' & Hnc' & Hok1 & Hcfg & Hrep & _).
  rewrite Hnc in Hnc'. injection Hnc' as <-.
  split; [eapply cache_ok_ext; eassumption|].
  split; [rewrite (recency_ext _ _ Hh Hn Hc); apply (recency_rep _ _ Hrep)|].
  split; [exact Ht|]. rewrite Hc. exact Hcfg.
Qed.

(** X7. No leak and no double release while the viewer lives.  When no
    munmap fails, in every state a [DiskViewer] reaches from [New] through
    [Read] and [Create] the regions mapped so far are, counted with
    multiplicity, exactly the regions unmapped so far together with the
    regions the cache holds: every evicted region has been unmapped once,
    every cached region is still mapped. *)
Theorem no_leak E config sz ops s0 s :
  unmap_ok E ->
  0 <= MaxCapacity config ->
  DiskViewer_New E config (boot sz) = Ret None s0 ->
  run_dv E ops s0 = Ret tt s ->
  mapped (trace s) ≡ₚ unmapped (trace s) ++ (snd <$> recency s).
Proof.
  intros Hok Hcap Hnew Hrun.
  destruct (New_start E config sz s0 Hcap Hnew) as (Hcs0 & Hrec0 & Ht0 & _).
  assert (Hbal0 : balanced s0).
  { unfold balanced. rewrite Ht0, Hrec0. reflexivity. }
  destruct (run_dv_balanced E ops s0 s Hok Hcs0 Hbal0 Hrun) as [_ Hbal]. exact Hbal.
Qed.

Lemma no_leak_witness :
  exists s0 s,
    DiskViewer_New (quiet_env 4096) (mkConfig 1) (boot 0) = Ret None s0 /\
    run_dv (quiet_env 4096) [DvCreate 1; DvCreate 1; DvRead 0; DvRead 1] s0
      = Ret tt s /\
    mapped (trace s) ≡ₚ unmapped (trace s) ++ (snd <$> recency s).
Proof.
  eexists _, _. split; [vm_compute; reflexivity|].
  split; [vm_compute; reflexivity|].
  eapply (no_leak (quiet_env 4096) (mkConfig 1) 0
            [DvCreate 1; DvCreate 1; DvRead 0; DvRead 1]).
  - intros t m. reflexivity.
  - simpl. lia.
  - vm_compute. reflexivity.
  - vm_compute. reflexivity.
Defined.

(** X8. The whole life of a viewer.  When no munmap fails, closing a viewer
    in any state it reaches from [New] through [Read] and [Create] unmaps
    every cached region, then closes the file as the last system call, and
    returns the answer of that close; afterwards every region that was ever
    mapped has been unmapped exactly once and the cache is empty. *)
Theorem close_lifecycle E config sz ops s0 s :
  unmap_ok E ->
  (forall m, env_range E m ≡ₚ map_to_list m) ->
  0 <= MaxCapacity config ->
  DiskViewer_New E config (boot sz) = Ret None s0 ->
  run_dv E ops s0 = Ret tt s ->
  exists s' t,
    DiskViewer_Close E s = Ret (env_close E t) s' /\
    trace s' = EvCloseFile :: t /\
    mapped (trace s') ≡ₚ unmapped (trace s') /\
    c_lookup (cache s') = ∅ /\ recency s' = [].
Proof.
  intros Hok Hrange Hcap Hnew Hrun.
  pose proof (Hbalanced := run_dv_balanced E ops s0 s Hok).
  destruct (New_start E config sz s0 Hcap Hnew) as (Hcs0 & Hrec0 & Ht0 & _).
  assert (Hbal0 : balanced s0) by (unfold balanced; rewrite Ht0, Hrec0; reflexivity).
  destruct (Hbalanced Hcs0 Hbal0 Hrun) as [(es & Hrep & _) Hbal].
  destruct (Cache_Close_exact E s es Hrange Hrep)
    as (err & s1 & ds & Hcl & Ht & Hds & Hc & _ & _ & _ & Herr).
  rewrite (Herr Hok) in Hcl.
  exists (set_trace (EvCloseFile :: trace s1) s1), (trace s1).
  split; [apply (Close_on_cache_success E s s1 Hcl)|].
  split; [reflexivity|]. stn.
  split; [|split; [rewrite Hc; reflexivity|unfold recency; stn; rewrite Hc; reflexivity]].
  cbn [mapped unmapped omap list_omap]. fold (mapped (trace s1)). fold (unmapped (trace s1)).
  rewrite Ht, mapped_app, unmapped_app, mapped_unmaps, unmapped_unmaps.
  cbn [app]. unfold balanced in Hbal.
  rewrite Hbal, (recency_rep _ _ Hrep), Hds, <- list_fmap_compose.
  apply Permutation_app_comm.
Qed.

Lemma close_lifecycle_witness :
  exists s0 s s' t,
    DiskViewer_New (quiet_env 4096) (mkConfig 1) (boot 0) = Ret None s0 /\
    run_dv (quiet_env 4096) [DvCreate 1; DvCreate 1; DvRead 0; DvRead 1] s0
      = Ret tt s /\
    DiskViewer_Close (quiet_env 4096) s = Ret None s' /\
    trace s' = EvCloseFile :: t /\
    mapped (trace s') ≡ₚ unmapped (trace s').
Proof.
  pose proof (fun s0 s =>
                close_lifecycle (quiet_env 4096) (mkConfig 1) 0
                  [DvCreate 1; DvCreate 1; DvRead 0; DvRead 1] s0 s) as H.
  edestruct H as (s' & t & Hclose & Ht & Hbal & _).
  - intros t m. reflexivity.
  - intros m. reflexivity.
  - simpl. lia.
  - vm_compute. reflexivity.
  - vm_compute. reflexivity.
  - eexists _, _, s', t. split; [vm_compute; reflexivity|].
    split; [vm_compute; reflexivity|].
    split; [exact Hclose|]. split; [exact Ht|exact Hbal].
Defined.

(** ** A working set that fits the cache *)

Lemma lru_assoc_None l id : lru_assoc id l = None -> id ∉ fst <$> l.
Proof.
  induction l as [|[k d] l IH]; cbn; intros H; [apply not_elem_of_nil|].
  destruct (Z.eqb_spec k id); [discriminate|].
  apply not_elem_of_cons. split; [congruence|auto].
Qed.

Lemma recency_nodup s : cache_ok s -> NoDup (fst <$> recency s).
Proof.
  intros (es & Hrep & _). rewrite (recency_rep _ _ Hrep), <- list_fmap_compose.
  apply (rep_ids_nodup _ _ Hrep).
Qed.

Lemma fits_room (S l : list Z) id :
  NoDup l -> id ∉ l -> id ∈ S -> (forall x, x ∈ l -> x ∈ S) ->
  (length l < length (remove_dups S))%nat.
Proof.
  intros Hnd Hni Hin Hsub.
  assert (Hnd' : NoDup (id :: l)) by (constructor; assumption).
  assert (Hs : id :: l ⊆+ remove_dups S).
  { apply NoDup_submseteq; [exact Hnd'|]. intros x Hx. apply elem_of_remove_dups.
    apply elem_of_cons in Hx as [->|Hx]; auto. }
  apply submseteq_length in Hs. cbn in Hs. lia.
Qed.

Lemma Read_fits E S s id res s' :
  cache_ok s -> id ∈ S ->
  Z.of_nat (length (remove_dups S)) <= MaxCapacity (c_config (cache s)) ->
  (forall x, x ∈ fst <$> recency s -> x ∈ S) ->
  mapped (trace s) ≡ₚ snd <$> recency s ->
  DiskViewer_Read E id s = Ret res s' ->
  cache_ok s' /\ c_config (cache s') = c_config (cache s) /\
  (forall x, x ∈ fst <$> recency s' -> x ∈ S) /\
  unmapped (trace s') = unmapped (trace s) /\
  mapped (trace s') ≡ₚ snd <$> recency s'.
Proof.
  intros Hcs Hin Hfit Hsub Hbal Hrun.
  pose proof Hcs as (es & _ & Hpos & _).
  destruct (Read_effect E s id Hcs) as (res' & s'' & Hread & Hcs' & Hcfg & _ & _ & Hcase).
  rewrite Hrun in Hread. injection Hread as <- <-.
  split; [exact Hcs'|]. split; [exact Hcfg|].
  destruct (lru_assoc id (recency s)) as [d|] eqn:Hassoc.
  - destruct Hcase as (_ & Ht & _ & _ & Hp). rewrite Ht.
    split; [intros x; rewrite Hp; apply Hsub|].
    split; [reflexivity|rewrite Hp; exact Hbal].
  - destruct (env_mmap E (trace s) _) as [e|].
    + destruct Hcase as [_ ->]. auto.
    + destruct Hcase as (_ & Hrec & Hcase).
      pose proof (fits_room S (fst <$> recency s) id (recency_nodup s Hcs)
                    (lru_assoc_None _ _ Hassoc) Hin Hsub) as Hroom.
      rewrite length_fmap in Hroom.
      assert (Hev : lru_evicted (MaxCapacity (c_config (cache s))) id (recency s) = None).
      { unfold lru_evicted. rewrite Hassoc.
        destruct (Z.leb_spec (MaxCapacity (c_config (cache s)))
                    (Z.of_nat (length (recency s)))); [lia|reflexivity]. }
      rewrite Hev in Hcase. destruct Hcase as [_ Ht].
      destruct (lru_evicted_None _ _ (Some (nregion s)) _ Hpos Hassoc Hev) as [Hset _].
      rewrite Hrec, Hset, Ht. rewrite !fmap_cons.
      cbn [mapped unmapped omap list_omap fst snd].
      fold (mapped (trace s)). fold (unmapped (trace s)).
      split; [|split; [reflexivity|rewrite Hbal; reflexivity]].
      intros x Hx. apply elem_of_cons in Hx as [->|Hx]; auto.
Qed.

Lemma Create_fits E (S : list Z) fuel s res s' :
  cache_ok s ->
  (forall x, x ∈ fst <$> recency s -> x ∈ S) ->
  mapped (trace s) ≡ₚ snd <$> recency s ->
  DiskViewer_Create E fuel s = Ret res s' ->
  cache_ok s' /\ c_config (cache s') = c_config (cache s) /\
  (forall x, x ∈ fst <$> recency s' -> x ∈ S) /\
  unmapped (trace s') = unmapped (trace s) /\
  mapped (trace s') ≡ₚ snd <$> recency s'.
Proof.
  intros Hcs Hsub Hbal Hrun.
  destruct (Create_perm E fuel s res s' Hrun Hcs) as [Hcs' Hp].
  destruct (Create_same_sys E fuel s res s' Hrun) as [Hm Hu].
  destruct (Create_same_cache E fuel s res s' Hrun) as [Hc _].
  split; [exact Hcs'|]. split; [rewrite Hc; reflexivity|].
  split; [intros x; rewrite Hp; apply Hsub|].
  split; [exact Hu|]. rewrite Hm, Hp. exact Hbal.
Qed.

Lemma run_dv_fits E (S : list Z) ops : forall s s',
  cache_ok s ->
  (forall x, x ∈ read_ids ops -> x ∈ S) ->
  Z.of_nat (length (remove_dups S)) <= MaxCapacity (c_config (cache s)) ->
  (forall x, x ∈ fst <$> recency s -> x ∈ S) ->
  mapped (trace s) ≡ₚ snd <$> recency s ->
  run_dv E ops s = Ret tt s' ->
  cache_ok s' /\
  (forall x, x ∈ fst <$> recency s' -> x ∈ S) /\
  unmapped (trace s') = unmapped (trace s) /\
  mapped (trace s') ≡ₚ snd <$> recency s'.
Proof.
  induction ops as [|op ops IH]; intros s s' Hcs Hops Hfit Hsub Hbal Hrun.
  - cbn in Hrun. unfold ret in Hrun. injection Hrun as <-. auto.
  - cbn [run_dv] in Hrun. unfold bind at 1 in Hrun.
    destruct (run_dv_op E op s) as [[] s1| |] eqn:Hop; try discriminate.
    assert (H1 : cache_ok s1 /\ c_config (cache s1) = c_config (cache s) /\
                 (forall x, x ∈ fst <$> recency s1 -> x ∈ S) /\
                 unmapped (trace s1) = unmapped (trace s) /\
                 mapped (trace s1) ≡ₚ snd <$> recency s1).
    { destruct op as [id|fuel]; cbn [run_dv_op] in Hop; unfold bind in Hop.
      - destruct (DiskViewer_Read E id s) as [res sa| |] eqn:Hr; try discriminate.
        unfold ret in Hop. injection Hop as <-.
        eapply Read_fits; try eassumption. apply Hops. cbn. apply elem_of_cons. left. reflexivity.
      - destruct (DiskViewer_Create E fuel s) as [res sa| |] eqn:Hc; try discriminate.
        unfold ret in Hop. injection Hop as <-.
        eapply Create_fits; eassumption. }
    destruct H1 as (Hcs1 & Hcfg1 & Hsub1 & Hu1 & Hbal1).
    destruct (IH s1 s' Hcs1) as (Hcs' & Hsub' & Hu' & Hbal'); try assumption.
    + intros x Hx. apply Hops. destruct op; cbn; [apply elem_of_cons; right|]; exact Hx.
    + rewrite Hcfg1. exact Hfit.
    + repeat split; try assumption. congruence.
Qed.

(** X9. A working set that fits is never evicted.  When the distinct page
    ids a viewer is asked to read are no more than its capacity, no run of
    [Read] and [Create] ever unmaps a region, whatever the system answers:
    every region mapped so far is still cached, only ids that were read are
    cached, and each distinct page was mapped at most once. *)
Theorem working_set_fits E config sz ops s0 s :
  0 <= MaxCapacity config ->
  Z.of_nat (length (remove_dups (read_ids ops))) <= capacity_of config ->
  DiskViewer_New E config (boot sz) = Ret None s0 ->
  run_dv E ops s0 = Ret tt s ->
  unmapped (trace s) = [] /\
  mapped (trace s) ≡ₚ snd <$> recency s /\
  (forall x, x ∈ fst <$> recency s -> x ∈ read_ids ops) /\
  (length (mapped (trace s)) <= length (remove_dups (read_ids ops)))%nat.
Proof.
  intros Hcap Hfit Hnew Hrun.
  destruct (New_start E config sz s0 Hcap Hnew) as (Hcs0 & Hrec0 & Ht0 & Hcfg0).
  destruct (run_dv_fits E (read_ids ops) ops s0 s Hcs0) as (Hcs & Hsub & Hu & Hbal);
    try assumption.
  - auto.
  - rewrite Hcfg0. exact Hfit.
  - rewrite Hrec0. intros x Hx. apply elem_of_nil in Hx. contradiction.
  - rewrite Ht0, Hrec0. reflexivity.
  - rewrite Ht0 in Hu. split; [exact Hu|]. split; [exact Hbal|]. split; [exact Hsub|].
    rewrite Hbal, length_fmap, <- (length_fmap fst).
    apply submseteq_length, NoDup_submseteq; [apply recency_nodup, Hcs|].
    intros x Hx. apply elem_of_remove_dups, Hsub, Hx.
Qed.

Lemma working_set_fits_witness :
  exists s0 s,
    DiskViewer_New (quiet_env 4096) (mkConfig 2) (boot 0) = Ret None s0 /\
    run_dv (quiet_env 4096)
      [DvCreate 1; DvCreate 1; DvRead 0; DvRead 1; DvRead 0; DvRead 1] s0
      = Ret tt s /\
    unmapped (trace s) = [] /\
    mapped (trace s) ≡ₚ snd <$> recency s.
Proof.
  pose proof (fun s0 s =>
                working_set_fits (quiet_env 4096) (mkConfig 2) 0
                  [DvCreate 1; DvCreate 1; DvRead 0; DvRead 1; DvRead 0; DvRead 1]
                  s0 s) as H.
  edestruct H as (Hu & Hbal & _).
  - simpl. lia.
  - vm_compute. discriminate.
  - vm_compute. reflexivity.
  - vm_compute. reflexivity.
  - eexists _, _. split; [vm_compute; reflexivity|].
    split; [vm_compute; reflexivity|]. split; [exact Hu|exact Hbal].
Defined.

(** ** [Create] under partial writes and failures *)

Lemma create_loop_returns E fuel :
  write_progress E ->
  forall remaining offset s,
    0 <= remaining -> 0 <= offset -> offset + remaining <= max_int64 ->
    (Z.to_nat remaining <= fuel)%nat ->
    exists r s', create_loop E fuel remaining offset s = Ret r s'.
Proof.
  intros Hprog. induction fuel as [|fuel IH]; intros remaining offset s Hr Ho Hm Hfuel;
    cbn [create_loop]; destruct (Z.ltb_spec 0 remaining) as [Hpos|Hz].
  - lia.
  - eexists _, _. reflexivity.
  - unfold bind, fill, WriteAt. destruct (Z.ltb_spec offset 0); [lia|].
    pose proof (Hprog (trace s) remaining offset Hpos) as Hp.
    destruct (env_write E (trace s) remaining offset) as [k [e|]]; cbn [fst snd] in Hp.
    + eexists _, _. reflexivity.
    + specialize (Hp eq_refl).
      set (n := Z.max 0 (Z.min k (Z.min remaining (max_int64 - offset)))).
      assert (Hn : 1 <= n <= remaining) by (subst n; lia).
      rewrite (wrap64_id (remaining - n)) by (unfold max_int64 in *; lia).
      rewrite (wrap64_id (offset + n)) by (unfold max_int64 in *; lia).
      apply IH; lia.
  - eexists _, _. reflexivity.
Qed.

Lemma Create_outcomes_inv E ps k fuel s :
  write_progress E -> 0 < ps -> pager_inv ps k s -> k * ps + ps <= max_int64 ->
  cache_ok s -> (Z.to_nat ps <= fuel)%nat ->
  exists id err s',
    DiskViewer_Create E fuel s = Ret (id, err) s' /\
    match err with
    | None => id = k /\ pager_inv ps (k + 1) s' /\ fsize s' = (k + 1) * ps
    | Some _ => id = 0 /\ pager_inv ps k s' /\ fsize s <= fsize s'
    end.
Proof.
  intros Hprog Hps Hinv Hmax Hcs Hfuel.
  pose proof Hinv as (Hp & Hk & Hsz & Hfs & Hm).
  assert (Hkps : 0 <= k * ps) by nia.
  unfold DiskViewer_Create. unfold bind at 1, gets at 1.
  rewrite (bind_Ret _ _ _ _ _ (PageCount_inv ps k s Hps Hinv)).
  rewrite Hp. rewrite (wrap64_id (k * ps)) by (unfold max_int64 in *; lia).
  destruct (create_loop_returns E fuel Hprog ps (k * ps) s) as (w & s1 & Hloop);
    [lia..|].
  rewrite (bind_Ret _ _ _ _ _ Hloop).
  destruct (keeps_cache_create_loop E fuel _ _ _ _ _ Hloop) as (Hh1 & Hn1 & Hc1).
  apply create_loop_spec in Hloop; [|lia..].
  destruct Hloop as (Hp1 & Hf1 & Hm1 & Hfull).
  assert (Hcs1 : cache_ok s1) by (eapply cache_ok_ext; eassumption).
  destruct w as [e|].
  - exists 0, (Some e), s1. split; [reflexivity|]. split; [reflexivity|].
    split; [|lia]. unfold pager_inv. rewrite Hp1. repeat split; try assumption; lia.
  - specialize (Hfull eq_refl Hps).
    unfold bind at 1. unfold Pager_RefreshInfo, bind at 1, Stat.
    destruct (env_stat E (trace s1)) as [e|].
    + exists 0, (Some (ErrRefreshInfo e)), s1. split; [reflexivity|].
      split; [reflexivity|]. split; [|lia].
      unfold pager_inv. rewrite Hp1. repeat split; try assumption; lia.
    + unfold bind at 1, gets at 1. unfold bind at 1, modify at 1. unfold ret at 1.
      set (s2 := set_pager _ _).
      assert (Hinv2 : pager_inv ps (k + 1) s2).
      { subst s2. unfold pager_inv. stn. cbn [p_pageSize p_info Size].
        rewrite Hp1, Hp. repeat split; try lia. }
      assert (Hcs2 : cache_ok s2) by (eapply cache_ok_ext; [..|exact Hcs1]; reflexivity).
      rewrite (bind_Ret _ _ _ _ _ (PageCount_inv ps (k + 1) s2 Hps Hinv2)).
      destruct Hcs2 as (es & Hrep2 & _).
      destruct (Cache_Get_refines s2 es (wrap64 (k + 1 - 1)) Hrep2)
        as (h' & es' & Hget & _).
      rewrite (bind_Ret _ _ _ _ _ Hget).
      assert (Hinv3 : pager_inv ps (k + 1) (set_heap h' s2))
        by (eapply pager_inv_ext; [..|exact Hinv2]; reflexivity).
      rewrite (bind_Ret _ _ _ _ _ (PageCount_inv ps (k + 1) _ Hps Hinv3)).
      unfold ret. replace (k + 1 - 1) with k by lia.
      rewrite (wrap64_id k) by (unfold max_int64 in *; nia).
      exists k, None, (set_heap h' s2). split; [reflexivity|].
      split; [reflexivity|]. split; [exact Hinv3|].
      subst s2. stn. lia.
Qed.

Lemma run_dv_pager_inv E ps ops : forall k s s',
  0 < ps <= max_int64 -> cache_ok s -> pager_inv ps k s ->
  run_dv E ops s = Ret tt s' ->
  exists k', pager_inv ps k' s'.
Proof.
  induction ops as [|op ops IH]; intros k s s' Hps Hcs Hinv Hrun.
  - cbn in Hrun. unfold ret in Hrun. injection Hrun as <-. eauto.
  - cbn [run_dv] in Hrun. unfold bind at 1 in Hrun.
    destruct (run_dv_op E op s) as [[] s1| |] eqn:Hop; try discriminate.
    assert (H1 : cache_ok s1 /\ exists k1, pager_inv ps k1 s1).
    { destruct op as [id|fuel]; cbn [run_dv_op] in Hop; unfold bind in Hop.
      - destruct (DiskViewer_Read E id s) as [res sa| |] eqn:Hr; try discriminate.
        unfold ret in Hop. injection Hop as <-.
        destruct (Read_effect E s id Hcs) as (res' & s'' & Hread & Hcs' & _ & Hp & Hf & _).
        rewrite Hr in Hread. injection Hread as <- <-.
        split; [exact Hcs'|]. exists k. eapply pager_inv_ext; eassumption.
      - destruct (DiskViewer_Create E fuel s) as [[id err] sa| |] eqn:Hc; try discriminate.
        unfold ret in Hop. injection Hop as <-.
        split; [apply (Create_steps_ok E fuel _ _ _ Hc Hcs)|].
        destruct (Create_step E ps k fuel _ _ _ _ Hps Hinv Hc)
          as [(_ & _ & H)|(_ & H)]; eauto. }
    destruct H1 as (Hcs1 & k1 & Hinv1). eapply IH; eassumption.
Qed.

(** X10. [Create] under partial writes and failures.  On a viewer opened
    over an empty file, in any state reached through [Read] and [Create],
    when a write that reports no error writes at least one byte, the write
    loop of [Create] ends within pageSize rounds and [Create] returns.  With
    [k] the page count before: on success the id is [k], the page count
    becomes [k + 1] and the file is exactly [k + 1] pages long; on a write or
    refresh error the id is 0 and the page count stays [k], so that a retry
    creates the same page, and the file has not shrunk. *)
Theorem create_outcomes E config ops fuel s0 s :
  write_progress E ->
  0 < env_pagesize E <= max_int64 ->
  0 <= MaxCapacity config ->
  DiskViewer_New E config (boot 0) = Ret None s0 ->
  run_dv E ops s0 = Ret tt s ->
  fsize s + env_pagesize E <= max_int64 ->
  (Z.to_nat (env_pagesize E) <= fuel)%nat ->
  exists k id err s',
    Pager_PageCount s = Ret k s /\
    DiskViewer_Create E fuel s = Ret (id, err) s' /\
    match err with
    | None =>
        id = k /\ Pager_PageCount s' = Ret (k + 1) s' /\
        fsize s' = (k + 1) * env_pagesize E
    | Some _ =>
        id = 0 /\ Pager_PageCount s' = Ret k s' /\
        fsize s <= fsize s' <= (k + 1) * env_pagesize E
    end.
Proof.
  intros Hprog Hps Hcap Hnew Hrun Hmax Hfuel.
  pose proof (dv_reach_ok E config 0 ops s0 s Hcap Hnew Hrun) as Hcs.
  destruct (New_start E config 0 s0 Hcap Hnew) as (Hcs0 & _).
  apply New_inv in Hnew as (s1 & _ & _ & _ & _ & Hp0 & Hf0).
  assert (Hinv0 : pager_inv (env_pagesize E) 0 s0).
  { unfold pager_inv. rewrite Hp0, Hf0. cbn. unfold max_int64 in *. repeat split; lia. }
  destruct (run_dv_pager_inv E _ ops 0 s0 s Hps Hcs0 Hinv0 Hrun) as [k Hinv].
  assert (Hps0 : 0 < env_pagesize E) by lia.
  pose proof Hinv as (_ & Hk & _ & Hfs & _).
  destruct (Create_outcomes_inv E _ k fuel s Hprog Hps0 Hinv) as (id & err & s' & Hc & Hcase);
    [lia|exact Hcs|exact Hfuel|].
  exists k, id, err, s'. split; [apply (PageCount_inv _ _ _ Hps0 Hinv)|].
  split; [exact Hc|]. destruct err as [e|].
  - destruct Hcase as (-> & Hinv' & Hf). split; [reflexivity|].
    split; [apply (PageCount_inv _ _ _ Hps0 Hinv')|].
    destruct Hinv' as (_ & _ & _ & Hfs' & _). lia.
  - destruct Hcase as (-> & Hinv' & Hf). split; [reflexivity|].
    split; [apply (PageCount_inv _ _ _ Hps0 Hinv')|exact Hf].
Qed.

Lemma create_outcomes_witness :
  exists s0 s s',
    DiskViewer_New
      (mkEnv 4096 (fun _ => None) (fun _ => None)
         (fun _ count _ => (Z.min count 1000, None)) (fun _ _ => None)
         (fun _ _ => None) (fun _ => None) map_to_list)
      (mkConfig 2) (boot 0) = Ret None s0 /\
    run_dv
      (mkEnv 4096 (fun _ => None) (fun _ => None)
         (fun _ count _ => (Z.min count 1000, None)) (fun _ _ => None)
         (fun _ _ => None) (fun _ => None) map_to_list)
      [DvCreate 5; DvRead 0] s0 = Ret tt s /\
    DiskViewer_Create
      (mkEnv 4096 (fun _ => None) (fun _ => None)
         (fun _ count _ => (Z.min count 1000, None)) (fun _ _ => None)
         (fun _ _ => None) (fun _ => None) map_to_list)
      4096 s = Ret (1, None) s' /\
    fsize s' = 8192.
Proof.
  pose proof (fun s0 s =>
                create_outcomes
                  (mkEnv 4096 (fun _ => None) (fun _ => None)
                     (fun _ count _ => (Z.min count 1000, None)) (fun _ _ => None)
                     (fun _ _ => None) (fun _ => None) map_to_list)
                  (mkConfig 2) [DvCreate 5; DvRead 0] 4096 s0 s) as H.
  edestruct H as (k & id & err & s' & Hk & Hc & Hcase).
  - intros t count offset Hpos _. cbn. lia.
  - cbn. unfold max_int64. lia.
  - simpl. lia.
  - vm_compute. reflexivity.
  - vm_compute. reflexivity.
  - vm_compute. discriminate.
  - vm_compute. lia.
  - eexists _, _, s'. split; [vm_compute; reflexivity|].
    split; [vm_compute; reflexivity|].
    vm_compute in Hk. injection Hk as <-.
    destruct err as [e|].
    + destruct Hcase as (_ & Hpc & _). exfalso.
      revert Hc. vm_compute. discriminate.
    + destruct Hcase as (-> & _ & Hf). split; [exact Hc|]. rewrite Hf. reflexivity.
Defined.

(** ** Reading a page twice *)

Lemma lru_remove_fresh l id : id ∉ fst <$> l -> lru_remove id l = l.
Proof.
  induction l as [|[k d] l IH]; intros Hn; [reflexivity|].
  rewrite fmap_cons, not_elem_of_cons in Hn. destruct Hn as [Hne Hn]. cbn in Hne.
  cbn. destruct (Z.eqb_spec k id); [congruence|]. rewrite IH by exact Hn. reflexivity.
Qed.

Lemma Read_front E s id d s1 :
  cache_ok s ->
  DiskViewer_Read E id s = Ret (d, None) s1 ->
  cache_ok s1 /\ exists l, recency s1 = (id, d) :: l.
Proof.
  intros Hcs Hrun.
  destruct (Read_effect E s id Hcs) as (res' & s'' & Hread & Hcs' & _ & _ & _ & Hcase).
  rewrite Hrun in Hread. injection Hread as <- <-.
  split; [exact Hcs'|].
  destruct (lru_assoc id (recency s)) as [d0|] eqn:Hassoc.
  - destruct Hcase as (Hres & _ & _ & Hrec & _). injection Hres as ->.
    unfold lru_get in Hrec. rewrite Hassoc in Hrec. eauto.
  - destruct (env_mmap E (trace s) _) as [e|]; [destruct Hcase; discriminate|].
    destruct Hcase as (_ & Hrec & Hcase).
    unfold lru_set in Hrec. rewrite Hassoc in Hrec.
    assert (Hd : d = Some (nregion s)).
    { destruct (lru_evicted _ id (recency s)) as [m|].
      - destruct (env_unmap E _ m); destruct Hcase as [Hres _]; congruence.
      - destruct Hcase as [Hres _]. congruence. }
    subst d. destruct (_ <=? _) in Hrec; eauto.
Qed.

(** X11. Reading a page twice.  On every state a viewer reaches from [New]
    through [Read] and [Create], when [Read] of a page succeeds, reading the
    same page again at once returns the very same region, makes no system
    call, and leaves the recency order as it is, with that page first. *)
Theorem read_twice E config sz ops s0 s id d s1 :
  0 <= MaxCapacity config ->
  DiskViewer_New E config (boot sz) = Ret None s0 ->
  run_dv E ops s0 = Ret tt s ->
  DiskViewer_Read E id s = Ret (d, None) s1 ->
  exists s2,
    DiskViewer_Read E id s1 = Ret (d, None) s2 /\
    trace s2 = trace s1 /\
    recency s2 = recency s1 /\
    head (recency s1) = Some (id, d).
Proof.
  intros Hcap Hnew Hrun Hread.
  pose proof (dv_reach_ok E config sz ops s0 s Hcap Hnew Hrun) as Hcs.
  destruct (Read_front E s id d s1 Hcs Hread) as (Hcs1 & l & Hrec).
  destruct (Read_effect E s1 id Hcs1) as (res & s2 & Hread2 & _ & _ & _ & _ & Hcase).
  pose proof (recency_nodup s1 Hcs1) as Hnd.
  rewrite Hrec in Hcase, Hnd. rewrite fmap_cons in Hnd. cbn [fst] in Hnd.
  apply NoDup_cons in Hnd as [Hnin _].
  cbn [lru_assoc] in Hcase. rewrite Z.eqb_refl in Hcase.
  destruct Hcase as (-> & Ht & _ & Hrec2 & _).
  exists s2. split; [exact Hread2|]. split; [exact Ht|].
  split; [|rewrite Hrec; reflexivity].
  rewrite Hrec2, Hrec. unfold lru_get. cbn [lru_assoc lru_remove].
  rewrite Z.eqb_refl, (lru_remove_fresh _ _ Hnin). reflexivity.
Qed.

Lemma read_twice_witness :
  exists s0 s s1 s2,
    DiskViewer_New (quiet_env 4096) (mkConfig 1) (boot 0) = Ret None s0 /\
    run_dv (quiet_env 4096) [DvCreate 1; DvCreate 1; DvRead 0] s0 = Ret tt s /\
    DiskViewer_Read (quiet_env 4096) 1 s = Ret (Some 1%nat, None) s1 /\
    DiskViewer_Read (quiet_env 4096) 1 s1 = Ret (Some 1%nat, None) s2 /\
    trace s2 = trace s1.
Proof.
  pose proof (fun s0 s s1 =>
                read_twice (quiet_env 4096) (mkConfig 1) 0
                  [DvCreate 1; DvCreate 1; DvRead 0] s0 s 1 (Some 1%nat) s1) as H.
  edestruct H as (s2 & Hread & Ht & _).
  - simpl. lia.
  - vm_compute. reflexivity.
  - vm_compute. reflexivity.
  - vm_compute. reflexivity.
  - eexists _, _, _, s2. split; [vm_compute; reflexivity|].
    split; [vm_compute; reflexivity|]. split; [vm_compute; reflexivity|].
    split; [exact Hread|exact Ht].
Defined.

(** ** Opening a viewer *)

(** X12. How [New] ends.  From any state, [New] returns, and in one of
    three ways.  When the open fails it returns that error and has made no
    system call.  When the stat after the open fails it returns the stat's
    error after closing the file again, whatever that close answers.
    Otherwise it returns no error, has opened and stat'ed the file and
    nothing else, and holds the size of the file and the system's page
    size; for a capacity of at least 0 its cache is then well formed and
    empty, with the configured capacity, 10 standing for 0. *)
Theorem new_outcomes E config s :
  exists r s',
    DiskViewer_New E config s = Ret r s' /\
    fsize s' = fsize s /\ nregion s' = nregion s /\
    match env_open E (trace s) with
    | Some e => r = Some e /\ trace s' = trace s
    | None =>
        match env_stat E (EvOpen :: trace s) with
        | Some e => r = Some e /\ trace s' = EvCloseFile :: EvOpen :: trace s
        | None =>
            r = None /\ trace s' = EvStat :: EvOpen :: trace s /\
            pager s' = mkPager (mkInfo (fsize s)) (env_pagesize E) /\
            (0 <= MaxCapacity config ->
             cache_ok s' /\ recency s' = [] /\
             MaxCapacity (c_config (cache s')) = capacity_of config)
        end
    end.
Proof.
  destruct (NewCache_spec config s) as (s1 & Hnew & Hrep & Hcfg & Hp & Hf & Hn & Ht).
  unfold DiskViewer_New. rewrite (bind_Ret _ _ _ _ _ Hnew). unfold NewPager.
  rewrite Ht. destruct (env_open E (trace s)) as [e|].
  - exists (Some e), s1. auto.
  - unfold bind at 1, Stat. cbn [trace set_trace].
    destruct (env_stat E (EvOpen :: trace s)) as [e|].
    + eexists _, _. split; [reflexivity|]. stn. auto.
    + eexists _, _. split; [reflexivity|]. stn. rewrite ?Hf.
      split; [reflexivity|]. split; [exact Hn|]. split; [reflexivity|].
      split; [reflexivity|]. split; [reflexivity|]. intros Hcap.
      split; [|split].
      * exists []. split; [eapply cache_rep_ext; [..|exact Hrep]; reflexivity|].
        stn. rewrite Hcfg. destruct (Z.eqb_spec (MaxCapacity config) 0); cbn; lia.
      * erewrite recency_ext; [apply (recency_rep _ _ Hrep)|reflexivity..].
      * rewrite Hcfg. unfold capacity_of.
        destruct (MaxCapacity config =? 0); reflexivity.
Qed.

(** ** The pager that stats on every call *)

(** X13. Write and then count, in the pager variant that stats the file on
    every call.  On a pager opened over a file of [k] whole pages, when the
    system does not fail, [PageCount] answers [k], and after a [Write] of
    [m] whole pages at the end of the file it answers [k + m] at once, with
    no refresh in between. *)
Theorem pager2_write_then_count E k m s :
  faultless E ->
  0 < env_pagesize E -> 0 <= k -> 0 < m ->
  (k + m) * env_pagesize E <= max_int64 ->
  Pager2_NewPager E (boot (k * env_pagesize E)) = Ret None s ->
  exists s1 s2,
    Pager2_PageCount E s = Ret (k, None) s1 /\
    (Pager2_Write E (m * env_pagesize E) (k * env_pagesize E) ;;;
     Pager2_PageCount E) s1 = Ret (k + m, None) s2 /\
    fsize s2 = (k + m) * env_pagesize E.
Proof.
  intros [Hstat Hwrite] Hps Hk Hm Hmax Hnew.
  unfold Pager2_NewPager in Hnew. cbn [trace boot] in Hnew.
  destruct (env_open E []) as [e|]; [discriminate|].
  injection Hnew as Hs. subst s.
  set (ps := env_pagesize E) in *.
  assert (Hkps : 0 <= k * ps) by nia.
  assert (Hmps : 0 < m * ps) by nia.
  eexists _, _. split; [|split].
  - unfold Pager2_PageCount, bind, Stat, gets, ret. rewrite Hstat. stn.
    cbn [p_pageSize p_info Size boot fsize pager set_pager set_trace].
    destruct (Z.eqb_spec ps 0); [lia|]. rewrite Z.quot_mul by lia. reflexivity.
  - unfold Pager2_Write. destruct (Z.ltb_spec (m * ps) 0); [lia|].
    unfold bind at 1, WriteAt. destruct (Z.ltb_spec (k * ps) 0); [lia|].
    rewrite Hwrite.
    replace (Z.max 0 (Z.min (m * ps) (Z.min (m * ps) (max_int64 - k * ps))))
      with (m * ps) by lia.
    destruct (Z.ltb_spec 0 (m * ps)); [|lia].
    unfold Pager2_PageCount, bind, Stat, gets, ret. rewrite Hstat. stn.
    cbn [p_pageSize p_info Size boot fsize pager set_pager set_trace set_fsize].
    destruct (Z.eqb_spec ps 0); [lia|].
    replace (Z.max (k * ps) (k * ps + m * ps)) with ((k + m) * ps) by lia.
    rewrite Z.quot_mul by lia. reflexivity.
  - stn. cbn [boot fsize set_fsize set_pager set_trace]. lia.
Qed.

Lemma pager2_write_then_count_witness :
  exists s s1 s2,
    Pager2_NewPager (quiet_env 4096) (boot (3 * 4096)) = Ret None s /\
    Pager2_PageCount (quiet_env 4096) s = Ret (3, None) s1 /\
    (Pager2_Write (quiet_env 4096) (2 * 4096) (3 * 4096) ;;;
     Pager2_PageCount (quiet_env 4096)) s1 = Ret (5, None) s2.
Proof.
  pose proof (fun s => pager2_write_then_count (quiet_env 4096) 3 2 s) as H.
  edestruct H as (s1 & s2 & H1 & H2 & _).
  - split; intros; reflexivity.
  - simpl. lia.
  - lia.
  - lia.
  - vm_compute. discriminate.
  - vm_compute. reflexivity.
  - eexists _, s1, s2. split; [vm_compute; reflexivity|].
    split; [exact H1|exact H2].
Defined.

(** ** Using a viewer after [Close] *)



